(** * hist_scanner: collection-and-delivery pipeline

    A shallow embedding of the Go packages [dto], [sender], [state],
    [browser] and [scanner], with the properties of the delivery
    pipeline proved (or refuted) over it.

    Conventions.
    - Go's [int] and [int64] are modelled as [Z].  Sizes and counters are
      sums of string lengths and stay far below 2^63; where the source
      does arithmetic on timestamps that can leave the int64 range, the
      wrap-around is written out with [wrap64].
    - [float64] is the kernel's binary64 ([PrimFloat]), so the floating
      point expressions of the source are evaluated bit for bit.
    - A Go [for ... range] loop over a slice is a [fold_left] whose
      accumulator holds the variables the loop body assigns.
    - [append(s, x)] is [s ++ [x]].
    - The world outside the process (HTTP endpoint, file system, SQLite
      files, clock) is an explicit argument. *)

From Stdlib Require Import ZArith List Bool Ascii Lia Floats Uint63 Sorted.
From Stdlib Require Import Reals Lra Psatz.
From stdpp Require Import gmap strings.
Import ListNotations.
Open Scope Z_scope.

(* ------------------------------------------------------------------ *)
(** * Go's numeric conversions *)

Module gonum.

(** [float64(n)] for an integer [n]: round to nearest even. *)
Definition float64_of_int (n : Z) : float :=
  if n <? 0 then PrimFloat.opp (PrimFloat.of_uint63 (Uint63.of_Z (- n)))
  else PrimFloat.of_uint63 (Uint63.of_Z n).

(** [int(f)] / [int64(f)] for a finite float [f]: truncation toward
    zero.  (Go leaves the result for NaN and infinities to the
    implementation; they are mapped to 0 here and never occur below.) *)
Definition int_of_float64 (f : float) : Z :=
  match Prim2SF f with
  | S754_finite s m e =>
      let mag := if 0 <=? e then Z.pos m * 2 ^ e else Z.pos m / 2 ^ (- e) in
      if s then - mag else mag
  | _ => 0
  end.

(** Two's complement wrap-around of int64 arithmetic. *)
Definition wrap64 (z : Z) : Z := (z + 2 ^ 63) mod 2 ^ 64 - 2 ^ 63.

(** Go's integer division truncates toward zero: [Z.quot]. *)
Definition div (a b : Z) : Z := Z.quot a b.

End gonum.

(* ------------------------------------------------------------------ *)
(** * Go error values *)

(** The dynamic types of the errors the pipeline builds.  A type
    assertion to the pointer type of [httpError] succeeds on [httpError]
    only; it does not look through an error wrapped by [fmt.Errorf]. *)
Inductive error :=
| httpError (statusCode : Z)
| errorString (msg : string)
| wrapError (msg : string) (err : error).

(* ------------------------------------------------------------------ *)
(** * package dto *)

Module dto.

Inductive PrincipalKind := KindUsername | KindIP.

Record PrincipalDTO := { Name : string; Kind : PrincipalKind }.

Record VisitedSite := { URL : string; Timestamp : Z (* Unix milliseconds *) }.

Record VisitedSitesDTO := {
  Principal : PrincipalDTO;
  VisitedSites : list VisitedSite;
  Source : string
}.

Definition NewUserPrincipal (username : string) : PrincipalDTO :=
  {| Name := username; Kind := KindUsername |}.

Definition NewIPPrincipal (ip : string) : PrincipalDTO :=
  {| Name := ip; Kind := KindIP |}.

End dto.

(* ------------------------------------------------------------------ *)
(** * package sender: chunking *)

Module sender.
Import dto.

Record Client := {
  serverURL : string;
  apiKey : string;
  maxChunkSize : Z;   (* bytes *)
  compress : bool
}.

(** [NewClient]: the ceiling is given in kilobytes. *)
Definition NewClient (url key : string) (maxChunkSizeKB : Z) (gz : bool) : Client :=
  {| serverURL := url; apiKey := key;
     maxChunkSize := maxChunkSizeKB * 1024; compress := gz |}.

(** [len(site.URL) + 40] *)
Definition entrySize (site : VisitedSite) : Z :=
  Z.of_nat (String.length (URL site)) + 40.

(** [estimatedCompressedSize]: [currentSize], or
    [int(float64(currentSize) * 0.3)] when compression is on.  The
    constant is the binary64 nearest to 0.3. *)
Definition estimatedCompressedSize (c : Client) (currentSize : Z) : Z :=
  if compress c
  then gonum.int_of_float64
         (PrimFloat.mul (gonum.float64_of_int currentSize) 0x1.3333333333333p-2%float)
  else currentSize.

(** The variables of the loop of [buildChunks]. *)
Record chunkAcc := {
  chunks : list VisitedSitesDTO;
  currentSites : list VisitedSite;
  currentSize : Z
}.

Definition sealChunk (payload : VisitedSitesDTO) (sites : list VisitedSite) : VisitedSitesDTO :=
  {| Principal := Principal payload; Source := Source payload; VisitedSites := sites |}.

Definition nonEmpty {A} (l : list A) : bool :=
  match l with [] => false | _ => true end.

(** The test that seals the current chunk before [site] is added. *)
Definition mustSeal (c : Client) (acc : chunkAcc) (site : VisitedSite) : bool :=
  nonEmpty (currentSites acc)
  && (estimatedCompressedSize c (currentSize acc) + entrySize site >? maxChunkSize c).

(** One iteration of the loop of [buildChunks]. *)
Definition buildChunks_step (c : Client) (payload : VisitedSitesDTO)
    (acc : chunkAcc) (site : VisitedSite) : chunkAcc :=
  let acc1 :=
    if mustSeal c acc site
    then {| chunks := chunks acc ++ [sealChunk payload (currentSites acc)];
            currentSites := [];
            currentSize := 0 |}
    else acc in
  {| chunks := chunks acc1;
     currentSites := currentSites acc1 ++ [site];
     currentSize := currentSize acc1 + entrySize site |}.

Definition buildChunks (c : Client) (payload : VisitedSitesDTO) : list VisitedSitesDTO :=
  let acc := fold_left (buildChunks_step c payload) (VisitedSites payload)
               {| chunks := []; currentSites := []; currentSize := 0 |} in
  if nonEmpty (currentSites acc)
  then chunks acc ++ [sealChunk payload (currentSites acc)]
  else chunks acc.

(** Sum of the entry sizes of a run of records: the value [currentSize]
    holds while [sites] is the current chunk. *)
Fixpoint sizeOf (sites : list VisitedSite) : Z :=
  match sites with
  | [] => 0
  | site :: rest => entrySize site + sizeOf rest
  end.

(** The projected size the loop compares with the ceiling when [site]
    is about to join the records [cur]. *)
Definition projected (c : Client) (cur : list VisitedSite) (site : VisitedSite) : Z :=
  estimatedCompressedSize c (sizeOf cur) + entrySize site.


(** ** The HTTP endpoint *)

Definition bytes := list Byte.byte.

(** What [sendWithGzip] and [sendRaw] put on the wire. *)
Record Request := {
  contentType : string;
  contentEncoding : option string;
  authorization : string;
  body : bytes
}.

(** What [httpClient.Do] hands back: an error (connection refused,
    timeout, ...) or a response with a status code. *)
Inductive Response :=
| DoError (err : error)
| Status (statusCode : Z).

(** The collaborators of the transport.  The endpoint answers a request
    knowing the requests it has received before. *)
Record Net := {
  json_Marshal : VisitedSitesDTO -> error + bytes;
  gzip_bytes : bytes -> error + bytes;
  http_NewRequest_ok : string -> bool;
  endpoint : list Request -> Request -> Response
}.

(** State of the wire: the requests issued so far, oldest first. *)
Definition Http (A : Type) : Type := list Request -> A * list Request.

Definition ret {A} (a : A) : Http A := fun log => (a, log).
Definition bind {A B} (m : Http A) (k : A -> Http B) : Http B :=
  fun log => let (a, log1) := m log in k a log1.
Definition httpClient_Do (net : Net) (req : Request) : Http Response :=
  fun log => (endpoint net log req, log ++ [req]).

Notation "x <- m ;; k" := (bind m (fun x => k))
  (at level 100, m at next level, right associativity).

Definition len64 (data : bytes) : Z := Z.of_nat (length data).

Definition is2xx (statusCode : Z) : bool :=
  negb ((statusCode <? 200) || (statusCode >=? 300)).

(** The request [sendWithGzip] builds for the compressed bytes. *)
Definition gzipRequest (c : Client) (compressed : bytes) : Request :=
  {| contentType := "application/json";
     contentEncoding := Some "gzip"%string;
     authorization := String.append "ProxyToken " (apiKey c);
     body := compressed |}.

(** The request [sendRaw] builds for the serialized payload. *)
Definition rawRequest (c : Client) (data : bytes) : Request :=
  {| contentType := "application/json";
     contentEncoding := None;
     authorization := String.append "ProxyToken " (apiKey c);
     body := data |}.

(** How both senders read the answer to a request of [sent] bytes:
    [(bytesSent, err)]. *)
Definition answer (resp : Response) (sent : Z) : Z * option error :=
  match resp with
  | DoError err => (0, Some (wrapError "request failed" err))
  | Status code =>
      if is2xx code then (sent, None) else (0, Some (httpError code))
  end.

(** [sendWithGzip]: returns [(bytesSent, err)].  The three failures of
    the gzip writer are one failure of [gzip_bytes]. *)
Definition sendWithGzip (net : Net) (c : Client) (data : bytes) : Http (Z * option error) :=
  match gzip_bytes net data with
  | inl err => ret (0, Some (wrapError "failed to write gzip data" err))
  | inr compressed =>
      if negb (http_NewRequest_ok net (serverURL c))
      then ret (0, Some (wrapError "failed to create request" (errorString "parse")))
      else
        resp <- httpClient_Do net (gzipRequest c compressed) ;;
        ret (answer resp (len64 compressed))
  end.

(** [sendRaw]: returns [(bytesSent, err)]. *)
Definition sendRaw (net : Net) (c : Client) (data : bytes) : Http (Z * option error) :=
  if negb (http_NewRequest_ok net (serverURL c))
  then ret (0, Some (wrapError "failed to create request" (errorString "parse")))
  else
    resp <- httpClient_Do net (rawRequest c data) ;;
    ret (answer resp (len64 data)).

(** [http.StatusUnsupportedMediaType] *)
Definition StatusUnsupportedMediaType : Z := 415.

Definition isUnsupportedMediaType (err : error) : bool :=
  match err with
  | httpError statusCode => statusCode =? StatusUnsupportedMediaType
  | _ => false
  end.

(** [sendChunk]: returns [(bytesSent, bytesOriginal, err)]. *)
Definition sendChunk (net : Net) (c : Client) (payload : VisitedSitesDTO)
    : Http (Z * Z * option error) :=
  match json_Marshal net payload with
  | inl err => ret (0, 0, Some (wrapError "failed to marshal payload" err))
  | inr data =>
      let bytesOriginal := len64 data in
      if compress c then
        r <- sendWithGzip net c data ;;
        match r with
        | (bytesSent, None) => ret (bytesSent, bytesOriginal, None)
        | (_, Some err) =>
            if isUnsupportedMediaType err then
              r2 <- sendRaw net c data ;;
              ret (fst r2, bytesOriginal, snd r2)
            else ret (0, bytesOriginal, Some err)
        end
      else
        r <- sendRaw net c data ;;
        ret (fst r, bytesOriginal, snd r)
  end.

Record SendResult := {
  TotalSent : Z;
  ChunksSent : Z;
  LastError : option error;
  FailedCount : Z;
  BytesSent : Z;
  BytesOriginal : Z
}.

Definition emptyResult : SendResult :=
  {| TotalSent := 0; ChunksSent := 0; LastError := None;
     FailedCount := 0; BytesSent := 0; BytesOriginal := 0 |}.

Definition lenSites (sites : list VisitedSite) : Z := Z.of_nat (length sites).

(** The inner loop of [Send]: the running maximum over one chunk. *)
Definition trackMax (maxTimestamp : Z) (sites : list VisitedSite) : Z :=
  fold_left (fun m site => if Timestamp site >? m then Timestamp site else m)
            sites maxTimestamp.

(** The loop of [Send] over the chunks, with its variables [result] and
    [maxTimestamp]. *)
Fixpoint sendLoop (net : Net) (c : Client) (chunks : list VisitedSitesDTO)
    (result : SendResult) (maxTimestamp : Z) : Http (SendResult * Z) :=
  match chunks with
  | [] => ret (result, maxTimestamp)
  | chunk :: rest =>
      r <- sendChunk net c chunk ;;
      match r with
      | (_, _, Some err) =>
          sendLoop net c rest
            {| TotalSent := TotalSent result;
               ChunksSent := ChunksSent result;
               LastError := Some err;
               FailedCount := FailedCount result + lenSites (VisitedSites chunk);
               BytesSent := BytesSent result;
               BytesOriginal := BytesOriginal result |}
            maxTimestamp
      | (bytesSent, bytesOriginal, None) =>
          sendLoop net c rest
            {| TotalSent := TotalSent result + lenSites (VisitedSites chunk);
               ChunksSent := ChunksSent result + 1;
               LastError := LastError result;
               FailedCount := FailedCount result;
               BytesSent := BytesSent result + bytesSent;
               BytesOriginal := BytesOriginal result + bytesOriginal |}
            (trackMax maxTimestamp (VisitedSites chunk))
      end
  end.

(** [Send]: returns [(result, maxTimestamp, err)]. *)
Definition Send (net : Net) (c : Client) (payload : VisitedSitesDTO)
    : Http (SendResult * Z * option error) :=
  if negb (nonEmpty (VisitedSites payload)) then ret (emptyResult, 0, None)
  else
    r <- sendLoop net c (buildChunks c payload) emptyResult 0 ;;
    let (result, maxTimestamp) := r in
    match LastError result with
    | Some err =>
        if TotalSent result =? 0 then ret (result, 0, Some err)
        else ret (result, maxTimestamp, None)
    | None => ret (result, maxTimestamp, None)
    end.

(** ** History of a run of [Send] *)

(** What [sendChunk] returned for each chunk, in the order of the loop
    of [Send]: the chunk with its error ([None]: confirmed sent).  The
    wire is threaded exactly as [sendLoop] threads it. *)
Fixpoint sendOutcomes (net : Net) (c : Client) (chunks : list VisitedSitesDTO)
    (log : list Request) : list (VisitedSitesDTO * option error) :=
  match chunks with
  | [] => []
  | chunk :: rest =>
      let (r, log1) := sendChunk net c chunk log in
      (chunk, snd r) :: sendOutcomes net c rest log1
  end.

(** ** The loop of [buildChunks] as a recursion

    [chunkFrom c cur l] is the list of record runs the loop emits when it
    still has [l] to read and [cur] is its current chunk.  It is shown
    below to agree with [buildChunks]. *)
Fixpoint chunkFrom (c : Client) (cur l : list VisitedSite) : list (list VisitedSite) :=
  match l with
  | [] => if nonEmpty cur then [cur] else []
  | site :: l' =>
      if nonEmpty cur && (projected c cur site >? maxChunkSize c)
      then cur :: chunkFrom c [site] l'
      else chunkFrom c (cur ++ [site]) l'
  end.

(** The chunks the accumulator of [buildChunks] stands for: the sealed
    ones, then the one the test after the loop would seal. *)
Definition pending (payload : VisitedSitesDTO) (acc : chunkAcc) : list VisitedSitesDTO :=
  if nonEmpty (currentSites acc)
  then chunks acc ++ [sealChunk payload (currentSites acc)]
  else chunks acc.

(** No record joined the run [ch] against the test of the loop. *)
Definition fits (c : Client) (ch : list VisitedSite) : Prop :=
  forall pre r post, ch = pre ++ r :: post -> pre <> [] ->
    projected c pre r <= maxChunkSize c.

(** The records of the chunks a history reports as confirmed sent,
    those of the chunks it reports as failed, and the last error. *)
Fixpoint confirmedSites (outs : list (VisitedSitesDTO * option error)) : list VisitedSite :=
  match outs with
  | [] => []
  | (chunk, None) :: rest => VisitedSites chunk ++ confirmedSites rest
  | (_, Some _) :: rest => confirmedSites rest
  end.

Fixpoint failedSites (outs : list (VisitedSitesDTO * option error)) : list VisitedSite :=
  match outs with
  | [] => []
  | (_, None) :: rest => failedSites rest
  | (chunk, Some _) :: rest => VisitedSites chunk ++ failedSites rest
  end.

Fixpoint lastErrorOf (outs : list (VisitedSitesDTO * option error))
    (before : option error) : option error :=
  match outs with
  | [] => before
  | (_, None) :: rest => lastErrorOf rest before
  | (_, Some err) :: rest => lastErrorOf rest (Some err)
  end.

(** The three results of [Send]. *)
Definition Send_result (net : Net) (c : Client) (payload : VisitedSitesDTO)
    (log : list Request) : SendResult := fst (fst (fst (Send net c payload log))).
Definition Send_maxTimestamp (net : Net) (c : Client) (payload : VisitedSitesDTO)
    (log : list Request) : Z := snd (fst (fst (Send net c payload log))).
Definition Send_err (net : Net) (c : Client) (payload : VisitedSitesDTO)
    (log : list Request) : option error := snd (fst (Send net c payload log)).

(** The history of [Send] on a batch. *)
Definition Send_outcomes (net : Net) (c : Client) (payload : VisitedSitesDTO)
    (log : list Request) : list (VisitedSitesDTO * option error) :=
  sendOutcomes net c (buildChunks c payload) log.

End sender.

(* ------------------------------------------------------------------ *)
(** * The rule of the chunker, in its own words

    The sizes the rule of [buildChunks] speaks of, written here without
    the definitions of package sender, for the statement about
    [buildChunks] to be read against. *)

Module chunkspec.
Import dto.

(** The fixed compression ratio: the binary64 nearest to 3/10. *)
Definition ratio : float := PrimFloat.div 3%float 10%float.

(** The estimated size of one record: its URL and 40 bytes. *)
Definition entry (site : VisitedSite) : Z :=
  Z.of_nat (String.length (URL site)) + 40.

(** The running uncompressed estimate of a chunk. *)
Definition uncompressed (sites : list VisitedSite) : Z :=
  fold_right Z.add 0 (map entry sites).

(** The size the chunk [cur] is projected to have once [next] joins
    it: the running estimate, multiplied by the ratio and truncated when
    compression is on, plus the size of [next]. *)
Definition projectedSize (compress : bool) (cur : list VisitedSite) (next : VisitedSite) : Z :=
  (if compress
   then gonum.int_of_float64
          (PrimFloat.mul (gonum.float64_of_int (uncompressed cur)) ratio)
   else uncompressed cur)
  + entry next.

End chunkspec.

(* ------------------------------------------------------------------ *)
(** * package state: the watermark store *)

Module state.

(** [makeKey]: user/browser/profile *)
Definition makeKey (username browserName profileName : string) : string :=
  String.append username
    (String.append "/" (String.append browserName (String.append "/" profileName))).

(** [m.data] is a Go map from string to int64; reading a missing key
    yields 0 and does not insert. *)
Definition GetLastTimestamp (data : gmap string Z)
    (username browserName profileName : string) : Z :=
  default 0 (data !! makeKey username browserName profileName).

Definition SetLastTimestamp (data : gmap string Z)
    (username browserName profileName : string) (timestamp : Z) : gmap string Z :=
  <[makeKey username browserName profileName := timestamp]> data.

End state.

(* ------------------------------------------------------------------ *)
(** * package platform and the host the scanner runs on *)

Module platform.

Inductive OS := Linux | Windows | Darwin | OtherOS.

Record User := { Username : string; HomeDir : string; UID : string }.

End platform.

(** Result of [os.Stat]: no error, an error for which [os.IsNotExist]
    holds, or any other error (permission denied, I/O error, ...). *)
Inductive StatResult :=
| StatOk
| StatNotExist
| StatErr (err : error).

Record DirEntry := { entryName : string; entryIsDir : bool }.

(** A SQLite file as [db.Open], [Query] and the row iterator see it:
    it cannot be opened (neither directly nor through the temporary
    copy), the query fails, or the table is read; the iterator may stop
    with an error after a number of rows. *)
Inductive Store (R : Type) :=
| Unavailable (err : error)
| QueryFails (err : error)
| Table (rows : list R) (rowsErr : option (nat * error)).
Arguments Unavailable {R} err.
Arguments QueryFails {R} err.
Arguments Table {R} rows rowsErr.

(** A row of Chromium's [urls] table.  [rows.Scan] fails on a NULL url. *)
Record urlsRow := { url : option string; last_visit_time : Z }.

(** A row of Safari's [history_visits] joined with [history_items]. *)
Record visitRow := { item_url : option string; visit_time : float }.

Record Host := {
  CurrentOS : platform.OS;
  os_Stat : string -> StatResult;
  os_ReadDir : string -> error + list DirEntry;
  os_Getenv : string -> string;
  filepath_Join : string -> string -> string;
  chromium_db : string -> Store urlsRow;
  safari_db : string -> Store visitRow
}.

(* ------------------------------------------------------------------ *)
(** * package browser *)

Module browser.
Import dto.

Record Profile := { Name : string; Path : string }.

Record ChromiumPaths := {
  Linux : string;
  Darwin : string;
  Windows : string;
  WindowsAppData : bool
}.

Record ChromiumBrowser := {
  name : string;
  paths : ChromiumPaths;
  hasProfiles : bool
}.

Definition isEmpty (s : string) : bool := String.eqb s "".

(** [getBaseDir] *)
Definition getBaseDir (host : Host) (c : ChromiumBrowser) (user : platform.User) : string :=
  let join := filepath_Join host in
  match CurrentOS host with
  | platform.Linux =>
      if isEmpty (Linux (paths c)) then ""%string
      else join (platform.HomeDir user) (Linux (paths c))
  | platform.Darwin =>
      if isEmpty (Darwin (paths c)) then ""%string
      else join (platform.HomeDir user) (Darwin (paths c))
  | platform.Windows =>
      if isEmpty (Windows (paths c)) then ""%string
      else
        let baseEnv := if WindowsAppData (paths c) then "APPDATA"%string
                       else "LOCALAPPDATA"%string in
        if negb (isEmpty (platform.HomeDir user)) then
          let appDataPath :=
            if WindowsAppData (paths c)
            then join (join (platform.HomeDir user) "AppData") "Roaming"
            else join (join (platform.HomeDir user) "AppData") "Local" in
          join appDataPath (Windows (paths c))
        else
          let base := os_Getenv host baseEnv in
          if isEmpty base then ""%string else join base (Windows (paths c))
  | platform.OtherOS => ""%string
  end.

(** [os.Stat(path); err == nil] *)
Definition statSucceeds (host : Host) (path : string) : bool :=
  match os_Stat host path with StatOk => true | _ => false end.

(** [os.Stat(path); os.IsNotExist(err)] *)
Definition statNotExist (host : Host) (path : string) : bool :=
  match os_Stat host path with StatNotExist => true | _ => false end.

(** The body of the loop of [FindProfiles] over the directory entries. *)
Definition findProfiles_step (host : Host) (baseDir : string)
    (profiles : list Profile) (entry : DirEntry) : list Profile :=
  if negb (entryIsDir entry) then profiles
  else
    let name := entryName entry in
    if String.eqb name "Default" || String.prefix "Profile " name then
      let profilePath := filepath_Join host baseDir name in
      let historyPath := filepath_Join host profilePath "History" in
      if statSucceeds host historyPath
      then profiles ++ [{| Name := name; Path := profilePath |}]
      else profiles
    else profiles.

(** [ChromiumBrowser.FindProfiles] *)
Definition Chromium_FindProfiles (host : Host) (c : ChromiumBrowser)
    (user : platform.User) : list Profile * option error :=
  let baseDir := getBaseDir host c user in
  if isEmpty baseDir then ([], None)
  else if statNotExist host baseDir then ([], None)
  else if hasProfiles c then
    match os_ReadDir host baseDir with
    | inl _ => ([], None)
    | inr entries => (fold_left (findProfiles_step host baseDir) entries [], None)
    end
  else
    let historyPath := filepath_Join host baseDir "History" in
    if statSucceeds host historyPath
    then ([{| Name := "Default"; Path := baseDir |}], None)
    else ([], None).

(** [SafariBrowser.FindProfiles] *)
Definition Safari_FindProfiles (host : Host) (user : platform.User)
    : list Profile * option error :=
  match CurrentOS host with
  | platform.Darwin =>
      let historyPath := filepath_Join host (platform.HomeDir user) "Library/Safari/History.db" in
      if statNotExist host historyPath then ([], None)
      else ([{| Name := "Default";
                Path := filepath_Join host (platform.HomeDir user) "Library/Safari" |}], None)
  | _ => ([], None)
  end.

(** ** Reading the history *)

(** [ORDER BY key ASC] as a stable insertion sort; SQLite promises no
    particular order among rows with equal keys. *)
Fixpoint insertBy {R} (leb : R -> R -> bool) (x : R) (l : list R) : list R :=
  match l with
  | [] => [x]
  | y :: l' => if leb x y then x :: l else y :: insertBy leb x l'
  end.

Definition orderBy {R} (leb : R -> R -> bool) (l : list R) : list R :=
  fold_right (insertBy leb) [] l.

(** [SELECT ... WHERE key > ? ORDER BY key ASC] *)
Definition selectSince {R} (newer : R -> bool) (leb : R -> R -> bool)
    (rows : list R) : list R :=
  orderBy leb (List.filter newer rows).

(** The rows [rows.Next] delivers before it returns false. *)
Definition delivered {R} (result : list R) (rowsErr : option (nat * error)) : list R :=
  match rowsErr with
  | Some (n, _) => firstn n result
  | None => result
  end.

(** Chromium: microseconds since 1601-01-01. *)
Definition chromiumEpoch : Z := 11644473600 * 1000000.

(** The threshold handed to the query. *)
Definition chromiumTimestamp (sinceTimestamp : Z) : Z :=
  if sinceTimestamp >? 0
  then gonum.wrap64 (gonum.wrap64 (sinceTimestamp * 1000) + chromiumEpoch)
  else 0.

(** [(lastVisitTime - 11644473600*1000000) / 1000] *)
Definition chromium_unixMs (lastVisitTime : Z) : Z :=
  gonum.div (gonum.wrap64 (lastVisitTime - chromiumEpoch)) 1000.

(** The body of the loop over the rows: a row that [rows.Scan] rejects
    is skipped, the others are appended with their timestamp in Unix
    milliseconds. *)
Definition scanRow {R} (url_of : R -> option string) (unixMs : R -> Z)
    (sites : list VisitedSite) (row : R) : list VisitedSite :=
  match url_of row with
  | None => sites
  | Some u => sites ++ [{| URL := u; Timestamp := unixMs row |}]
  end.

(** What both adapters do with the store once the threshold is known:
    [(sites, err)]. *)
Definition readRows {R} (newer : R -> bool) (leb : R -> R -> bool)
    (url_of : R -> option string) (unixMs : R -> Z) (store : Store R)
    : list VisitedSite * option error :=
  match store with
  | Unavailable err => ([], Some err)
  | QueryFails err => ([], Some err)
  | Table rows rowsErr =>
      (fold_left (scanRow url_of unixMs)
                 (delivered (selectSince newer leb rows) rowsErr) [],
       option_map snd rowsErr)
  end.

(** [ChromiumBrowser.GetHistory] *)
Definition Chromium_GetHistory (host : Host) (profile : Profile) (sinceTimestamp : Z)
    : list VisitedSite * option error :=
  let historyPath := filepath_Join host (Path profile) "History" in
  let threshold := chromiumTimestamp sinceTimestamp in
  readRows (fun r => last_visit_time r >? threshold)
           (fun r1 r2 => last_visit_time r1 <=? last_visit_time r2)
           url (fun r => chromium_unixMs (last_visit_time r))
           (chromium_db host historyPath).

(** Safari: floating point seconds since 2001-01-01. *)
Definition safariEpoch : float := 978307200%float.

Definition safariTimestamp (sinceTimestamp : Z) : float :=
  if sinceTimestamp >? 0
  then PrimFloat.sub (PrimFloat.div (gonum.float64_of_int sinceTimestamp) 1000%float)
                     safariEpoch
  else 0%float.

(** [int64((visitTime + 978307200.0) * 1000)] *)
Definition safari_unixMs (visitTime : float) : Z :=
  gonum.int_of_float64 (PrimFloat.mul (PrimFloat.add visitTime safariEpoch) 1000%float).

(** [SafariBrowser.GetHistory] *)
Definition Safari_GetHistory (host : Host) (profile : Profile) (sinceTimestamp : Z)
    : list VisitedSite * option error :=
  let historyPath := filepath_Join host (Path profile) "History.db" in
  let threshold := safariTimestamp sinceTimestamp in
  readRows (fun r => PrimFloat.ltb threshold (visit_time r))
           (fun r1 r2 => PrimFloat.leb (visit_time r1) (visit_time r2))
           item_url (fun r => safari_unixMs (visit_time r))
           (safari_db host historyPath).

(** The [Browser] interface. *)
Record Browser := {
  Browser_Name : string;
  FindProfiles : Host -> platform.User -> list Profile * option error;
  GetHistory : Host -> Profile -> Z -> list VisitedSite * option error
}.

Definition Chromium (c : ChromiumBrowser) : Browser :=
  {| Browser_Name := name c;
     FindProfiles := fun host => Chromium_FindProfiles host c;
     GetHistory := Chromium_GetHistory |}.

Definition NewSafari : Browser :=
  {| Browser_Name := "safari";
     FindProfiles := Safari_FindProfiles;
     GetHistory := Safari_GetHistory |}.

Definition NewChrome : Browser :=
  Chromium {| name := "chrome";
              paths := {| Linux := ".config/google-chrome";
                          Darwin := "Library/Application Support/Google/Chrome";
                          Windows := "Google\Chrome\User Data";
                          WindowsAppData := false |};
              hasProfiles := true |}.

Definition NewEdge : Browser :=
  Chromium {| name := "edge";
              paths := {| Linux := ".config/microsoft-edge";
                          Darwin := "Library/Application Support/Microsoft Edge";
                          Windows := "Microsoft\Edge\User Data";
                          WindowsAppData := false |};
              hasProfiles := true |}.

Definition NewVivaldi : Browser :=
  Chromium {| name := "vivaldi";
              paths := {| Linux := ".config/vivaldi";
                          Darwin := "Library/Application Support/Vivaldi";
                          Windows := "Vivaldi\User Data";
                          WindowsAppData := false |};
              hasProfiles := true |}.

Definition NewOperaGX : Browser :=
  Chromium {| name := "opera-gx";
              paths := {| Linux := "";
                          Darwin := "Library/Application Support/com.operasoftware.OperaGX";
                          Windows := "Opera Software\Opera GX Stable";
                          WindowsAppData := true |};
              hasProfiles := false |}.

Definition NewOpera : Browser :=
  Chromium {| name := "opera";
              paths := {| Linux := ".config/opera";
                          Darwin := "Library/Application Support/com.operasoftware.Opera";
                          Windows := "Opera Software\Opera Stable";
                          WindowsAppData := true |};
              hasProfiles := false |}.

(** The sites the loop over the rows appends, as a function of the
    rows. *)
Definition sitesOf {R} (url_of : R -> option string) (unixMs : R -> Z)
    (rows : list R) : list VisitedSite :=
  flat_map (fun r => match url_of r with
                     | Some u => [{| URL := u; Timestamp := unixMs r |}]
                     | None => []
                     end) rows.

(** The values of [last_visit_time] for which the subtraction of the
    epoch stays within int64. *)
Definition chromiumRange (r : urlsRow) : Prop :=
  chromiumEpoch - 2 ^ 63 <= last_visit_time r < 2 ^ 63.

(** Visit times of magnitude at most 2^52 seconds.  They are finite, and
    [(visitTime + 978307200.0) * 1000] stays within the int64 range, where
    Go defines the conversion to [int64]. *)
Definition safariRange (visitTime : float) : bool :=
  PrimFloat.leb (-4503599627370496)%float visitTime
  && PrimFloat.leb visitTime 4503599627370496%float.


(** The order [leb] of the query and the timestamps [unixMs] agree on
    the rows of [l]. *)
Definition agrees {R} (leb : R -> R -> bool) (unixMs : R -> Z) (l : list R) : Prop :=
  forall x y, In x l -> In y l ->
    (leb x y = true -> unixMs x <= unixMs y)
    /\ (leb x y = false -> unixMs y <= unixMs x).

End browser.

(* ------------------------------------------------------------------ *)
(** * package scanner: the orchestrator *)

Module scanner.

Definition ExitSuccess : Z := 0.
Definition ExitPartialFailure : Z := 1.
Definition ExitCompleteFailure : Z := 2.

Record Config := { InitialDays : Z; Source : string }.

Record Scanner := {
  cfg : Config;
  client : sender.Client;
  dryRun : bool
}.

(** What the run reads from outside the process.  [horizon] is the
    value of [time.Now().AddDate(0, 0, -InitialDays).UnixMilli()] at the
    call of [scanProfile] for the given container. *)
Record Env := {
  host : Host;
  net : sender.Net;
  horizon : platform.User -> string -> browser.Profile -> Z;
  getLocalIP : string;
  json_MarshalIndent : dto.VisitedSitesDTO -> error + sender.bytes;
  GetAllUsers : error + list platform.User;
  All : list browser.Browser
}.

(** What the run changes: the watermark map of the state manager, the
    requests put on the wire, and standard output (dry run). *)
Record World := {
  data : gmap string Z;
  wire : list sender.Request;
  stdout : list sender.bytes
}.

(** The watermark [scanProfile] reads with: the stored one, or the
    look-back horizon when none is stored. *)
Definition lastTimestampFor (env : Env) (user : platform.User)
    (b : browser.Browser) (profile : browser.Profile) (w : World) : Z :=
  let stored := state.GetLastTimestamp (data w) (platform.Username user)
                  (browser.Browser_Name b) (browser.Name profile) in
  if stored =? 0 then horizon env user (browser.Browser_Name b) profile else stored.

(** The batch [scanProfile] builds from the entries read. *)
Definition payloadFor (env : Env) (s : Scanner) (user : platform.User)
    (entries : list dto.VisitedSite) : dto.VisitedSitesDTO :=
  let principal :=
    if browser.isEmpty (platform.Username user)
    then dto.NewIPPrincipal (getLocalIP env)
    else dto.NewUserPrincipal (platform.Username user) in
  {| dto.Principal := principal;
     dto.Source := Source (cfg s);
     dto.VisitedSites := entries |}.

(** [scanProfile]: returns [(sent, err)]. *)
Definition scanProfile (env : Env) (s : Scanner) (user : platform.User)
    (b : browser.Browser) (profile : browser.Profile) (w : World)
    : (Z * option error) * World :=
  let lastTimestamp := lastTimestampFor env user b profile w in
  match browser.GetHistory b (host env) profile lastTimestamp with
  | (_, Some err) => ((0, Some (wrapError "failed to get history" err)), w)
  | (entries, None) =>
      if negb (sender.nonEmpty entries) then ((0, None), w)
      else
        let payload := payloadFor env s user entries in
        if dryRun s then
          match json_MarshalIndent env payload with
          | inl err => ((0, Some (wrapError "failed to marshal JSON" err)), w)
          | inr out =>
              ((sender.lenSites entries, None),
               {| data := data w; wire := wire w; stdout := stdout w ++ [out] |})
          end
        else
          match sender.Send (net env) (client s) payload (wire w) with
          | ((_, _, Some err), wire1) =>
              ((0, Some (wrapError "failed to send" err)),
               {| data := data w; wire := wire1; stdout := stdout w |})
          | ((result, maxTimestamp, None), wire1) =>
              let data1 :=
                if maxTimestamp >? 0
                then state.SetLastTimestamp (data w) (platform.Username user)
                       (browser.Browser_Name b) (browser.Name profile) maxTimestamp
                else data w in
              ((sender.TotalSent result, None),
               {| data := data1; wire := wire1; stdout := stdout w |})
          end
  end.

Record ScanResult := {
  UsersScanned : Z;
  ProfilesScanned : Z;
  EntriesSent : Z;
  Errors : list (string * error);
  ExitCode : Z
}.

(** The variables of the loops of [Run].  [outcomes] is a history
    variable that the source does not have: what each call of
    [scanProfile] returned, in order. *)
Record runAcc := {
  usersScanned : Z;
  profilesScanned : Z;
  entriesSent : Z;
  errors : list (string * error);
  successCount : Z;
  failureCount : Z;
  world : World;
  outcomes : list (Z * option error)
}.

(** Body of the loop over the profiles of one browser. *)
Definition Run_profile (env : Env) (s : Scanner) (user : platform.User)
    (b : browser.Browser) (acc : runAcc) (profile : browser.Profile) : runAcc :=
  let (r, w1) := scanProfile env s user b profile (world acc) in
  match r with
  | (_, Some err) =>
      {| usersScanned := usersScanned acc;
         profilesScanned := profilesScanned acc + 1;
         entriesSent := entriesSent acc;
         errors := errors acc ++
           [(state.makeKey (platform.Username user) (browser.Browser_Name b)
               (browser.Name profile), err)];
         successCount := successCount acc;
         failureCount := failureCount acc + 1;
         world := w1;
         outcomes := outcomes acc ++ [r] |}
  | (sent, None) =>
      {| usersScanned := usersScanned acc;
         profilesScanned := profilesScanned acc + 1;
         entriesSent := entriesSent acc + sent;
         errors := errors acc;
         successCount := if sent >? 0 then successCount acc + 1 else successCount acc;
         failureCount := failureCount acc;
         world := w1;
         outcomes := outcomes acc ++ [r] |}
  end.

(** Body of the loop over the browsers for one user. *)
Definition Run_browser (env : Env) (s : Scanner) (user : platform.User)
    (acc : runAcc) (b : browser.Browser) : runAcc :=
  match browser.FindProfiles b (host env) user with
  | (_, Some _) => acc
  | (profiles, None) => fold_left (Run_profile env s user b) profiles acc
  end.

(** Body of the loop over the users. *)
Definition Run_user (env : Env) (s : Scanner) (acc : runAcc) (user : platform.User) : runAcc :=
  fold_left (Run_browser env s user) (All env)
    {| usersScanned := usersScanned acc + 1;
       profilesScanned := profilesScanned acc;
       entriesSent := entriesSent acc;
       errors := errors acc;
       successCount := successCount acc;
       failureCount := failureCount acc;
       world := world acc;
       outcomes := outcomes acc |}.

Definition startAcc (w : World) : runAcc :=
  {| usersScanned := 0; profilesScanned := 0; entriesSent := 0; errors := [];
     successCount := 0; failureCount := 0; world := w; outcomes := [] |}.

(** The exit code chosen from the two counters at the end of [Run]. *)
Definition exitCodeOf (successCount failureCount : Z) : Z :=
  if (successCount =? 0) && (failureCount >? 0) then ExitCompleteFailure
  else if failureCount >? 0 then ExitPartialFailure
  else ExitSuccess.

(** [Run], together with the history variable of its loops.  The
    logger and [s.state.Save] write outside the world modelled here. *)
Definition Run_traced (env : Env) (s : Scanner) (w : World)
    : ScanResult * World * list (Z * option error) :=
  match GetAllUsers env with
  | inl err =>
      ({| UsersScanned := 0; ProfilesScanned := 0; EntriesSent := 0;
          Errors := [("user enumeration failed"%string, err)];
          ExitCode := ExitCompleteFailure |}, w, [])
  | inr users =>
      if negb (sender.nonEmpty users) then
        ({| UsersScanned := 0; ProfilesScanned := 0; EntriesSent := 0;
            Errors := []; ExitCode := ExitCompleteFailure |}, w, [])
      else
        let acc := fold_left (Run_user env s) users (startAcc w) in
        ({| UsersScanned := usersScanned acc;
            ProfilesScanned := profilesScanned acc;
            EntriesSent := entriesSent acc;
            Errors := errors acc;
            ExitCode := exitCodeOf (successCount acc) (failureCount acc) |},
         world acc, outcomes acc)
  end.

(** [Run] *)
Definition Run (env : Env) (s : Scanner) (w : World) : ScanResult * World :=
  fst (Run_traced env s w).

(** How [Run] counts what a call of [scanProfile] returned: as a
    failure when it returned an error, as a success when it returned no
    error and a positive number of entries. *)
Definition isFailure (o : Z * option error) : bool :=
  match snd o with Some _ => true | None => false end.

Definition isSuccess (o : Z * option error) : bool :=
  match snd o with Some _ => false | None => fst o >? 0 end.

Definition countIf {A} (p : A -> bool) (l : list A) : Z :=
  Z.of_nat (length (List.filter p l)).

(** The counters of [Run] agree with the history of its calls. *)
Definition counted (acc : runAcc) : Prop :=
  successCount acc = countIf isSuccess (outcomes acc)
  /\ failureCount acc = countIf isFailure (outcomes acc).

End scanner.

(* ------------------------------------------------------------------ *)
(** * Concrete runs

    Hosts, endpoints and batches on which the code is evaluated below. *)

Module examples.
Import dto sender.

Definition site (u : string) (t : Z) : VisitedSite := {| URL := u; Timestamp := t |}.

(** A URL of [n] bytes. *)
Fixpoint longURL (n : nat) : string :=
  match n with
  | O => ""%string
  | S n' => String "a"%char (longURL n')
  end.

(** chunk_size_kb = 1 (the smallest the configuration accepts), no
    compression. *)
Definition client1K : Client := NewClient "https://collector.example/v1" "key" 1 false.

(** The same with compression. *)
Definition client1Kgz : Client := NewClient "https://collector.example/v1" "key" 1 true.

(** A stand-in for the JSON encoder: the URLs, one after the other. *)
Definition marshal (p : VisitedSitesDTO) : error + bytes :=
  inr (concat (map (fun s => String.list_byte_of_string (URL s)) (VisitedSites p))).

(** An endpoint that drops the first request and accepts the following
    ones. *)
Definition firstFails : Net :=
  {| json_Marshal := marshal;
     gzip_bytes := fun d => inr d;
     http_NewRequest_ok := fun _ => true;
     endpoint := fun log _ =>
       match log with
       | [] => DoError (errorString "connection reset")
       | _ => Status 200
       end |}.

(** An endpoint that accepts the first request and drops the following
    ones. *)
Definition firstOnly : Net :=
  {| json_Marshal := marshal;
     gzip_bytes := fun d => inr d;
     http_NewRequest_ok := fun _ => true;
     endpoint := fun log _ =>
       match log with
       | [] => Status 200
       | _ => DoError (errorString "connection reset")
       end |}.

(** An endpoint that cannot be reached. *)
Definition unreachable : Net :=
  {| json_Marshal := marshal;
     gzip_bytes := fun d => inr d;
     http_NewRequest_ok := fun _ => true;
     endpoint := fun _ _ => DoError (errorString "connection refused") |}.


(** Two records of 640 estimated bytes each: two chunks under a ceiling
    of 1024 bytes. *)
Definition early : VisitedSite := site (longURL 600) 1700000000000.
Definition late : VisitedSite := site (String "b"%char (longURL 599)) 1700000060000.

Definition batch2 : VisitedSitesDTO :=
  {| Principal := NewUserPrincipal "alice"; Source := "hist_scanner";
     VisitedSites := [early; late] |}.

(** Two records visited in the same millisecond. *)
Definition twin : VisitedSite := site (String "c"%char (longURL 599)) 1700000000000.

Definition batchTie : VisitedSitesDTO :=
  {| Principal := NewUserPrincipal "alice"; Source := "hist_scanner";
     VisitedSites := [early; twin] |}.

(** A Linux host with one user whose only browser data is an Opera
    history of the two records. *)
Definition alice : platform.User :=
  {| platform.Username := "alice"; platform.HomeDir := "/home/alice"; platform.UID := "1000" |}.

Definition join (a b : string) : string := String.append a (String.append "/" b).

Definition native (unixMs : Z) : Z := unixMs * 1000 + browser.chromiumEpoch.

Definition operaRows : list urlsRow :=
  [ {| url := Some (URL early); last_visit_time := native (Timestamp early) |};
    {| url := Some (URL late); last_visit_time := native (Timestamp late) |} ].

Definition linuxHost : Host :=
  {| CurrentOS := platform.Linux;
     os_Stat := fun path =>
       if String.eqb path "/home/alice/.config/opera" then StatOk
       else if String.eqb path "/home/alice/.config/opera/History" then StatOk
       else StatNotExist;
     os_ReadDir := fun _ => inl (errorString "no such directory");
     os_Getenv := fun _ => ""%string;
     filepath_Join := join;
     chromium_db := fun path =>
       if String.eqb path "/home/alice/.config/opera/History"
       then Table operaRows None
       else Unavailable (errorString "unable to open database file");
     safari_db := fun _ => Unavailable (errorString "unable to open database file") |}.

Definition theScanner : scanner.Scanner :=
  {| scanner.cfg := {| scanner.InitialDays := 7; scanner.Source := "hist_scanner" |};
     scanner.client := client1K;
     scanner.dryRun := false |}.

(** The run, with the browsers of [browser.All] whose source is at hand
    (all but Firefox). *)
Definition envWith (n : Net) : scanner.Env :=
  {| scanner.host := linuxHost;
     scanner.net := n;
     scanner.horizon := fun _ _ _ => 1699395200000;
     scanner.getLocalIP := "192.0.2.7/host";
     scanner.json_MarshalIndent := marshal;
     scanner.GetAllUsers := inr [alice];
     scanner.All := [browser.NewChrome; browser.NewEdge; browser.NewOpera;
                     browser.NewOperaGX; browser.NewVivaldi; browser.NewSafari] |}.

Definition freshWorld : scanner.World :=
  {| scanner.data := ∅; scanner.wire := []; scanner.stdout := [] |}.

Definition operaProfile : browser.Profile :=
  {| browser.Name := "Default"; browser.Path := "/home/alice/.config/opera" |}.

(** A history whose only row was visited 500 microseconds after the
    millisecond [watermark], and the same for Safari (0.4 ms after). *)
Definition watermark : Z := 1700000000000.

Definition boundaryRows : list urlsRow :=
  [ {| url := Some "https://example.org/"%string;
       last_visit_time := native watermark + 500 |} ].

Definition boundaryVisit : float := 0x1.5821440000d1bp+29%float.

Definition boundaryVisits : list visitRow :=
  [ {| item_url := Some "https://example.org/"%string; visit_time := boundaryVisit |} ].

(** A row dated one microsecond after 1601-01-01. *)
Definition ancientRows : list urlsRow :=
  [ {| url := Some "https://example.org/old"%string; last_visit_time := 1 |} ].

Definition hostWith (rows : list urlsRow) (visits : list visitRow) : Host :=
  {| CurrentOS := CurrentOS linuxHost;
     os_Stat := os_Stat linuxHost;
     os_ReadDir := os_ReadDir linuxHost;
     os_Getenv := os_Getenv linuxHost;
     filepath_Join := join;
     chromium_db := fun _ => Table rows None;
     safari_db := fun _ => Table visits None |}.

Definition safariProfile : browser.Profile :=
  {| browser.Name := "Default"; browser.Path := "/Users/bob/Library/Safari" |}.

(** A macOS host on which the scanner may not look into bob's Safari
    and Opera directories: [os.Stat] fails there with an error that is not
    "does not exist". *)
Definition bob : platform.User :=
  {| platform.Username := "bob"; platform.HomeDir := "/Users/bob"; platform.UID := "501" |}.

Definition macHost : Host :=
  {| CurrentOS := platform.Darwin;
     os_Stat := fun path =>
       if String.eqb path "/Users/bob/Library/Safari/History.db"
       then StatErr (errorString "operation not permitted")
       else if String.eqb path
                 "/Users/bob/Library/Application Support/com.operasoftware.Opera/History"
       then StatErr (errorString "operation not permitted")
       else if String.eqb path
                 "/Users/bob/Library/Application Support/com.operasoftware.Opera"
       then StatOk
       else StatNotExist;
     os_ReadDir := fun _ => inl (errorString "operation not permitted");
     os_Getenv := fun _ => ""%string;
     filepath_Join := join;
     chromium_db := fun _ => Unavailable (errorString "unable to open database file");
     safari_db := fun _ => Unavailable (errorString "unable to open database file") |}.

Definition operaBrowser : browser.ChromiumBrowser :=
  {| browser.name := "opera";
     browser.paths :=
       {| browser.Linux := ".config/opera";
          browser.Darwin := "Library/Application Support/com.operasoftware.Opera";
          browser.Windows := "Opera Software\Opera Stable";
          browser.WindowsAppData := true |};
     browser.hasProfiles := false |}.

(** A world in which alice's Opera history has been delivered. *)
Definition syncedWorld : scanner.World :=
  {| scanner.data := {[ "alice/opera/Default"%string := 1700000060000 ]};
     scanner.wire := []; scanner.stdout := [] |}.

(** A one-record batch. *)
Definition batch1 : VisitedSitesDTO :=
  {| Principal := NewUserPrincipal "alice"; Source := "hist_scanner";
     VisitedSites := [site "https://example.org/" 1700000000000] |}.

(** Three rows stored out of order, one of them older than [watermark],
    and the same for Safari. *)
Definition shuffledRows : list urlsRow :=
  [ {| url := Some "https://example.org/c"%string;
       last_visit_time := native (watermark + 2) |};
    {| url := Some "https://example.org/a"%string;
       last_visit_time := native (watermark - 5) |};
    {| url := Some "https://example.org/b"%string;
       last_visit_time := native (watermark + 1) + 250 |} ].

Definition shuffledVisits : list visitRow :=
  [ {| item_url := Some "https://example.org/c"%string; visit_time := 721692802.5%float |};
    {| item_url := Some "https://example.org/a"%string; visit_time := 721692700%float |};
    {| item_url := Some "https://example.org/b"%string;
       visit_time := 721692801.25%float |} ].

(** A watermark whose conversion to Chromium's encoding overflows int64
    (it comes out as [- 2 ^ 63 + 192]), and two rows, one of them so early
    that the subtraction of the epoch overflows. *)
Definition overflowingWatermark : Z := 9211727563254776.

Definition wrappingRows : list urlsRow :=
  [ {| url := Some "https://example.org/new"%string; last_visit_time := 1 |};
    {| url := Some "https://example.org/wrapped"%string;
       last_visit_time := - 2 ^ 63 + 1000 |} ].

End examples.

(* ------------------------------------------------------------------ *)
(** * package sender: the rest of the client *)

Module delivery.
Import dto sender.

(** [TestConnection]: one chunk with no site, sent as any other chunk. *)
Definition testPayload : VisitedSitesDTO :=
  {| Principal := {| Name := "test"; Kind := KindUsername |};
     VisitedSites := [];
     Source := "test" |}.

Definition TestConnection (net : Net) (c : Client) : Http (option error) :=
  r <- sendChunk net c testPayload ;;
  ret (snd r).

(** The headers [sendWithGzip] and [sendRaw] set on a request. *)
Definition wellFormed (c : Client) (req : Request) : Prop :=
  contentType req = "application/json"%string
  /\ authorization req = String.append "ProxyToken " (apiKey c)
  /\ (contentEncoding req = None
      \/ (contentEncoding req = Some "gzip"%string /\ compress c = true)).

(** A request that declares a content encoding. *)
Definition isEncoded (req : Request) : bool :=
  match contentEncoding req with Some _ => true | None => false end.

(** The number of chunks a history reports as confirmed. *)
Fixpoint confirmedChunks (outs : list (VisitedSitesDTO * option error)) : Z :=
  match outs with
  | [] => 0
  | (_, None) :: rest => 1 + confirmedChunks rest
  | (_, Some _) :: rest => confirmedChunks rest
  end.

End delivery.

(* ------------------------------------------------------------------ *)
(** * package state: keys *)

Module keys.

(** No byte of [s] is the separator of [makeKey]. *)
Fixpoint slashFree (s : string) : bool :=
  match s with
  | EmptyString => true
  | String ch rest => negb (Ascii.eqb ch "/"%char) && slashFree rest
  end.

End keys.

(* ------------------------------------------------------------------ *)
(** * package browser: the Firefox adapter and the list of browsers *)

Module firefox.
Import dto browser.

(** A row of [moz_places]; both columns may be NULL. *)
Record placesRow := { place_url : option string; last_visit_date : option Z }.

(** What the Firefox adapter reads beside the host: the places
    databases, the lines of a text file ([os.Open] may fail, and the line
    scanner may stop with an error after some lines), and two library
    functions taken as they are. *)
Record Files := {
  places_db : string -> Store placesRow;
  open_lines : string -> error + (list string * option error);
  strings_TrimSpace : string -> string;
  filepath_Base : string -> string
}.

(** [getProfilesDir] *)
Definition getProfilesDir (host : Host) (user : platform.User) : string :=
  let join := filepath_Join host in
  match CurrentOS host with
  | platform.Linux => join (platform.HomeDir user) ".mozilla/firefox"
  | platform.Darwin =>
      join (platform.HomeDir user) "Library/Application Support/Firefox/Profiles"
  | platform.Windows =>
      let appData := join (join (platform.HomeDir user) "AppData") "Roaming" in
      join (join (join appData "Mozilla") "Firefox") "Profiles"
  | platform.OtherOS => ""%string
  end.

(** The text before and after the first [sep] of [s], if there is one:
    [strings.SplitN(s, sep, 2)] with two parts, and [strings.Index]. *)
Fixpoint cutAt (sep : ascii) (s : string) : option (string * string) :=
  match s with
  | EmptyString => None
  | String ch rest =>
      if Ascii.eqb ch sep then Some (EmptyString, rest)
      else match cutAt sep rest with
           | Some (before, after) => Some (String ch before, after)
           | None => None
           end
  end.

(** [strings.HasSuffix(s, "]")] *)
Fixpoint endsWithBracket (s : string) : bool :=
  match s with
  | EmptyString => false
  | String ch EmptyString => Ascii.eqb ch "]"%char
  | String _ rest => endsWithBracket rest
  end.

(** The variables of the loop of [parseProfilesIni]. *)
Record iniState := {
  profiles : list Profile;
  cur_name : string;
  cur_path : string;
  cur_isRelative : bool;
  inProfile : bool
}.

(** "Save previous profile if valid": the profiles after the section
    held in [st] is closed. *)
Definition saveProfile (host : Host) (fx : Files) (profilesDir : string)
    (st : iniState) : list Profile :=
  if inProfile st && negb (isEmpty (cur_path st)) then
    let profilePath :=
      if cur_isRelative st then filepath_Join host profilesDir (cur_path st)
      else cur_path st in
    let placesPath := filepath_Join host profilePath "places.sqlite" in
    if statSucceeds host placesPath then
      let name := if isEmpty (cur_name st) then filepath_Base fx profilePath
                  else cur_name st in
      profiles st ++ [{| Name := name; Path := profilePath |}]
    else profiles st
  else profiles st.

(** One iteration of the loop over the lines of profiles.ini. *)
Definition ini_step (host : Host) (fx : Files) (profilesDir : string)
    (st : iniState) (text : string) : iniState :=
  let line := strings_TrimSpace fx text in
  if String.prefix "[" line && endsWithBracket line then
    let section := String.substring 1 (String.length line - 2) line in
    {| profiles := saveProfile host fx profilesDir st;
       cur_name := ""; cur_path := ""; cur_isRelative := false;
       inProfile := String.prefix "Profile" section |}
  else if negb (inProfile st) then st
  else
    match cutAt "="%char line with
    | None => st
    | Some (k, v) =>
        let key := strings_TrimSpace fx k in
        let value := strings_TrimSpace fx v in
        if String.eqb key "Name" then
          {| profiles := profiles st; cur_name := value; cur_path := cur_path st;
             cur_isRelative := cur_isRelative st; inProfile := inProfile st |}
        else if String.eqb key "Path" then
          {| profiles := profiles st; cur_name := cur_name st; cur_path := value;
             cur_isRelative := cur_isRelative st; inProfile := inProfile st |}
        else if String.eqb key "IsRelative" then
          {| profiles := profiles st; cur_name := cur_name st; cur_path := cur_path st;
             cur_isRelative := String.eqb value "1"; inProfile := inProfile st |}
        else st
    end.

(** [parseProfilesIni] *)
Definition parseProfilesIni (host : Host) (fx : Files) (iniPath profilesDir : string)
    : list Profile * option error :=
  match open_lines fx iniPath with
  | inl err => ([], Some err)
  | inr (lines, scanErr) =>
      let st := fold_left (ini_step host fx profilesDir) lines
                  {| profiles := []; cur_name := ""; cur_path := "";
                     cur_isRelative := false; inProfile := false |} in
      (saveProfile host fx profilesDir st, scanErr)
  end.

(** The name shown for a profile directory: what follows its first
    dot, or the whole name. *)
Definition displayName (name : string) : string :=
  match cutAt "."%char name with
  | Some (_, after) => after
  | None => name
  end.

(** One iteration of the loop of [scanForProfiles]. *)
Definition scan_step (host : Host) (profilesDir : string)
    (profiles : list Profile) (entry : DirEntry) : list Profile :=
  if negb (entryIsDir entry) then profiles
  else
    let name := entryName entry in
    let profilePath := filepath_Join host profilesDir name in
    let placesPath := filepath_Join host profilePath "places.sqlite" in
    if statSucceeds host placesPath
    then profiles ++ [{| Name := displayName name; Path := profilePath |}]
    else profiles.

(** [scanForProfiles] *)
Definition scanForProfiles (host : Host) (profilesDir : string)
    : list Profile * option error :=
  match os_ReadDir host profilesDir with
  | inl err => ([], Some err)
  | inr entries => (fold_left (scan_step host profilesDir) entries [], None)
  end.

(** [FirefoxBrowser.FindProfiles] *)
Definition Firefox_FindProfiles (fx : Files) (host : Host) (user : platform.User)
    : list Profile * option error :=
  let profilesDir := getProfilesDir host user in
  if isEmpty profilesDir then ([], None)
  else if statNotExist host profilesDir then ([], None)
  else
    let profilesIni := filepath_Join host profilesDir "profiles.ini" in
    match parseProfilesIni host fx profilesIni profilesDir with
    | (_, Some _) => scanForProfiles host profilesDir
    | (profiles, None) => (profiles, None)
    end.

(** Firefox: microseconds since the Unix epoch.  The threshold is
    [sinceTimestamp * 1000] in int64. *)
Definition firefoxTimestamp (sinceTimestamp : Z) : Z :=
  gonum.wrap64 (sinceTimestamp * 1000).

(** [last_visit_date > ? AND last_visit_date IS NOT NULL] *)
Definition firefox_newer (threshold : Z) (r : placesRow) : bool :=
  match last_visit_date r with
  | Some t => t >? threshold
  | None => false
  end.

(** [ORDER BY last_visit_date ASC]; SQLite puts NULL first. *)
Definition firefox_leb (r1 r2 : placesRow) : bool :=
  match last_visit_date r1, last_visit_date r2 with
  | Some a, Some b => a <=? b
  | None, _ => true
  | Some _, None => false
  end.

(** [lastVisitDate / 1000]; a NULL date does not pass [rows.Scan]. *)
Definition firefox_unixMs (lastVisitDate : Z) : Z := gonum.div lastVisitDate 1000.

Definition firefox_url (r : placesRow) : option string :=
  match last_visit_date r with
  | Some _ => place_url r
  | None => None
  end.

Definition firefox_ms (r : placesRow) : Z :=
  match last_visit_date r with
  | Some t => firefox_unixMs t
  | None => 0
  end.

(** [FirefoxBrowser.GetHistory] *)
Definition Firefox_GetHistory (fx : Files) (host : Host) (profile : Profile)
    (sinceTimestamp : Z) : list VisitedSite * option error :=
  let placesPath := filepath_Join host (Path profile) "places.sqlite" in
  let threshold := firefoxTimestamp sinceTimestamp in
  readRows (firefox_newer threshold) firefox_leb firefox_url firefox_ms
           (places_db fx placesPath).

(** [os.Stat] succeeded on the places file of every profile of [l]. *)
Definition placesSeen (host : Host) (l : list Profile) : Prop :=
  forall p, In p l ->
    os_Stat host (filepath_Join host (Path p) "places.sqlite") = StatOk.

Definition NewFirefox (fx : Files) : Browser :=
  {| Browser_Name := "firefox";
     FindProfiles := Firefox_FindProfiles fx;
     GetHistory := Firefox_GetHistory fx |}.

(** [All] *)
Definition All (fx : Files) : list Browser :=
  [NewChrome; NewEdge; NewOpera; NewOperaGX; NewVivaldi; NewFirefox fx; NewSafari].

(** [ByName]: the first browser of [All] with that name, or nil. *)
Definition ByName (fx : Files) (name : string) : option Browser :=
  List.find (fun b => String.eqb (Browser_Name b) name) (All fx).

(** [SupportedBrowserNames] *)
Definition SupportedBrowserNames (fx : Files) : list string :=
  map Browser_Name (All fx).

End firefox.

(* ------------------------------------------------------------------ *)
(** * package browser: the directory listing of a Chromium browser *)

Module chromium.
Import browser.

(** The entries of the base directory that [FindProfiles] keeps, and
    the profile it makes of one. *)
Definition keeps (host : Host) (baseDir : string) (entry : DirEntry) : bool :=
  entryIsDir entry
  && (String.eqb (entryName entry) "Default" || String.prefix "Profile " (entryName entry))
  && statSucceeds host
       (filepath_Join host (filepath_Join host baseDir (entryName entry)) "History").

Definition profileOf (host : Host) (baseDir : string) (entry : DirEntry) : Profile :=
  {| Name := entryName entry; Path := filepath_Join host baseDir (entryName entry) |}.

End chromium.

(* ------------------------------------------------------------------ *)
(** * The run, container by container *)

Module run.
Import scanner.

(** A container: a user, a browser and one of its profiles. *)
Definition Container : Type := platform.User * browser.Browser * browser.Profile.

(** The key under which [Run] reports and [scanProfile] stores. *)
Definition keyOf (c : Container) : string :=
  let '(user, b, profile) := c in
  state.makeKey (platform.Username user) (browser.Browser_Name b) (browser.Name profile).

(** The profiles the loop of [Run] visits for a user and a browser:
    those [FindProfiles] returns, none when it returns an error. *)
Definition found (env : Env) (user : platform.User) (b : browser.Browser)
    : list browser.Profile :=
  match browser.FindProfiles b (host env) user with
  | (_, Some _) => []
  | (profiles, None) => profiles
  end.

(** The containers of a run, in the order of its three loops. *)
Definition containers (env : Env) (users : list platform.User) : list Container :=
  List.flat_map (fun user =>
    List.flat_map (fun b => map (fun profile => (user, b, profile)) (found env user b))
      (All env)) users.

(** The entries of the calls that returned no error. *)
Definition sumSent (outs : list (Z * option error)) : Z :=
  fold_right (fun o acc => match snd o with None => fst o + acc | Some _ => acc end) 0 outs.

(** The errors of the calls that returned one, under their keys. *)
Definition errorsOf (cs : list Container) (outs : list (Z * option error))
    : list (string * error) :=
  List.flat_map (fun co =>
    match snd (snd co) with
    | Some err => [(keyOf (fst co), err)]
    | None => []
    end) (combine cs outs).

(** [scanProfile] called on each container in turn, each call in the
    world the call before it left: what the calls returned, in order, and
    the world after the last of them. *)
Fixpoint scans (env : Env) (s : Scanner) (cs : list Container) (w : World)
    : list (Z * option error) * World :=
  match cs with
  | [] => ([], w)
  | (user, b, profile) :: rest =>
      let (r, w1) := scanProfile env s user b profile w in
      let (rs, w2) := scans env s rest w1 in
      (r :: rs, w2)
  end.

(** The loops have made the calls [scans] makes on [cs], from the world
    of [acc0]. *)
Definition followed (env : Env) (s : Scanner) (acc0 acc : runAcc) (cs : list Container)
    : Prop :=
  outcomes acc = outcomes acc0 ++ fst (scans env s cs (world acc0))
  /\ world acc = snd (scans env s cs (world acc0)).

(** The counters of the loops of [Run] after the containers [cs]. *)
Definition tallied (acc : runAcc) (cs : list Container) : Prop :=
  length (outcomes acc) = length cs
  /\ profilesScanned acc = Z.of_nat (length cs)
  /\ entriesSent acc = sumSent (outcomes acc)
  /\ errors acc = errorsOf cs (outcomes acc)
  /\ Forall (fun o => 0 <= fst o /\ (snd o <> None -> fst o = 0)) (outcomes acc).

(** What the scans of the containers [cs] may have changed between the
    world [w0] and the world [w]. *)
Definition framed (s : Scanner) (w0 w : World) (cs : list Container) : Prop :=
  (exists new, wire w = wire w0 ++ new
     /\ Forall (delivery.wellFormed (client s)) new
     /\ (dryRun s = true -> new = []))
  /\ (exists out, stdout w = stdout w0 ++ out
        /\ (length out <= length cs)%nat
        /\ (dryRun s = false -> out = []))
  /\ (dryRun s = true -> data w = data w0)
  /\ (forall k, (forall c, In c cs -> keyOf c <> k) -> data w !! k = data w0 !! k)
  /\ (forall k, data w !! k = data w0 !! k
                \/ exists ts, 0 < ts /\ data w !! k = Some ts).

(** The state of the loops after the containers [cs], started in [w0]
    and with [n] users counted. *)
Definition after (s : Scanner) (w0 : World) (n : Z) (acc : runAcc) (cs : list Container)
    : Prop :=
  tallied acc cs /\ framed s w0 (world acc) cs /\ usersScanned acc = n.

End run.

(* ------------------------------------------------------------------ *)
(** * package config *)

Module config.

(** [time.Duration] is an int64 of nanoseconds. *)
Definition Second : Z := 1000000000.

Record Config := {
  ServerURL : string;
  APIKey : string;
  InitialDays : Z;
  Timeout : Z;
  ChunkSizeKB : Z;
  Compress : bool;
  StateFile : string;
  LogFile : string;
  Source : string;
  discoveredConfig : bool
}.

(** [DefaultConfig] *)
Definition DefaultConfig : Config :=
  {| ServerURL := ""; APIKey := "";
     InitialDays := 7;
     Timeout := 30 * Second;
     ChunkSizeKB := 1024;
     Compress := true;
     StateFile := ""; LogFile := "";
     Source := "hist_scanner";
     discoveredConfig := false |}.

(** [Validate] *)
Definition Validate (c : Config) : option error :=
  if browser.isEmpty (ServerURL c) then Some (errorString "server_url is required")
  else if browser.isEmpty (APIKey c) then Some (errorString "api_key is required")
  else if InitialDays c <? 0 then Some (errorString "initial_days must be >= 0")
  else if ChunkSizeKB c <=? 0 then Some (errorString "chunk_size_kb must be > 0")
  else if Timeout c <=? 0 then Some (errorString "timeout must be > 0")
  else None.

(** The arguments of [ApplyFlags], in its order. *)
Record Flags := {
  serverURL : string;
  apiKey : string;
  stateFile : string;
  logFile : string;
  initialDays : Z;
  chunkSizeKB : Z;
  compress : bool;
  compressSet : bool;
  timeout : Z
}.

(** [ApplyFlags] *)
Definition ApplyFlags (c : Config) (f : Flags) : Config :=
  {| ServerURL := if negb (browser.isEmpty (serverURL f)) then serverURL f else ServerURL c;
     APIKey := if negb (browser.isEmpty (apiKey f)) then apiKey f else APIKey c;
     InitialDays := if initialDays f >? 0 then initialDays f else InitialDays c;
     Timeout := if timeout f >? 0 then timeout f else Timeout c;
     ChunkSizeKB := if chunkSizeKB f >? 0 then chunkSizeKB f else ChunkSizeKB c;
     Compress := if compressSet f then compress f else Compress c;
     StateFile := if negb (browser.isEmpty (stateFile f)) then stateFile f else StateFile c;
     LogFile := if negb (browser.isEmpty (logFile f)) then logFile f else LogFile c;
     Source := Source c;
     discoveredConfig := discoveredConfig c |}.

(** The client [scanner.New] builds from the configuration when the run
    is not a dry run. *)
Definition clientOf (c : Config) : sender.Client :=
  sender.NewClient (ServerURL c) (APIKey c) (ChunkSizeKB c) (Compress c).

End config.

(* ------------------------------------------------------------------ *)
(** * package state: the state file *)

Module statefile.

(** [os.ReadFile]: the error [os.IsNotExist] recognises, another error,
    or the content. *)
Inductive ReadResult :=
| ReadNotExist
| ReadErr (err : error)
| ReadOk (content : sender.bytes).

(** What the package asks of the operating system and of
    encoding/json.  [os_Stat_ok path] is [os.Stat(path)] returning a nil
    error; [json_Unmarshal] receives the map it decodes into and returns
    what it left there. *)
Record Disk := {
  CurrentOS : platform.OS;
  os_Stat_ok : string -> bool;
  os_ReadFile : string -> ReadResult;
  os_MkdirAll : string -> option error;
  os_WriteFile : string -> sender.bytes -> option error;
  os_Create_ok : string -> bool;
  os_Getuid : Z;
  os_UserHomeDir : string;
  os_Getenv : string -> string;
  os_TempDir : string;
  filepath_Join : string -> string -> string;
  filepath_Dir : string -> string;
  json_Unmarshal : sender.bytes -> gmap string Z -> option error * gmap string Z;
  json_MarshalIndent : gmap string Z -> error + sender.bytes
}.

(** The calls that change the file system, in the order they are made. *)
Inductive Call :=
| MkdirAll (dir : string)
| Create (path : string)
| Remove (path : string)
| WriteFile (path : string) (content : sender.bytes).

Record Manager := {
  stateFile : string;
  data : gmap string Z
}.

(** [NewManager] *)
Definition NewManager (path : string) : Manager :=
  {| stateFile := path; data := ∅ |}.

(** [getCentralStatePath] *)
Definition getCentralStatePath (disk : Disk) : string :=
  match CurrentOS disk with
  | platform.Linux =>
      if os_Getuid disk =? 0 then "/var/lib/hist_scanner/state.json"%string
      else if negb (browser.isEmpty (os_UserHomeDir disk))
           then filepath_Join disk (os_UserHomeDir disk) ".config/hist_scanner/state.json"
           else ""%string
  | platform.Windows =>
      let programData :=
        if browser.isEmpty (os_Getenv disk "PROGRAMDATA") then "C:\ProgramData"%string
        else os_Getenv disk "PROGRAMDATA" in
      filepath_Join disk (filepath_Join disk programData "hist_scanner") "state.json"
  | platform.Darwin =>
      if negb (browser.isEmpty (os_UserHomeDir disk))
      then filepath_Join disk (os_UserHomeDir disk)
             "Library/Application Support/hist_scanner/state.json"
      else ""%string
  | platform.OtherOS => ""%string
  end.

(** [getTempStatePath] *)
Definition getTempStatePath (disk : Disk) : string :=
  filepath_Join disk (os_TempDir disk) "hist_scanner_state.json".

(** [canWrite] *)
Definition canWrite (disk : Disk) (dir : string) : bool * list Call :=
  match os_MkdirAll disk dir with
  | Some _ => (false, [MkdirAll dir])
  | None =>
      let testFile := filepath_Join disk dir ".write_test" in
      if os_Create_ok disk testFile
      then (true, [MkdirAll dir; Create testFile; Remove testFile])
      else (false, [MkdirAll dir; Create testFile])
  end.

(** [resolveStatePath] *)
Definition resolveStatePath (disk : Disk) (m : Manager) : string :=
  if negb (browser.isEmpty (stateFile m)) && os_Stat_ok disk (stateFile m)
  then stateFile m
  else
    let centralPath := getCentralStatePath disk in
    if negb (browser.isEmpty centralPath) && os_Stat_ok disk centralPath
    then centralPath
    else
      let tempPath := getTempStatePath disk in
      if os_Stat_ok disk tempPath then tempPath else ""%string.

(** [findWritablePath] *)
Definition findWritablePath (disk : Disk) (m : Manager) : string * list Call :=
  if negb (browser.isEmpty (stateFile m)) then (stateFile m, [])
  else
    let centralPath := getCentralStatePath disk in
    if negb (browser.isEmpty centralPath) then
      let (ok, calls) := canWrite disk (filepath_Dir disk centralPath) in
      if ok then (centralPath, calls) else (getTempStatePath disk, calls)
    else (getTempStatePath disk, []).

(** [Load] *)
Definition Load (disk : Disk) (m : Manager) : option error * Manager :=
  let path := resolveStatePath disk m in
  if browser.isEmpty path then (None, m)
  else
    match os_ReadFile disk path with
    | ReadNotExist => (None, m)
    | ReadErr err => (Some (wrapError "failed to read state file" err), m)
    | ReadOk content =>
        match json_Unmarshal disk content (data m) with
        | (Some err, data1) =>
            (Some (wrapError "failed to parse state file" err),
             {| stateFile := stateFile m; data := data1 |})
        | (None, data1) => (None, {| stateFile := path; data := data1 |})
        end
    end.

(** The body of [Save] once the path is known. *)
Definition writeState (disk : Disk) (m : Manager) (path : string) (calls : list Call)
    : option error * Manager * list Call :=
  match json_MarshalIndent disk (data m) with
  | inl err => (Some (wrapError "failed to marshal state" err), m, calls)
  | inr content =>
      let dir := filepath_Dir disk path in
      match os_MkdirAll disk dir with
      | Some err =>
          (Some (wrapError "failed to create state directory" err), m,
           calls ++ [MkdirAll dir])
      | None =>
          match os_WriteFile disk path content with
          | Some err =>
              (Some (wrapError "failed to write state file" err), m,
               calls ++ [MkdirAll dir; WriteFile path content])
          | None => (None, m, calls ++ [MkdirAll dir; WriteFile path content])
          end
      end
  end.

(** [Save] *)
Definition Save (disk : Disk) (m : Manager) : option error * Manager * list Call :=
  if browser.isEmpty (stateFile m) then
    let (path, calls) := findWritablePath disk m in
    if browser.isEmpty path then (None, m, calls)
    else writeState disk {| stateFile := path; data := data m |} path calls
  else writeState disk m (stateFile m) [].

(** The writes among the calls. *)
Definition writes (calls : list Call) : list (string * sender.bytes) :=
  List.flat_map (fun c => match c with WriteFile p d => [(p, d)] | _ => [] end) calls.

End statefile.

(* ------------------------------------------------------------------ *)
(** * package db: opening a history database *)

Module db.

(** What the package asks of the SQLite driver and of the operating
    system.  [openWithWAL path] is the error of [sql.Open] and [Ping] on
    the path, [os_CreateTemp pattern] the name of the file created. *)
Record Sys := {
  openWithWAL : string -> option error;
  filepath_Ext : string -> string;
  os_CreateTemp : string -> error + string;
  os_Open : string -> option error;
  os_Create : string -> option error;
  io_Copy : string -> string -> option error
}.

(** The files of the temporary directory. *)
Definition Files := gset string.

Record DB := {
  path : string;
  tempCopy : string
}.

(** [copyIfExists] *)
Definition copyIfExists (sys : Sys) (src dst : string) (fs : Files) : Files :=
  match os_Open sys src with
  | Some _ => fs
  | None =>
      match os_Create sys dst with
      | Some _ => fs
      | None => {[ dst ]} ∪ fs
      end
  end.

(** [copyToTemp] *)
Definition copyToTemp (sys : Sys) (dbPath : string) (fs : Files) : (error + string) * Files :=
  let ext := if browser.isEmpty (filepath_Ext sys dbPath) then ".db"%string
             else filepath_Ext sys dbPath in
  match os_CreateTemp sys (String.append "hist_scanner_*" ext) with
  | inl err => (inl (wrapError "failed to create temp file" err), fs)
  | inr tempPath =>
      let fs1 := {[ tempPath ]} ∪ fs in
      match os_Open sys dbPath with
      | Some err => (inl (wrapError "failed to open source" err), fs1 ∖ {[ tempPath ]})
      | None =>
          match io_Copy sys dbPath tempPath with
          | Some err => (inl (wrapError "failed to copy" err), fs1 ∖ {[ tempPath ]})
          | None =>
              let fs2 := copyIfExists sys (String.append dbPath "-wal")
                           (String.append tempPath "-wal") fs1 in
              let fs3 := copyIfExists sys (String.append dbPath "-shm")
                           (String.append tempPath "-shm") fs2 in
              (inr tempPath, fs3)
          end
      end
  end.

(** [Open] *)
Definition Open (sys : Sys) (dbPath : string) (fs : Files) : (error + DB) * Files :=
  match openWithWAL sys dbPath with
  | None => (inr {| path := dbPath; tempCopy := "" |}, fs)
  | Some _ =>
      match copyToTemp sys dbPath fs with
      | (inl err, fs1) => (inl (wrapError "failed to copy database to temp" err), fs1)
      | (inr tempPath, fs1) =>
          match openWithWAL sys tempPath with
          | Some err => (inl (wrapError "failed to open temp copy" err), fs1 ∖ {[ tempPath ]})
          | None => (inr {| path := dbPath; tempCopy := tempPath |}, fs1)
          end
      end
  end.

(** [Close]: what it removes; its result is that of the driver. *)
Definition Close (d : DB) (fs : Files) : Files :=
  if negb (browser.isEmpty (tempCopy d))
  then fs ∖ {[ tempCopy d ]} ∖ {[ String.append (tempCopy d) "-wal" ]}
          ∖ {[ String.append (tempCopy d) "-shm" ]}
  else fs.

(** [IsTempCopy] *)
Definition IsTempCopy (d : DB) : bool := negb (browser.isEmpty (tempCopy d)).

(** The name is not empty, and neither it nor its two side files are
    among the files. *)
Definition fresh (t : string) (fs : Files) : Prop :=
  t <> ""%string /\ (t ∉ fs)
  /\ (String.append t "-wal" ∉ fs) /\ (String.append t "-shm" ∉ fs).

(** The pattern [copyToTemp] gives to [os.CreateTemp]. *)
Definition pattern (sys : Sys) (dbPath : string) : string :=
  String.append "hist_scanner_*"
    (if browser.isEmpty (filepath_Ext sys dbPath) then ".db"%string
     else filepath_Ext sys dbPath).

End db.

(* ------------------------------------------------------------------ *)
(** * Further sample runs *)

Module samples.
Import dto sender.

(** The encoder of [examples.marshal]. *)
Definition enc (p : VisitedSitesDTO) : bytes :=
  concat (map (fun s => String.list_byte_of_string (URL s)) (VisitedSites p)).

(** An endpoint that accepts every request; its gzip doubles the data. *)
Definition accepting : Net :=
  {| json_Marshal := examples.marshal;
     gzip_bytes := fun d => inr (d ++ d);
     http_NewRequest_ok := fun _ => true;
     endpoint := fun _ _ => Status 200 |}.

(** Four records of 640 estimated bytes each. *)
Definition four : list VisitedSite :=
  [ examples.site (examples.longURL 600) 1; examples.site (examples.longURL 600) 2;
    examples.site (examples.longURL 600) 3; examples.site (examples.longURL 600) 4 ].

Definition batch4 : VisitedSitesDTO :=
  {| Principal := NewUserPrincipal "alice"; Source := "hist_scanner";
     VisitedSites := four |}.

(** Chrome as [NewChrome] builds it. *)
Definition chrome : browser.ChromiumBrowser :=
  {| browser.name := "chrome";
     browser.paths :=
       {| browser.Linux := ".config/google-chrome";
          browser.Darwin := "Library/Application Support/Google/Chrome";
          browser.Windows := "Google\Chrome\User Data";
          browser.WindowsAppData := false |};
     browser.hasProfiles := true |}.

(** A Linux host on which alice has two Chrome profiles, beside a
    directory and a file that are none, and a Firefox profile. *)
Definition isAmong (paths : list string) (path : string) : bool :=
  existsb (String.eqb path) paths.

Definition deskHost : Host :=
  {| CurrentOS := platform.Linux;
     os_Stat := fun path =>
       if isAmong [ "/home/alice/.config/google-chrome";
                    "/home/alice/.config/google-chrome/Default/History";
                    "/home/alice/.config/google-chrome/Profile 1/History";
                    "/home/alice/.mozilla/firefox";
                    "/home/alice/.mozilla/firefox/k3x9.default/places.sqlite" ] path
       then StatOk else StatNotExist;
     os_ReadDir := fun path =>
       if String.eqb path "/home/alice/.config/google-chrome" then
         inr [ {| entryName := "Crashpad"; entryIsDir := true |};
               {| entryName := "Default"; entryIsDir := true |};
               {| entryName := "Local State"; entryIsDir := false |};
               {| entryName := "Profile 1"; entryIsDir := true |};
               {| entryName := "Profile 2"; entryIsDir := true |} ]
       else if String.eqb path "/home/alice/.mozilla/firefox" then
         inr [ {| entryName := "k3x9.default"; entryIsDir := true |};
               {| entryName := "profiles.ini"; entryIsDir := false |} ]
       else inl (errorString "no such directory");
     os_Getenv := fun _ => ""%string;
     filepath_Join := examples.join;
     chromium_db := fun _ => Table examples.operaRows None;
     safari_db := fun _ => Unavailable (errorString "unable to open database file") |}.

(** Firefox's files on that host: a profiles.ini with one profile, whose
    places database holds two pages and one never visited.  The lines carry
    no blank at either end. *)
Definition placesRows : list firefox.placesRow :=
  [ {| firefox.place_url := Some "https://example.org/b"%string;
       firefox.last_visit_date := Some 1700000060000999 |};
    {| firefox.place_url := Some "https://example.org/never"%string;
       firefox.last_visit_date := None |};
    {| firefox.place_url := Some "https://example.org/a"%string;
       firefox.last_visit_date := Some 1700000000000001 |} ].

Definition iniLines : list string :=
  [ "[General]"; "StartWithLastProfile=1"; "";
    "[Profile0]"; "Name=default"; "IsRelative=1"; "Path=k3x9.default"; "";
    "[Profile1]"; "Name=gone"; "IsRelative=1"; "Path=r7.gone" ]%string.

Definition fxFiles (ini : error + (list string * option error)) : firefox.Files :=
  {| firefox.places_db := fun path =>
       if String.eqb path "/home/alice/.mozilla/firefox/k3x9.default/places.sqlite"
       then Table placesRows None
       else Unavailable (errorString "unable to open database file");
     firefox.open_lines := fun path =>
       if String.eqb path "/home/alice/.mozilla/firefox/profiles.ini" then ini
       else inl (errorString "no such file");
     firefox.strings_TrimSpace := fun str => str;
     firefox.filepath_Base := fun str => str |}.

Definition fxProfile : browser.Profile :=
  {| browser.Name := "default";
     browser.Path := "/home/alice/.mozilla/firefox/k3x9.default" |}.

(** What precedes the last slash of a path. *)
Fixpoint dirOf (path : string) : string :=
  match path with
  | EmptyString => EmptyString
  | String ch rest =>
      if keys.slashFree rest then EmptyString else String ch (dirOf rest)
  end.

(** A state directory in which only the temporary state file exists,
    while the configuration names another file. *)
Definition tempState : string := "/tmp/hist_scanner_state.json".
Definition configuredState : string := "/var/lib/scanner/state.json".

Definition disk : statefile.Disk :=
  {| statefile.CurrentOS := platform.Linux;
     statefile.os_Stat_ok := fun path => String.eqb path tempState;
     statefile.os_ReadFile := fun path =>
       if String.eqb path tempState then statefile.ReadOk [] else statefile.ReadNotExist;
     statefile.os_MkdirAll := fun _ => None;
     statefile.os_WriteFile := fun _ _ => None;
     statefile.os_Create_ok := fun _ => true;
     statefile.os_Getuid := 1000;
     statefile.os_UserHomeDir := "/home/alice";
     statefile.os_Getenv := fun _ => ""%string;
     statefile.os_TempDir := "/tmp";
     statefile.filepath_Join := examples.join;
     statefile.filepath_Dir := dirOf;
     statefile.json_Unmarshal := fun _ d =>
       (None, <[ "alice/opera/Default"%string := 1700000060000 ]> d);
     statefile.json_MarshalIndent := fun _ => inr [] |}.

(** A history database that is locked, and whose copy SQLite refuses. *)
Definition lockedHistory : string := "/home/alice/.config/opera/History".
Definition tempName : string := "/tmp/hist_scanner_4821".

Definition lockedSys (copyOpens : bool) : db.Sys :=
  {| db.openWithWAL := fun path =>
       if String.eqb path lockedHistory then Some (errorString "database is locked")
       else if copyOpens then None else Some (errorString "file is not a database");
     db.filepath_Ext := fun _ => ""%string;
     db.os_CreateTemp := fun _ => inr tempName;
     db.os_Open := fun _ => None;
     db.os_Create := fun _ => None;
     db.io_Copy := fun _ _ => None |}.

(** Flags that give only the server and the key. *)
Definition flags : config.Flags :=
  {| config.serverURL := "https://collector.example/v1";
     config.apiKey := "key";
     config.stateFile := ""; config.logFile := "";
     config.initialDays := 0; config.chunkSizeKB := 0;
     config.compress := false; config.compressSet := false;
     config.timeout := 0 |}.

End samples.

(* ------------------------------------------------------------------ *)
(** * binary64 values as real numbers

    The real value of a [float] and the relation between a real number
    and its rounding to nearest, ties to even.  [SpecFloat] is the
    specification the kernel's floats are given by [FloatAxioms]; the
    definitions here say what its mantissas, exponents and locations
    mean. *)

Module binary64.
Import SpecFloat.
Local Open Scope R_scope.

(** Powers of two. *)
Definition bpow (e : Z) : R := powerRZ 2 e.

(** [locates m l e x]: the real [x] lies in the slice
    [[m * 2^e, (m+1) * 2^e)], at the place [l] says: on its lower end,
    below, at or above its middle.  This is what the pair of a mantissa
    and a [location] means in [SpecFloat]. *)
Definition locates (m : Z) (l : location) (e : Z) (x : R) : Prop :=
  match l with
  | loc_Exact => x = IZR m * bpow e
  | loc_Inexact Lt => IZR m * bpow e < x < (IZR m + / 2) * bpow e
  | loc_Inexact Eq => x = (IZR m + / 2) * bpow e
  | loc_Inexact Gt => (IZR m + / 2) * bpow e < x < (IZR m + 1) * bpow e
  end.

(** The exponent of the binary64 values of magnitude [2^(e-1) .. 2^e]. *)
Definition fexp64 (e : Z) : Z := fexp 53 1024 e.

(** [rounded x v]: [v] is the positive real [x] rounded to nearest, ties
    to even, at the exponent binary64 has for the magnitude of [x]. *)
Definition rounded (x v : R) : Prop :=
  exists mag q l,
    bpow (mag - 1) <= x < bpow mag
    /\ (0 <= q)%Z
    /\ locates q l (fexp64 mag) x
    /\ v = IZR (round_nearest_even q l) * bpow (fexp64 mag).

(** The real value of a floating-point datum (0 for NaN and infinities). *)
Definition SF2R (f : spec_float) : R :=
  match f with
  | S754_finite s m e => IZR (cond_Zopp s (Zpos m)) * bpow e
  | _ => 0
  end.

Definition SFfinite (f : spec_float) : bool :=
  match f with
  | S754_finite _ _ _ | S754_zero _ => true
  | _ => false
  end.

Definition sgn (s : bool) (v : R) : R := if s then - v else v.

(** [Rnd x v]: [v] is the real [x] rounded to binary64. *)
Definition Rnd (x v : R) : Prop :=
  (x = 0 /\ v = 0) \/ (0 < x /\ rounded x v) \/ (x < 0 /\ rounded (- x) (- v)).

(** The data that are binary64 values: the mantissa is canonical. *)
Definition SFvalid (f : spec_float) : Prop := valid_binary 53 1024 f = true.

Definition SFexp (f : spec_float) : Z :=
  match f with S754_finite _ _ e => e | _ => 0%Z end.

(** Truncation toward zero, as [gonum.int_of_float64] does it. *)
Definition SFtrunc (f : spec_float) : Z :=
  match f with
  | S754_finite s m e =>
      let mag := if (0 <=? e)%Z then (Z.pos m * 2 ^ e)%Z else (Z.pos m / 2 ^ (- e))%Z in
      if s then (- mag)%Z else mag
  | _ => 0%Z
  end.

(** The real value of a [float], and whether it is finite. *)
Definition B2R (f : float) : R := SF2R (Prim2SF f).

Definition finite64 (f : float) : bool := SFfinite (Prim2SF f).

End binary64.

(* ================================================================== *)
(** * Properties *)

(** ** Chunking *)

Section Chunking.
Import dto sender.

Variable c : Client.
Variable payload : VisitedSitesDTO.

Lemma sizeOf_app (l1 l2 : list VisitedSite) :
  sizeOf (l1 ++ l2) = sizeOf l1 + sizeOf l2.
Proof.
  induction l1 as [|s l1 IH]; simpl; [reflexivity|].
  rewrite IH. lia.
Qed.

Lemma sizeOf_nonneg (l : list VisitedSite) : 0 <= sizeOf l.
Proof.
  induction l as [|s l IH]; simpl; [lia|].
  unfold entrySize. lia.
Qed.

Lemma nonEmpty_true {A} (l : list A) : nonEmpty l = true <-> l <> [].
Proof. destruct l; simpl; split; congruence. Qed.

Lemma fold_step_chunkFrom (l : list VisitedSite) : forall acc,
  currentSize acc = sizeOf (currentSites acc) ->
  map VisitedSites (pending payload (fold_left (buildChunks_step c payload) l acc))
  = map VisitedSites (chunks acc) ++ chunkFrom c (currentSites acc) l.
Proof.
  induction l as [|site l IH]; intros acc Hsize; simpl.
  - unfold pending. destruct (nonEmpty (currentSites acc)).
    + rewrite map_app. reflexivity.
    + rewrite app_nil_r. reflexivity.
  - unfold buildChunks_step at 2, mustSeal, projected.
    rewrite <- Hsize.
    destruct (nonEmpty (currentSites acc)
              && (estimatedCompressedSize c (currentSize acc) + entrySize site
                  >? maxChunkSize c)) eqn:Hseal.
    + rewrite IH; simpl.
      * rewrite map_app. simpl. rewrite <- app_assoc. reflexivity.
      * lia.
    + rewrite IH; simpl.
      * reflexivity.
      * rewrite sizeOf_app. simpl. lia.
Qed.

Lemma fold_step_tags (l : list VisitedSite) : forall acc,
  Forall (fun ch => Principal ch = Principal payload /\ Source ch = Source payload)
         (chunks acc) ->
  Forall (fun ch => Principal ch = Principal payload /\ Source ch = Source payload)
         (pending payload (fold_left (buildChunks_step c payload) l acc)).
Proof.
  induction l as [|site l IH]; intros acc Hacc; simpl.
  - unfold pending. destruct (nonEmpty (currentSites acc)); [|exact Hacc].
    apply Forall_app. split; [exact Hacc|]. constructor; [|constructor].
    split; reflexivity.
  - apply IH. unfold buildChunks_step.
    destruct (mustSeal c acc site); simpl; [|exact Hacc].
    apply Forall_app. split; [exact Hacc|]. constructor; [|constructor].
    split; reflexivity.
Qed.

Lemma buildChunks_runs :
  map VisitedSites (buildChunks c payload) = chunkFrom c [] (VisitedSites payload).
Proof.
  unfold buildChunks.
  change (map VisitedSites
            (pending payload (fold_left (buildChunks_step c payload) (VisitedSites payload)
                        {| chunks := []; currentSites := []; currentSize := 0 |}))
          = chunkFrom c [] (VisitedSites payload)).
  rewrite fold_step_chunkFrom; reflexivity.
Qed.

Lemma chunkFrom_concat (l : list VisitedSite) : forall cur,
  concat (chunkFrom c cur l) = cur ++ l.
Proof.
  induction l as [|site l IH]; intros cur; simpl.
  - destruct cur; simpl; rewrite ?app_nil_r; reflexivity.
  - destruct (nonEmpty cur && (projected c cur site >? maxChunkSize c)); simpl.
    + rewrite IH. reflexivity.
    + rewrite IH, <- app_assoc. reflexivity.
Qed.

Lemma chunkFrom_nonempty (l : list VisitedSite) : forall cur,
  Forall (fun ch => ch <> []) (chunkFrom c cur l).
Proof.
  induction l as [|site l IH]; intros cur; simpl.
  - destruct cur; simpl; constructor; [discriminate|constructor].
  - destruct (nonEmpty cur && (projected c cur site >? maxChunkSize c)) eqn:H.
    + constructor; [|apply IH].
      apply andb_true_iff in H. apply nonEmpty_true, H.
    + apply IH.
Qed.

(** With a current chunk in hand, the first run emitted extends it. *)
Lemma chunkFrom_head (l : list VisitedSite) : forall cur,
  cur <> [] -> exists more rest, chunkFrom c cur l = (cur ++ more) :: rest.
Proof.
  induction l as [|site l IH]; intros cur Hcur; simpl.
  - destruct cur; [congruence|]. exists [], []. rewrite app_nil_r. reflexivity.
  - destruct (nonEmpty cur && (projected c cur site >? maxChunkSize c)).
    + exists [], (chunkFrom c [site] l). rewrite app_nil_r. reflexivity.
    + destruct (IH (cur ++ [site])) as (more & rest & E).
      { destruct cur; discriminate. }
      exists (site :: more), rest. rewrite E, <- app_assoc. reflexivity.
Qed.

Lemma snoc_split {A} (cur pre post : list A) (x r : A) :
  cur ++ [x] = pre ++ r :: post ->
  (post = [] /\ pre = cur /\ r = x) \/
  (exists post', post = post' ++ [x] /\ cur = pre ++ r :: post').
Proof.
  intros E. destruct (rev post) as [|y rp] eqn:Hr.
  - left. apply (f_equal (@rev A)) in Hr. rewrite rev_involutive in Hr. simpl in Hr.
    subst post. change (pre ++ [r]) with (pre ++ [r]) in E.
    apply app_inj_tail in E. destruct E; subst; auto.
  - right. apply (f_equal (@rev A)) in Hr. rewrite rev_involutive in Hr. simpl in Hr.
    subst post. exists (rev rp).
    change (pre ++ r :: rev rp ++ [y]) with (pre ++ (r :: rev rp) ++ [y]) in E.
    rewrite app_assoc in E. apply app_inj_tail in E. destruct E; subst; auto.
Qed.

Lemma chunkFrom_fits (l : list VisitedSite) : forall cur,
  fits c cur -> Forall (fits c) (chunkFrom c cur l).
Proof.
  induction l as [|site l IH]; intros cur Hcur; simpl.
  - destruct (nonEmpty cur); constructor; [exact Hcur|constructor].
  - destruct (nonEmpty cur && (projected c cur site >? maxChunkSize c)) eqn:H.
    + constructor; [exact Hcur|]. apply IH.
      intros pre r post E Hpre. destruct pre as [|p pre]; [congruence|].
      destruct pre; discriminate.
    + apply IH. intros pre r post E Hpre.
      apply snoc_split in E. destruct E as [(-> & -> & ->)|(post' & -> & ->)].
      * apply andb_false_iff in H. destruct H as [H|H].
        -- apply nonEmpty_true in Hpre. congruence.
        -- lia.
      * eapply Hcur; eauto.
Qed.

(** Between two consecutive runs the test fired. *)
Lemma chunkFrom_boundary (l : list VisitedSite) : forall cur before A B after,
  chunkFrom c cur l = before ++ A :: B :: after ->
  exists r rest, B = r :: rest /\ A <> [] /\ projected c A r > maxChunkSize c.
Proof.
  induction l as [|site l IH]; intros cur before A B after E; simpl in E.
  - destruct (nonEmpty cur); destruct before as [|? [|? ?]]; discriminate.
  - destruct (nonEmpty cur && (projected c cur site >? maxChunkSize c)) eqn:H.
    + destruct before as [|b before]; simpl in E.
      * injection E as <- E.
        destruct (chunkFrom_head l [site]) as (more & rest & Eh); [discriminate|].
        rewrite Eh in E. injection E as <- _.
        exists site, more. apply andb_true_iff in H. destruct H as [H1 H2].
        split; [reflexivity|]. split; [apply nonEmpty_true, H1|lia].
      * injection E as _ E. eapply IH; eauto.
    + eapply IH; eauto.
Qed.

End Chunking.

Section ChunkingResults.
Import dto sender.

Lemma estimatedCompressedSize_0 (c : Client) : estimatedCompressedSize c 0 = 0.
Proof. unfold estimatedCompressedSize. destruct (compress c); vm_compute; reflexivity. Qed.

Lemma buildChunks_fits (c : Client) (payload : VisitedSitesDTO) :
  Forall (fits c) (map VisitedSites (buildChunks c payload)).
Proof.
  rewrite buildChunks_runs. apply chunkFrom_fits.
  intros pre r post E Hpre. destruct pre; [congruence|discriminate].
Qed.

Lemma projected_spec (c : Client) (cur : list VisitedSite) (site : VisitedSite) :
  projected c cur site = chunkspec.projectedSize (compress c) cur site.
Proof.
  assert (Hsize : sizeOf cur = chunkspec.uncompressed cur).
  { unfold chunkspec.uncompressed. induction cur as [|x cur IH]; simpl; [reflexivity|].
    rewrite IH. reflexivity. }
  unfold projected, chunkspec.projectedSize, estimatedCompressedSize.
  rewrite Hsize. destruct (compress c); reflexivity.
Qed.

(** C4.  [buildChunks] walks the records in order and seals the current
    chunk exactly when it is non-empty and the projected size (the running
    uncompressed estimate, multiplied by the ratio 0.3 when compression is
    on, plus the entry size of the next record) exceeds the ceiling:
    - the chunks, one after the other, are the records of the batch, and
      no chunk is empty;
    - inside a chunk, every record after the first joined with a projected
      size within the ceiling (no seal was due);
    - between two consecutive chunks, the first record of the second one
      had a projected size above the ceiling (a seal happened only when
      due).
    Hence the estimate the split worked with is within the ceiling for
    every chunk, except for a chunk made of one record that alone exceeds
    it; without compression that estimate is the sum of the entry sizes of
    the chunk. *)
Theorem buildChunks_seal_rule (c : Client) (payload : VisitedSitesDTO) :
  let runs := map VisitedSites (buildChunks c payload) in
  let projectedSize := chunkspec.projectedSize (compress c) in
  concat runs = VisitedSites payload
  /\ Forall (fun ch => ch <> []) runs
  /\ (forall ch pre r post, In ch runs -> ch = pre ++ r :: post -> pre <> [] ->
        projectedSize pre r <= maxChunkSize c)
  /\ (forall before A B after, runs = before ++ A :: B :: after ->
        exists r rest, B = r :: rest /\ A <> [] /\ projectedSize A r > maxChunkSize c)
  /\ (forall ch init r, In ch runs -> ch = init ++ [r] ->
        projectedSize init r <= maxChunkSize c
        \/ (init = [] /\ chunkspec.entry r > maxChunkSize c))
  /\ (compress c = false -> forall ch, In ch runs ->
        chunkspec.uncompressed ch <= maxChunkSize c
        \/ (exists r, ch = [r] /\ chunkspec.entry r > maxChunkSize c)).
Proof.
  intros runs projectedSize.
  assert (Hproj : forall cur site, projectedSize cur site = projected c cur site)
    by (intros; symmetry; apply projected_spec).
  assert (Hcat : concat runs = VisitedSites payload).
  { unfold runs. rewrite buildChunks_runs, chunkFrom_concat. reflexivity. }
  assert (Hfits : Forall (fits c) runs) by apply buildChunks_fits.
  assert (Hne : Forall (fun ch => ch <> []) runs).
  { unfold runs. rewrite buildChunks_runs. apply chunkFrom_nonempty. }
  assert (Hlast : forall ch init r, In ch runs -> ch = init ++ [r] ->
            projectedSize init r <= maxChunkSize c
            \/ (init = [] /\ chunkspec.entry r > maxChunkSize c)).
  { intros ch init r Hin E. rewrite Hproj.
    destruct init as [|i init].
    - unfold projected. simpl. rewrite estimatedCompressedSize_0.
      change (chunkspec.entry r) with (entrySize r).
      destruct (Z_le_gt_dec (entrySize r) (maxChunkSize c)); [left; lia|right; auto].
    - left. rewrite List.Forall_forall in Hfits. apply (Hfits ch Hin (i :: init) r []).
      + exact E.
      + discriminate. }
  split; [exact Hcat|]. split; [exact Hne|]. split; [|split; [|split; [exact Hlast|]]].
  - intros ch pre r post Hin E Hpre. rewrite Hproj.
    rewrite List.Forall_forall in Hfits. exact (Hfits ch Hin pre r post E Hpre).
  - intros before A B after E. unfold runs in E. rewrite buildChunks_runs in E.
    destruct (chunkFrom_boundary c _ _ _ _ _ _ E) as (r & rest & HB & HA & Hover).
    exists r, rest. rewrite Hproj. auto.
  - intros Hc ch Hin.
    rewrite List.Forall_forall in Hne. specialize (Hne ch Hin).
    destruct (exists_last Hne) as (init & r & ->).
    destruct (Hlast _ init r Hin eq_refl) as [H|[-> H]].
    + left. unfold projectedSize, chunkspec.projectedSize in H. rewrite Hc in H.
      unfold chunkspec.uncompressed in *. rewrite map_app, fold_right_app. simpl.
      assert (Hsum : forall l a, fold_right Z.add a l = fold_right Z.add 0 l + a).
      { induction l as [|x l IH]; intros a; simpl; [lia|]. rewrite IH. lia. }
      rewrite Hsum. lia.
    + right. exists r. auto.
Qed.

End ChunkingResults.

(** ** Delivery *)

Section Delivery.
Import dto sender.

Variable net : Net.
Variable c : Client.

Lemma trackMax_app (m : Z) (l1 l2 : list VisitedSite) :
  trackMax m (l1 ++ l2) = trackMax (trackMax m l1) l2.
Proof. unfold trackMax. apply fold_left_app. Qed.

Lemma trackMax_cons (m : Z) (s : VisitedSite) (l : list VisitedSite) :
  trackMax m (s :: l) = trackMax (if Timestamp s >? m then Timestamp s else m) l.
Proof. reflexivity. Qed.

Lemma trackMax_ge (l : list VisitedSite) : forall m, m <= trackMax m l.
Proof.
  induction l as [|s l IH]; intros m; [cbn; lia|].
  rewrite trackMax_cons.
  destruct (Timestamp s >? m) eqn:H.
  - specialize (IH (Timestamp s)). lia.
  - apply IH.
Qed.

Lemma trackMax_upper (l : list VisitedSite) : forall m s,
  In s l -> Timestamp s <= trackMax m l.
Proof.
  induction l as [|s0 l IH]; intros m s Hin; [contradiction|].
  rewrite trackMax_cons. destruct Hin as [->|Hin]; [|apply IH, Hin].
  destruct (Timestamp s >? m) eqn:H.
  - apply trackMax_ge.
  - pose proof (trackMax_ge l m). lia.
Qed.

Lemma trackMax_in (l : list VisitedSite) : forall m,
  trackMax m l = m \/ exists s, In s l /\ Timestamp s = trackMax m l.
Proof.
  induction l as [|s0 l IH]; intros m; [left; reflexivity|].
  rewrite trackMax_cons.
  destruct (Timestamp s0 >? m) eqn:H.
  - right. destruct (IH (Timestamp s0)) as [E|(s & Hs & E)].
    + exists s0. split; [left; reflexivity|]. symmetry. exact E.
    + exists s. split; [right; exact Hs|exact E].
  - destruct (IH m) as [E|(s & Hs & E)]; [left; exact E|].
    right. exists s. split; [right; exact Hs|exact E].
Qed.

Lemma sendOutcomes_chunks (chunks : list VisitedSitesDTO) : forall log,
  map fst (sendOutcomes net c chunks log) = chunks.
Proof.
  induction chunks as [|chunk rest IH]; intros log; simpl; [reflexivity|].
  destruct (sendChunk net c chunk log) as [r log1]. simpl. rewrite IH. reflexivity.
Qed.

Lemma lenSites_app (l1 l2 : list VisitedSite) :
  lenSites (l1 ++ l2) = lenSites l1 + lenSites l2.
Proof. unfold lenSites. rewrite length_app. lia. Qed.

(** What the loop of [Send] computes, read off the history. *)
Lemma sendLoop_history (chunks : list VisitedSitesDTO) : forall result m log,
  let outs := sendOutcomes net c chunks log in
  let r := fst (sendLoop net c chunks result m log) in
  TotalSent (fst r) = TotalSent result + lenSites (confirmedSites outs)
  /\ FailedCount (fst r) = FailedCount result + lenSites (failedSites outs)
  /\ LastError (fst r) = lastErrorOf outs (LastError result)
  /\ snd r = trackMax m (confirmedSites outs).
Proof.
  induction chunks as [|chunk rest IH]; intros result m log; simpl.
  - unfold ret, lenSites. simpl. repeat split; lia || reflexivity.
  - unfold bind. destruct (sendChunk net c chunk log) as [[[bs bo] [err|]] log1]; simpl.
    + match goal with |- context [sendLoop net c rest ?res m log1] =>
        destruct (IH res m log1) as (H1 & H2 & H3 & H4) end.
      simpl in *. rewrite H1, H2, H3, H4, lenSites_app. repeat split; lia.
    + match goal with |- context [sendLoop net c rest ?res ?mm log1] =>
        destruct (IH res mm log1) as (H1 & H2 & H3 & H4) end.
      simpl in *. rewrite H1, H2, H3, H4, lenSites_app, trackMax_app. repeat split; lia.
Qed.

Lemma confirmed_failed_total (outs : list (VisitedSitesDTO * option error)) :
  lenSites (confirmedSites outs) + lenSites (failedSites outs)
  = lenSites (concat (map VisitedSites (map fst outs))).
Proof.
  induction outs as [|[chunk [err|]] outs IH]; simpl; [reflexivity| |];
    rewrite !lenSites_app; lia.
Qed.

Lemma buildChunks_empty (payload : VisitedSitesDTO) :
  VisitedSites payload = [] -> buildChunks c payload = [].
Proof. intros E. unfold buildChunks. rewrite E. reflexivity. Qed.

Lemma Send_history (payload : VisitedSitesDTO) (log : list Request) :
  let outs := Send_outcomes net c payload log in
  TotalSent (Send_result net c payload log) = lenSites (confirmedSites outs)
  /\ FailedCount (Send_result net c payload log) = lenSites (failedSites outs)
  /\ LastError (Send_result net c payload log) = lastErrorOf outs None
  /\ Send_maxTimestamp net c payload log = trackMax 0 (confirmedSites outs)
  /\ Send_err net c payload log
     = (if lenSites (confirmedSites outs) =? 0 then lastErrorOf outs None else None).
Proof.
  unfold Send_outcomes, Send_result, Send_maxTimestamp, Send_err, Send.
  destruct (VisitedSites payload) as [|s0 l] eqn:E.
  - rewrite (buildChunks_empty payload E). simpl. repeat split; reflexivity.
  - simpl. unfold bind.
    pose proof (sendLoop_history (buildChunks c payload) emptyResult 0 log) as H.
    cbv zeta in H.
    destruct (sendLoop net c (buildChunks c payload) emptyResult 0 log)
      as [[result m] log1].
    simpl in H. destruct H as (H1 & H2 & H3 & H4).
    set (outs := sendOutcomes net c (buildChunks c payload) log) in *.
    assert (H1' : TotalSent result = lenSites (confirmedSites outs)) by lia.
    assert (H2' : FailedCount result = lenSites (failedSites outs)) by lia.
    clear H1 H2. rewrite <- H1', <- H3, <- H4.
    destruct (LastError result) as [err|] eqn:HL.
    + destruct (TotalSent result =? 0) eqn:HT; unfold ret; simpl.
      * repeat split; try assumption.
        apply Z.eqb_eq in HT. rewrite HT in H1'. unfold lenSites in H1'.
        rewrite H4. destruct (confirmedSites outs); [reflexivity|simpl in H1'; lia].
      * repeat split; assumption.
    + unfold ret; simpl. destruct (TotalSent result =? 0); repeat split; assumption.
Qed.

Lemma confirmedSites_app (o1 o2 : list (VisitedSitesDTO * option error)) :
  confirmedSites (o1 ++ o2) = confirmedSites o1 ++ confirmedSites o2.
Proof.
  induction o1 as [|[ch [e|]] o1 IH]; simpl; [reflexivity|exact IH|].
  rewrite IH, app_assoc. reflexivity.
Qed.

Lemma confirmedSites_in (outs : list (VisitedSitesDTO * option error)) (s : VisitedSite) :
  In s (confirmedSites outs) <->
  exists chunk, In (chunk, None) outs /\ In s (VisitedSites chunk).
Proof.
  induction outs as [|[ch [e|]] outs IH]; simpl.
  - split; [contradiction|]. intros (? & [] & _).
  - rewrite IH. split.
    + intros (chunk & H1 & H2). exists chunk. auto.
    + intros (chunk & [H1|H1] & H2); [discriminate|]. exists chunk. auto.
  - rewrite in_app_iff, IH. split.
    + intros [H|(chunk & H1 & H2)]; [exists ch; auto|exists chunk; auto].
    + intros (chunk & [H1|H1] & H2).
      * injection H1 as ->. auto.
      * right. exists chunk. auto.
Qed.

Lemma confirmedSites_all_failed (outs : list (VisitedSitesDTO * option error)) :
  Forall (fun o => snd o <> None) outs -> confirmedSites outs = [].
Proof.
  induction 1 as [|[ch [e|]] outs H _ IH]; simpl; [reflexivity|exact IH|].
  simpl in H. congruence.
Qed.

Lemma lastErrorOf_failed (outs : list (VisitedSitesDTO * option error)) : forall before,
  before <> None \/ (exists o, In o outs /\ snd o <> None) ->
  lastErrorOf outs before <> None.
Proof.
  induction outs as [|[ch [e|]] outs IH]; intros before H; simpl.
  - destruct H as [H|(o & [] & _)]. exact H.
  - apply IH. left. discriminate.
  - apply IH. destruct H as [H|(o & [<-|Hin] & Ho)].
    + left. exact H.
    + simpl in Ho. congruence.
    + right. exists o. auto.
Qed.

End Delivery.

Section DeliveryResults.
Import dto sender.

Lemma strongly_sorted_app {A} (R : A -> A -> Prop) (l1 l2 : list A) :
  StronglySorted R (l1 ++ l2) -> forall x y, In x l1 -> In y l2 -> R x y.
Proof.
  induction l1 as [|a l1 IH]; simpl; intros H x y Hx Hy; [contradiction|].
  inversion H as [|? ? Hs Hall]; subst.
  destruct Hx as [->|Hx]; [|eapply IH; eauto].
  rewrite List.Forall_forall in Hall. apply Hall. apply in_or_app. auto.
Qed.

Lemma confirmedSites_sub (outs : list (VisitedSitesDTO * option error)) (s : VisitedSite) :
  In s (confirmedSites outs) -> In s (concat (map VisitedSites (map fst outs))).
Proof.
  induction outs as [|[ch [e|]] outs IH]; simpl; intros H.
  - exact H.
  - apply in_or_app. right. apply IH, H.
  - apply in_app_or in H. apply in_or_app. destruct H; [left|right]; auto.
Qed.

(** The chunks of a non-empty batch: at least one, none empty. *)
Lemma Send_outcomes_shape (net : Net) (c : Client) (payload : VisitedSitesDTO)
    (log : list Request) :
  map fst (Send_outcomes net c payload log) = buildChunks c payload
  /\ Forall (fun o => VisitedSites (fst o) <> []) (Send_outcomes net c payload log)
  /\ (VisitedSites payload <> [] -> Send_outcomes net c payload log <> []).
Proof.
  unfold Send_outcomes.
  pose proof (sendOutcomes_chunks net c (buildChunks c payload) log) as Hm.
  split; [exact Hm|]. split.
  - pose proof (chunkFrom_nonempty c (VisitedSites payload) []) as Hne.
    rewrite <- buildChunks_runs, <- Hm, map_map in Hne.
    rewrite List.Forall_map in Hne. exact Hne.
  - intros Hp E. rewrite E in Hm. simpl in Hm.
    pose proof (chunkFrom_concat c (VisitedSites payload) []) as Hc.
    rewrite <- buildChunks_runs, <- Hm in Hc. simpl in Hc. congruence.
Qed.

Lemma buildChunks_partition_total_aux
    (net : Net) (c : Client) (payload : VisitedSitesDTO) (log : list Request) :
  TotalSent (Send_result net c payload log) + FailedCount (Send_result net c payload log)
  = lenSites (VisitedSites payload).
Proof.
  destruct (Send_history net c payload log) as (H1 & H2 & _).
  rewrite H1, H2, confirmed_failed_total.
  destruct (Send_outcomes_shape net c payload log) as (Hm & _).
  rewrite Hm, buildChunks_runs, chunkFrom_concat. reflexivity.
Qed.

(** C10.  [buildChunks] partitions the batch: the chunks' records,
    concatenated in emission order, are the records of the batch, and
    every chunk carries the principal and the source of the batch.
    [Send] accounts for every record: [TotalSent + FailedCount] is the
    number of records of the batch. *)
Theorem buildChunks_partition_Send_total
    (net : Net) (c : Client) (payload : VisitedSitesDTO) (log : list Request) :
  concat (map VisitedSites (buildChunks c payload)) = VisitedSites payload
  /\ Forall (fun ch => Principal ch = Principal payload /\ Source ch = Source payload)
            (buildChunks c payload)
  /\ TotalSent (Send_result net c payload log) + FailedCount (Send_result net c payload log)
     = lenSites (VisitedSites payload).
Proof.
  assert (Hcat : concat (map VisitedSites (buildChunks c payload)) = VisitedSites payload).
  { rewrite buildChunks_runs, chunkFrom_concat. reflexivity. }
  split; [exact Hcat|]. split.
  - unfold buildChunks.
    apply (fold_step_tags c payload (VisitedSites payload)
             {| chunks := []; currentSites := []; currentSize := 0 |}).
    constructor.
  - apply buildChunks_partition_total_aux.
Qed.

(** [Send] returns an error exactly when the batch is non-empty and
    all its chunks failed. *)
Lemma Send_err_iff (net : Net) (c : Client) (payload : VisitedSitesDTO)
    (log : list Request) :
  Send_err net c payload log <> None <->
  VisitedSites payload <> []
  /\ Forall (fun o => snd o <> None) (Send_outcomes net c payload log).
Proof.
  destruct (Send_history net c payload log) as (_ & _ & _ & _ & H5).
  destruct (Send_outcomes_shape net c payload log) as (Hm & Hne & Hsome).
  set (outs := Send_outcomes net c payload log) in *.
  rewrite H5. split.
  - intros Herr.
    destruct (lenSites (confirmedSites outs) =? 0) eqn:HT; [|congruence].
    apply Z.eqb_eq in HT.
    assert (Hc : confirmedSites outs = []).
    { unfold lenSites in HT. destruct (confirmedSites outs); [reflexivity|simpl in HT; lia]. }
    split.
    + intros Hp. destruct outs as [|o outs'] eqn:Eo; [|].
      * simpl in Herr. congruence.
      * pose proof (buildChunks_empty c payload Hp) as Hb.
        rewrite Hb in Hm. discriminate.
    + clear -Hc Hne. induction outs as [|[ch [e|]] outs' IH]; constructor.
      * discriminate.
      * inversion Hne; subst. apply IH; assumption.
      * exfalso. inversion Hne as [|? ? Hx _]; subst. simpl in *.
        destruct (VisitedSites ch); [congruence|discriminate].
      * inversion Hne; subst. simpl in Hc.
        apply app_eq_nil in Hc. destruct Hc. apply IH; assumption.
  - intros [Hp Hall].
    rewrite (confirmedSites_all_failed outs Hall). simpl.
    apply lastErrorOf_failed. right.
    destruct outs as [|o outs'] eqn:Eo; [exfalso; apply (Hsome Hp); reflexivity|].
    exists o. split; [left; reflexivity|]. inversion Hall; assumption.
Qed.

(** C2 (as amended).  [Send] returns an error exactly when the batch is
    non-empty and every one of its chunks failed; the error is then the
    last chunk error, also found in [LastError], with [FailedCount] the
    size of the batch, [TotalSent] and the returned timestamp 0.  In every
    other case [Send] returns no error and reports the failures through
    [LastError] and [FailedCount] only. *)
Theorem Send_error_iff_nothing_sent
    (net : Net) (c : Client) (payload : VisitedSitesDTO) (log : list Request) :
  let outs := Send_outcomes net c payload log in
  let result := Send_result net c payload log in
  (Send_err net c payload log <> None <->
     VisitedSites payload <> [] /\ Forall (fun o => snd o <> None) outs)
  /\ (forall err, Send_err net c payload log = Some err ->
        LastError result = Some err
        /\ FailedCount result = lenSites (VisitedSites payload)
        /\ TotalSent result = 0
        /\ Send_maxTimestamp net c payload log = 0)
  /\ (Send_err net c payload log = None ->
        LastError result = lastErrorOf outs None
        /\ FailedCount result = lenSites (failedSites outs)).
Proof.
  intros outs result.
  destruct (Send_history net c payload log) as (H1 & H2 & H3 & H4 & H5).
  destruct (Send_outcomes_shape net c payload log) as (Hm & Hne & Hsome).
  fold outs in H1, H2, H3, H4, H5, Hm, Hne, Hsome. fold result in H1, H2, H3.
  pose proof (buildChunks_partition_total_aux net c payload log) as Htot.
  split; [|split].
  - apply Send_err_iff.
  - intros err Herr. rewrite H5 in Herr.
    destruct (lenSites (confirmedSites outs) =? 0) eqn:HT; [|discriminate].
    apply Z.eqb_eq in HT.
    assert (Hc : confirmedSites outs = []).
    { unfold lenSites in HT. destruct (confirmedSites outs); [reflexivity|simpl in HT; lia]. }
    assert (Hz : TotalSent result = 0) by (rewrite H1; exact HT).
    fold result in Htot. rewrite H4, Hc.
    repeat split; try congruence; try lia; reflexivity.
  - intros _. split; assumption.
Qed.

End DeliveryResults.

(** ** Concrete runs of the transport *)

Section DeliveryRuns.
Import dto sender examples.

Example batch2_chunks :
  map VisitedSites (buildChunks client1K batch2) = [[early]; [late]].
Proof. vm_compute. reflexivity. Qed.

Example batch2_firstFails :
  map snd (Send_outcomes firstFails client1K batch2 [])
    = [Some (wrapError "request failed" (errorString "connection reset")); None]
  /\ Send_maxTimestamp firstFails client1K batch2 [] = 1700000060000
  /\ Send_err firstFails client1K batch2 [] = None.
Proof. vm_compute. repeat split; reflexivity. Qed.

(** The estimate under compression is the truncated binary64 product
    with 0.3. *)
Example estimatedCompressedSize_values :
  map (estimatedCompressedSize client1Kgz) [0; 10; 640; 1280; 1920; 3495253; 1000000007]
  = [0; 3; 192; 384; 576; 1048575; 300000002].
Proof. vm_compute. reflexivity. Qed.

(** Under compression three records of 640 bytes fit below 1024 bytes
    (384 + 640 is not above the ceiling) and the fourth does not. *)
Example batch4_chunks_gzip :
  map (fun ch => map Timestamp (VisitedSites ch))
      (buildChunks client1Kgz
         {| Principal := NewUserPrincipal "alice"; Source := "hist_scanner";
            VisitedSites := [site (longURL 600) 1; site (longURL 600) 2;
                             site (longURL 600) 3; site (longURL 600) 4] |})
  = [[1; 2; 3]; [4]].
Proof. vm_compute. reflexivity. Qed.

End DeliveryRuns.

(** ** The timestamp [Send] hands to the watermark *)

Section Watermark.
Import dto sender.

Variable net : Net.
Variable c : Client.
Variable payload : VisitedSitesDTO.
Variable log : list Request.

(** The returned timestamp is 0 or the timestamp of a confirmed record,
    and no confirmed record is newer. *)
Lemma Send_maxTimestamp_confirmed :
  (Send_maxTimestamp net c payload log = 0
   \/ exists chunk site,
        In (chunk, None) (Send_outcomes net c payload log)
        /\ In site (VisitedSites chunk)
        /\ Timestamp site = Send_maxTimestamp net c payload log)
  /\ 0 <= Send_maxTimestamp net c payload log
  /\ (forall chunk site,
        In (chunk, None) (Send_outcomes net c payload log) ->
        In site (VisitedSites chunk) ->
        Timestamp site <= Send_maxTimestamp net c payload log).
Proof.
  destruct (Send_history net c payload log) as (_ & _ & _ & H4 & _).
  rewrite H4. split; [|split].
  - destruct (trackMax_in (confirmedSites (Send_outcomes net c payload log)) 0)
      as [E|(s & Hs & E)]; [left; exact E|right].
    apply confirmedSites_in in Hs. destruct Hs as (chunk & H1 & H2).
    exists chunk, s. auto.
  - apply trackMax_ge.
  - intros chunk site H1 H2. apply trackMax_upper.
    apply confirmedSites_in. exists chunk. auto.
Qed.

(** On a batch sorted by a transitive order on timestamps, a failed chunk
    with no confirmed chunk after it bounds the returned timestamp. *)
Lemma Send_maxTimestamp_sorted (R : Z -> Z -> Prop)
    (Rtrans : forall x y z, R x y -> R y z -> R x z)
    (before after : list (VisitedSitesDTO * option error))
    (failed : VisitedSitesDTO) (err : error) :
  Sorted (fun a b => R (Timestamp a) (Timestamp b)) (VisitedSites payload) ->
  Send_outcomes net c payload log = before ++ (failed, Some err) :: after ->
  Forall (fun o => snd o <> None) after ->
  forall site, In site (VisitedSites failed) ->
    Send_maxTimestamp net c payload log = 0
    \/ R (Send_maxTimestamp net c payload log) (Timestamp site).
Proof.
  intros Hsorted Hout Hafter site Hsite.
  destruct (Send_history net c payload log) as (_ & _ & _ & H4 & _).
  destruct (Send_outcomes_shape net c payload log) as (Hm & _).
  rewrite Hout in H4, Hm.
  rewrite confirmedSites_app in H4. simpl in H4.
  rewrite (confirmedSites_all_failed after Hafter), app_nil_r in H4.
  destruct (trackMax_in (confirmedSites before) 0) as [E|(s & Hs & E)].
  - left. congruence.
  - right. rewrite H4, <- E.
    apply Sorted_StronglySorted in Hsorted.
    2:{ intros x y z. apply Rtrans. }
    assert (Hcat : concat (map VisitedSites (buildChunks c payload)) = VisitedSites payload).
    { rewrite buildChunks_runs, chunkFrom_concat. reflexivity. }
    rewrite <- Hcat, <- Hm in Hsorted.
    rewrite !map_app, concat_app in Hsorted. simpl in Hsorted.
    apply (strongly_sorted_app _ _ _ Hsorted).
    + apply confirmedSites_sub, Hs.
    + apply in_or_app. left. exact Hsite.
Qed.

End Watermark.

(** ** The orchestrator *)

Section Orchestrator.
Import scanner.

Variable env : Env.
Variable s : Scanner.

(** What [scanProfile] does once the read has produced entries and the
    run is not a dry run. *)
Lemma scanProfile_sends (user : platform.User) (b : browser.Browser)
    (profile : browser.Profile) (w : World) (entries : list dto.VisitedSite) :
  browser.GetHistory b (host env) profile (lastTimestampFor env user b profile w)
    = (entries, None) ->
  entries <> [] ->
  dryRun s = false ->
  let payload := payloadFor env s user entries in
  fst (scanProfile env s user b profile w)
  = match sender.Send_err (net env) (client s) payload (wire w) with
    | Some err => (0, Some (wrapError "failed to send" err))
    | None => (sender.TotalSent (sender.Send_result (net env) (client s) payload (wire w)),
               None)
    end
  /\ data (snd (scanProfile env s user b profile w))
     = match sender.Send_err (net env) (client s) payload (wire w) with
       | Some _ => data w
       | None =>
           if sender.Send_maxTimestamp (net env) (client s) payload (wire w) >? 0
           then state.SetLastTimestamp (data w) (platform.Username user)
                  (browser.Browser_Name b) (browser.Name profile)
                  (sender.Send_maxTimestamp (net env) (client s) payload (wire w))
           else data w
       end.
Proof.
  intros Hread Hne Hdry payload.
  unfold scanProfile, sender.Send_err, sender.Send_result, sender.Send_maxTimestamp.
  rewrite Hread, Hdry.
  destruct entries as [|e entries']; [congruence|]. simpl negb. cbv iota.
  fold payload.
  destruct (sender.Send (net env) (client s) payload (wire w))
    as [[[result maxTimestamp] [err|]] wire1]; simpl; split; reflexivity.
Qed.

(** [scanProfile] returns an error only when the read fails, when the
    dry-run encoder fails, or when [Send] returns an error. *)
Lemma scanProfile_error (user : platform.User) (b : browser.Browser)
    (profile : browser.Profile) (w : World) (err : error) :
  snd (fst (scanProfile env s user b profile w)) = Some err ->
  (exists e, snd (browser.GetHistory b (host env) profile
                    (lastTimestampFor env user b profile w)) = Some e)
  \/ (exists entries e,
        browser.GetHistory b (host env) profile (lastTimestampFor env user b profile w)
          = (entries, None)
        /\ entries <> []
        /\ ((dryRun s = true
             /\ json_MarshalIndent env (payloadFor env s user entries) = inl e)
            \/ (dryRun s = false
                /\ sender.Send_err (net env) (client s) (payloadFor env s user entries)
                     (wire w) = Some e))).
Proof.
  unfold scanProfile, sender.Send_err.
  destruct (browser.GetHistory b (host env) profile (lastTimestampFor env user b profile w))
    as [entries [e|]] eqn:Hread.
  - intros _. left. exists e. reflexivity.
  - destruct entries as [|e0 entries']; simpl; [discriminate|].
    intros H. right. exists (e0 :: entries').
    destruct (dryRun s) eqn:Hdry.
    + destruct (json_MarshalIndent env (payloadFor env s user (e0 :: entries')))
        as [e|out] eqn:Hm; [|discriminate].
      exists e. repeat split; [discriminate|]. left. auto.
    + destruct (sender.Send (net env) (client s) (payloadFor env s user (e0 :: entries'))
                  (wire w)) as [[[result maxTimestamp] [e|]] wire1]; [|discriminate].
      exists e. repeat split; [discriminate|]. right. auto.
Qed.

Lemma countIf_snoc {A} (p : A -> bool) (l : list A) (x : A) :
  countIf p (l ++ [x]) = countIf p l + (if p x then 1 else 0).
Proof.
  unfold countIf. rewrite List.filter_app, length_app. simpl.
  destruct (p x); simpl; lia.
Qed.

Lemma Run_profile_counted (user : platform.User) (b : browser.Browser)
    (acc : runAcc) (profile : browser.Profile) :
  counted acc -> counted (Run_profile env s user b acc profile).
Proof.
  intros [Hs Hf]. unfold Run_profile, counted.
  destruct (scanProfile env s user b profile (world acc)) as [[sent [err|]] w1]; simpl;
    rewrite !countIf_snoc, <- Hs, <- Hf; unfold isSuccess, isFailure; simpl.
  - lia.
  - destruct (sent >? 0); lia.
Qed.

Lemma fold_counted {A} (f : runAcc -> A -> runAcc) (l : list A) :
  (forall acc x, counted acc -> counted (f acc x)) ->
  forall acc, counted acc -> counted (fold_left f l acc).
Proof.
  intros Hf. induction l as [|x l IH]; intros acc Hacc; simpl; [exact Hacc|].
  apply IH, Hf, Hacc.
Qed.

Lemma Run_browser_counted (user : platform.User) (acc : runAcc) (b : browser.Browser) :
  counted acc -> counted (Run_browser env s user acc b).
Proof.
  intros Hacc. unfold Run_browser.
  destruct (browser.FindProfiles b (host env) user) as [profiles [e|]]; [exact Hacc|].
  apply fold_counted; [|exact Hacc]. intros; apply Run_profile_counted; assumption.
Qed.

Lemma Run_user_counted (acc : runAcc) (user : platform.User) :
  counted acc -> counted (Run_user env s acc user).
Proof.
  intros Hacc. unfold Run_user. apply fold_counted.
  - intros; apply Run_browser_counted; assumption.
  - exact Hacc.
Qed.

Lemma countIf_pos {A} (p : A -> bool) (l : list A) :
  countIf p l > 0 <-> Exists (fun x => p x = true) l.
Proof.
  unfold countIf. induction l as [|x l IH]; simpl.
  - split; [lia|]. intros H. inversion H.
  - destruct (p x) eqn:Hp; simpl.
    + split; [|lia]. intros _. constructor. exact Hp.
    + rewrite IH. split.
      * intros H. apply Exists_cons_tl. exact H.
      * intros H. inversion H; subst; [congruence|assumption].
Qed.

Lemma countIf_nonneg {A} (p : A -> bool) (l : list A) : 0 <= countIf p l.
Proof. unfold countIf. lia. Qed.

End Orchestrator.

Section OrchestratorResults.
Import scanner.

(** One confirmed chunk is enough for [Send] to return no error and a
    positive [TotalSent]. *)
Lemma Send_confirmed_some (net : sender.Net) (c : sender.Client)
    (payload : dto.VisitedSitesDTO) (log : list sender.Request) :
  (exists chunk, In (chunk, None) (sender.Send_outcomes net c payload log)) ->
  sender.Send_err net c payload log = None
  /\ sender.TotalSent (sender.Send_result net c payload log) > 0.
Proof.
  intros (chunk & Hin).
  destruct (Send_history net c payload log) as (H1 & _ & _ & _ & H5).
  destruct (Send_outcomes_shape net c payload log) as (_ & Hne & _).
  rewrite List.Forall_forall in Hne. specialize (Hne _ Hin). simpl in Hne.
  assert (Hpos : sender.lenSites
                   (sender.confirmedSites (sender.Send_outcomes net c payload log)) > 0).
  { destruct (dto.VisitedSites chunk) as [|s0 l] eqn:E; [congruence|].
    assert (Hs : In s0 (sender.confirmedSites (sender.Send_outcomes net c payload log))).
    { apply confirmedSites_in. exists chunk. rewrite E. split; [exact Hin|left; reflexivity]. }
    unfold sender.lenSites.
    destruct (sender.confirmedSites (sender.Send_outcomes net c payload log));
      [contradiction|simpl; lia]. }
  rewrite H5, H1. split; [|exact Hpos].
  destruct (Z.eqb_spec
              (sender.lenSites
                 (sender.confirmedSites (sender.Send_outcomes net c payload log))) 0);
    [lia|reflexivity].
Qed.

Lemma Run_traced_counted (env : Env) (s : Scanner) (w : World)
    (u : platform.User) (users : list platform.User) :
  GetAllUsers env = inr (u :: users) ->
  ExitCode (fst (Run env s w))
  = exitCodeOf (countIf isSuccess (snd (Run_traced env s w)))
               (countIf isFailure (snd (Run_traced env s w))).
Proof.
  intros Hu. unfold Run, Run_traced. rewrite Hu. cbn [sender.nonEmpty negb fst snd ExitCode].
  assert (H : counted (fold_left (Run_user env s) (u :: users) (startAcc w))).
  { apply fold_counted.
    - intros; apply Run_user_counted; assumption.
    - split; reflexivity. }
  destruct H as [H1 H2]. rewrite H1, H2. reflexivity.
Qed.

(** C3 (as amended).  [Run] exits with 2 when the users cannot be
    enumerated or there is none.  Otherwise the exit code follows the calls
    of [scanProfile]: 0 exactly when none returned an error; 1 exactly when
    one returned an error and one returned no error with a positive number
    of entries sent; 2 exactly when one returned an error and none sent any
    entry.  A container counts as a success as soon as one of its chunks is
    confirmed, whatever the number of chunks that failed; outside a dry run
    its scan returns an error only when the read fails or every chunk
    fails. *)
Theorem Run_exit_code (env : Env) (s : Scanner) (w : World) :
  let code := ExitCode (fst (Run env s w)) in
  let outs := snd (Run_traced env s w) in
  (forall err, GetAllUsers env = inl err -> code = ExitCompleteFailure)
  /\ (GetAllUsers env = inr [] -> code = ExitCompleteFailure)
  /\ (forall u users, GetAllUsers env = inr (u :: users) ->
        (code = ExitSuccess <-> Forall (fun o => isFailure o = false) outs)
        /\ (code = ExitPartialFailure <->
              Exists (fun o => isFailure o = true) outs
              /\ Exists (fun o => isSuccess o = true) outs)
        /\ (code = ExitCompleteFailure <->
              Exists (fun o => isFailure o = true) outs
              /\ ~ Exists (fun o => isSuccess o = true) outs))
  /\ (forall user b profile w0 entries,
        dryRun s = false ->
        browser.GetHistory b (host env) profile (lastTimestampFor env user b profile w0)
          = (entries, None) ->
        entries <> [] ->
        (exists chunk,
           In (chunk, None)
              (sender.Send_outcomes (net env) (client s) (payloadFor env s user entries)
                 (wire w0))) ->
        isSuccess (fst (scanProfile env s user b profile w0)) = true)
  /\ (forall user b profile w0 err,
        dryRun s = false ->
        snd (fst (scanProfile env s user b profile w0)) = Some err ->
        (exists e, snd (browser.GetHistory b (host env) profile
                          (lastTimestampFor env user b profile w0)) = Some e)
        \/ (exists entries,
              browser.GetHistory b (host env) profile
                (lastTimestampFor env user b profile w0) = (entries, None)
              /\ entries <> []
              /\ Forall (fun o => snd o <> None)
                    (sender.Send_outcomes (net env) (client s)
                       (payloadFor env s user entries) (wire w0)))).
Proof.
  intros code outs. split; [|split; [|split; [|split]]].
  - intros err He. unfold code, Run, Run_traced. rewrite He. reflexivity.
  - intros He. unfold code, Run, Run_traced. rewrite He. reflexivity.
  - intros u users Hu.
    pose proof (Run_traced_counted env s w u users Hu) as Hcode.
    fold code in Hcode. fold outs in Hcode.
    pose proof (countIf_pos isSuccess outs) as Hs.
    pose proof (countIf_pos isFailure outs) as Hf.
    pose proof (countIf_nonneg isSuccess outs) as Hs0.
    pose proof (countIf_nonneg isFailure outs) as Hf0.
    assert (Hall : Forall (fun o => isFailure o = false) outs
                   <-> ~ Exists (fun o => isFailure o = true) outs).
    { rewrite <- List.Forall_Exists_neg. split; apply List.Forall_impl; intros o;
        destruct (isFailure o); congruence. }
    unfold exitCodeOf, ExitSuccess, ExitPartialFailure, ExitCompleteFailure in *.
    rewrite Hall, <- Hs, <- Hf, Hcode.
    destruct (Z.eqb_spec (countIf isSuccess outs) 0);
      destruct (Z.gtb_spec (countIf isFailure outs) 0); simpl; repeat split; intros; lia.
  - intros user b profile w0 entries Hdry Hread Hne Hconf.
    destruct (scanProfile_sends env s user b profile w0 entries Hread Hne Hdry) as [E _].
    destruct (Send_confirmed_some _ _ _ _ Hconf) as [Herr Hpos].
    rewrite E, Herr. unfold isSuccess. simpl. apply Z.gtb_lt. lia.
  - intros user b profile w0 err Hdry Herr.
    destruct (scanProfile_error env s user b profile w0 err Herr)
      as [Hread|(entries & e & Hread & Hne & [[Hd _]|[_ Hsend]])].
    + left. exact Hread.
    + congruence.
    + right. exists entries. repeat split; try assumption.
      apply Send_err_iff. rewrite Hsend. discriminate.
Qed.

(** C1 (as amended).  The timestamp [Send] returns for the watermark is
    the largest positive timestamp among the records of the chunks
    confirmed sent, and 0 when there is none.  On a batch in
    non-decreasing timestamp order, if a chunk fails and no chunk after it
    is confirmed, that timestamp is 0 or at most the timestamp of every
    record of the failed chunk, and strictly below it when the timestamps
    strictly increase.  After sending a batch, [scanProfile] stores that
    timestamp as the watermark of the container when it is positive, and
    leaves every watermark as it was otherwise. *)
Theorem Send_maxTimestamp_failed_chunk
    (net : sender.Net) (c : sender.Client) (payload : dto.VisitedSitesDTO)
    (log : list sender.Request) :
  let outs := sender.Send_outcomes net c payload log in
  let maxTimestamp := sender.Send_maxTimestamp net c payload log in
  0 <= maxTimestamp
  /\ ((forall chunk site, In (chunk, None) outs -> In site (dto.VisitedSites chunk) ->
         dto.Timestamp site <= 0) -> maxTimestamp = 0)
  /\ (0 < maxTimestamp ->
      exists chunk site,
        In (chunk, None) outs
        /\ In site (dto.VisitedSites chunk) /\ dto.Timestamp site = maxTimestamp)
  /\ (forall chunk site,
        In (chunk, None) outs ->
        In site (dto.VisitedSites chunk) -> dto.Timestamp site <= maxTimestamp)
  /\ (forall before failed err after,
        outs = before ++ (failed, Some err) :: after ->
        Forall (fun o => snd o <> None) after ->
        (Sorted (fun a b => dto.Timestamp a <= dto.Timestamp b) (dto.VisitedSites payload) ->
         forall site, In site (dto.VisitedSites failed) ->
           maxTimestamp = 0 \/ maxTimestamp <= dto.Timestamp site)
        /\ (Sorted (fun a b => dto.Timestamp a < dto.Timestamp b) (dto.VisitedSites payload) ->
            forall site, In site (dto.VisitedSites failed) ->
              maxTimestamp = 0 \/ maxTimestamp < dto.Timestamp site))
  /\ (forall env s user b profile w,
        scanner.net env = net -> client s = c -> wire w = log -> dryRun s = false ->
        browser.GetHistory b (host env) profile (lastTimestampFor env user b profile w)
          = (dto.VisitedSites payload, None) ->
        dto.VisitedSites payload <> [] ->
        payloadFor env s user (dto.VisitedSites payload) = payload ->
        data (snd (scanProfile env s user b profile w))
        = if maxTimestamp >? 0
          then state.SetLastTimestamp (data w) (platform.Username user)
                 (browser.Browser_Name b) (browser.Name profile) maxTimestamp
          else data w).
Proof.
  intros outs maxTimestamp.
  destruct (Send_maxTimestamp_confirmed net c payload log) as (H1 & H0 & H2).
  fold maxTimestamp in H0, H1, H2. fold outs in H1, H2.
  split; [exact H0|]. split; [|split; [|split; [exact H2|split]]].
  - intros Hnone. destruct H1 as [E|(chunk & site & Hin & Hs & E)]; [exact E|].
    specialize (Hnone chunk site Hin Hs). lia.
  - intros Hpos. destruct H1 as [E|H1]; [lia|exact H1].
  - intros before failed err after Hout Hafter. split.
    + intros Hs site Hsite.
      apply (Send_maxTimestamp_sorted net c payload log Z.le Z.le_trans
               before after failed err Hs Hout Hafter site Hsite).
    + intros Hs site Hsite.
      apply (Send_maxTimestamp_sorted net c payload log Z.lt Z.lt_trans
               before after failed err Hs Hout Hafter site Hsite).
  - intros env s user b profile w Hnet Hc Hw Hdry Hread Hne Hpay.
    destruct (scanProfile_sends env s user b profile w (dto.VisitedSites payload)
                Hread Hne Hdry) as [_ Hdata].
    cbv zeta in Hdata. rewrite Hpay, Hnet, Hc, Hw in Hdata.
    rewrite Hdata. fold maxTimestamp.
    destruct (sender.Send_err net c payload log) as [e|] eqn:Herr; [|reflexivity].
    destruct (Send_history net c payload log) as (_ & _ & _ & Hmax & Herr2).
    fold maxTimestamp in Hmax. fold outs in Hmax, Herr2.
    rewrite Herr in Herr2.
    destruct (sender.lenSites (sender.confirmedSites outs) =? 0) eqn:HT; [|discriminate].
    apply Z.eqb_eq in HT. unfold sender.lenSites in HT.
    destruct (sender.confirmedSites outs); [|simpl in HT; lia].
    rewrite Hmax. reflexivity.
Qed.

(** C8.  When the read succeeds with no entry, [scanProfile] returns
    [(0, nil)] and leaves the world as it was: no request reaches the wire
    and no watermark is written.  [Send] itself issues no request for an
    empty batch. *)
Theorem scanProfile_skipped (env : Env) (s : Scanner) (user : platform.User)
    (b : browser.Browser) (profile : browser.Profile) (w : World) :
  browser.GetHistory b (host env) profile (lastTimestampFor env user b profile w)
    = ([], None) ->
  scanProfile env s user b profile w = ((0, None), w)
  /\ (forall payload log,
        dto.VisitedSites payload = [] ->
        sender.Send (net env) (client s) payload log
        = ((sender.emptyResult, 0, None), log)).
Proof.
  intros Hread. split.
  - unfold scanProfile. rewrite Hread. reflexivity.
  - intros payload log Hp. unfold sender.Send. rewrite Hp. reflexivity.
Qed.

End OrchestratorResults.

(** ** One chunk on the wire *)

Section SendChunk.
Import dto sender.

Variable net : Net.
Variable c : Client.

Lemma sendRaw_one (data : bytes) (log : list Request) :
  http_NewRequest_ok net (serverURL c) = true ->
  sendRaw net c data log
  = (answer (endpoint net log (rawRequest c data)) (len64 data),
     log ++ [rawRequest c data]).
Proof. intros Hurl. unfold sendRaw. rewrite Hurl. reflexivity. Qed.

Lemma sendWithGzip_one (data compressed : bytes) (log : list Request) :
  http_NewRequest_ok net (serverURL c) = true ->
  gzip_bytes net data = inr compressed ->
  sendWithGzip net c data log
  = (answer (endpoint net log (gzipRequest c compressed)) (len64 compressed),
     log ++ [gzipRequest c compressed]).
Proof. intros Hurl Hgz. unfold sendWithGzip. rewrite Hgz, Hurl. reflexivity. Qed.

End SendChunk.

Section SendChunkResults.
Import dto sender.


End SendChunkResults.

(** ** Reading the history *)

Section ReadRows.
Import dto browser.

Context {R : Type}.
Variable newer : R -> bool.
Variable leb : R -> R -> bool.
Variable url_of : R -> option string.
Variable unixMs : R -> Z.

Lemma insertBy_In (x y : R) (l : list R) :
  In y (insertBy leb x l) <-> y = x \/ In y l.
Proof.
  induction l as [|z l IH]; simpl.
  - intuition.
  - destruct (leb x z); simpl; [intuition|].
    rewrite IH. intuition.
Qed.

Lemma orderBy_In (y : R) (l : list R) : In y (orderBy leb l) <-> In y l.
Proof.
  induction l as [|x l IH]; simpl; [reflexivity|].
  rewrite insertBy_In, IH. intuition.
Qed.

Lemma insertBy_sorted (x : R) (l : list R) :
  agrees leb unixMs (x :: l) ->
  StronglySorted (fun a b => unixMs a <= unixMs b) l ->
  StronglySorted (fun a b => unixMs a <= unixMs b) (insertBy leb x l).
Proof.
  intros Hag Hs. induction Hs as [|z l Hs IH Hall]; simpl.
  - constructor; constructor.
  - destruct (leb x z) eqn:Hxz.
    + constructor; [constructor; assumption|].
      assert (Hx : unixMs x <= unixMs z).
      { apply (Hag x z); simpl; auto. }
      constructor; [exact Hx|].
      eapply List.Forall_impl; [|exact Hall]. simpl. intros; lia.
    + constructor.
      * apply IH. intros a b Ha Hb. apply Hag; simpl in *; intuition.
      * apply List.Forall_forall. intros y Hy. apply insertBy_In in Hy.
        destruct Hy as [->|Hy].
        -- apply (Hag x z); simpl; auto.
        -- rewrite List.Forall_forall in Hall. apply Hall, Hy.
Qed.

Lemma orderBy_sorted (l : list R) :
  agrees leb unixMs l -> StronglySorted (fun a b => unixMs a <= unixMs b) (orderBy leb l).
Proof.
  induction l as [|x l IH]; intros Hag; simpl; [constructor|].
  apply insertBy_sorted.
  - intros a b Ha Hb. apply Hag.
    + destruct Ha as [->|Ha]; [left; reflexivity|right; apply orderBy_In, Ha].
    + destruct Hb as [->|Hb]; [left; reflexivity|right; apply orderBy_In, Hb].
  - apply IH. intros a b Ha Hb. apply Hag; right; assumption.
Qed.

Lemma firstn_In {A} (l : list A) : forall n x, In x (firstn n l) -> In x l.
Proof.
  induction l as [|a l IH]; intros n x; destruct n; simpl; try contradiction.
  intros [H|H]; [left; exact H|right; eapply IH, H].
Qed.

Lemma firstn_sorted {A} (P : A -> A -> Prop) (l : list A) : forall n,
  StronglySorted P l -> StronglySorted P (firstn n l).
Proof.
  induction l as [|x l IH]; intros n Hs; destruct n; simpl; try constructor.
  - apply IH. inversion Hs; assumption.
  - inversion Hs as [|? ? _ Hall]; subst.
    apply List.Forall_forall. intros y Hy.
    rewrite List.Forall_forall in Hall. apply Hall.
    eapply firstn_In, Hy.
Qed.

Lemma fold_scanRow (l : list R) : forall sites,
  fold_left (scanRow url_of unixMs) l sites = sites ++ sitesOf url_of unixMs l.
Proof.
  induction l as [|r l IH]; intros sites; simpl.
  - rewrite app_nil_r. reflexivity.
  - rewrite IH. unfold scanRow. destruct (url_of r); simpl.
    + rewrite <- app_assoc. reflexivity.
    + reflexivity.
Qed.

Lemma sitesOf_In (l : list R) (site : VisitedSite) :
  In site (sitesOf url_of unixMs l) ->
  exists r, In r l /\ url_of r = Some (URL site) /\ Timestamp site = unixMs r.
Proof.
  unfold sitesOf. rewrite in_flat_map. intros (r & Hr & Hs).
  exists r. destruct (url_of r); simpl in Hs; [|contradiction].
  destruct Hs as [<-|[]]. auto.
Qed.

Lemma sitesOf_sorted (l : list R) :
  StronglySorted (fun a b => unixMs a <= unixMs b) l ->
  StronglySorted (fun a b => Timestamp a <= Timestamp b) (sitesOf url_of unixMs l).
Proof.
  induction 1 as [|r l Hs IH Hall]; simpl; [constructor|].
  assert (Hrest : Forall (fun b => unixMs r <= Timestamp b) (sitesOf url_of unixMs l)).
  { apply List.Forall_forall. intros site Hsite.
    apply sitesOf_In in Hsite. destruct Hsite as (r' & Hr' & _ & ->).
    rewrite List.Forall_forall in Hall. apply Hall, Hr'. }
  destruct (url_of r); simpl; [|exact IH].
  constructor; [exact IH|exact Hrest].
Qed.

Lemma delivered_In (l : list R) (rowsErr : option (nat * error)) (r : R) :
  In r (delivered l rowsErr) -> In r l.
Proof.
  unfold delivered. destruct rowsErr as [[n e]|]; [|auto].
  apply firstn_In.
Qed.

(** Every site returned comes from a row that passed the filter. *)
Lemma readRows_sound (rows : list R) (rowsErr : option (nat * error)) (site : VisitedSite) :
  In site (fst (readRows newer leb url_of unixMs (Table rows rowsErr))) ->
  exists r, In r rows /\ newer r = true
            /\ url_of r = Some (URL site) /\ Timestamp site = unixMs r.
Proof.
  simpl. rewrite fold_scanRow. simpl. intros H.
  apply sitesOf_In in H. destruct H as (r & Hr & Hu & Ht).
  apply delivered_In in Hr. unfold selectSince in Hr.
  apply (proj1 (orderBy_In _ _)) in Hr.
  apply (proj1 (List.filter_In _ _ _)) in Hr. destruct Hr as [Hr Hn].
  exists r. auto.
Qed.

(** The sites come in non-decreasing timestamp order as soon as the
    order of the query and the conversion agree on the rows selected. *)
Lemma readRows_sorted (rows : list R) (rowsErr : option (nat * error)) :
  agrees leb unixMs (List.filter newer rows) ->
  Sorted (fun a b => Timestamp a <= Timestamp b)
         (fst (readRows newer leb url_of unixMs (Table rows rowsErr))).
Proof.
  intros Hag. simpl. rewrite fold_scanRow. simpl.
  apply StronglySorted_Sorted, sitesOf_sorted.
  unfold delivered, selectSince.
  destruct rowsErr as [[n e]|]; [apply firstn_sorted|]; apply orderBy_sorted, Hag.
Qed.

End ReadRows.

(** ** binary64 arithmetic

    The operations of [SpecFloat] compute the rounding of the exact
    result, as long as it does not overflow. *)

Section Binary64.
Import SpecFloat binary64 browser.
Local Open Scope R_scope.

Lemma bpow_gt_0 e : 0 < bpow e.
Proof. apply powerRZ_lt. lra. Qed.

Lemma bpow_add e1 e2 : bpow (e1 + e2) = bpow e1 * bpow e2.
Proof. apply powerRZ_add. lra. Qed.

Lemma bpow_0 : bpow 0 = 1.
Proof. reflexivity. Qed.

Lemma bpow_1 : bpow 1 = 2.
Proof. unfold bpow. simpl. lra. Qed.

Lemma bpow_succ e : bpow (e + 1) = 2 * bpow e.
Proof. rewrite bpow_add, bpow_1. lra. Qed.


Lemma bpow_IZR k : (0 <= k)%Z -> bpow k = IZR (2 ^ k).
Proof.
  intros H. pattern k. apply natlike_ind; [reflexivity| |exact H].
  intros x Hx IH. unfold Z.succ. rewrite bpow_succ, IH, Z.pow_add_r by lia.
  rewrite mult_IZR. change (2 ^ 1)%Z with 2%Z. lra.
Qed.

Lemma bpow_ge_1 k : (0 <= k)%Z -> 1 <= bpow k.
Proof.
  intros H. rewrite bpow_IZR by exact H. apply IZR_le.
  pose proof (Z.pow_pos_nonneg 2 k). lia.
Qed.

Lemma bpow_le e1 e2 : (e1 <= e2)%Z -> bpow e1 <= bpow e2.
Proof.
  intros H. replace e2 with (e1 + (e2 - e1))%Z by lia. rewrite bpow_add.
  pose proof (bpow_ge_1 (e2 - e1) ltac:(lia)). pose proof (bpow_gt_0 e1). nra.
Qed.

Lemma bpow_lt e1 e2 : (e1 < e2)%Z -> bpow e1 < bpow e2.
Proof.
  intros H. replace e2 with (e1 + 1 + (e2 - e1 - 1))%Z by lia.
  rewrite bpow_add, bpow_succ.
  pose proof (bpow_ge_1 (e2 - e1 - 1) ltac:(lia)). pose proof (bpow_gt_0 e1). nra.
Qed.

Lemma bpow_lt_inv e1 e2 : bpow e1 < bpow e2 -> (e1 < e2)%Z.
Proof.
  intros H. destruct (Z_lt_le_dec e1 e2) as [|Hle]; [assumption|].
  apply bpow_le in Hle. lra.
Qed.

Lemma bpow_le_inv e1 e2 : bpow e1 <= bpow e2 -> (e1 <= e2)%Z.
Proof.
  intros H. destruct (Z_le_gt_dec e1 e2) as [|Hgt]; [assumption|].
  apply Z.gt_lt, bpow_lt in Hgt. lra.
Qed.

(** digits *)
Lemma digits_bounds m :
  (2 ^ (Zpos (digits2_pos m) - 1) <= Zpos m < 2 ^ Zpos (digits2_pos m))%Z.
Proof.
  induction m as [p IH|p IH|]; simpl digits2_pos.
  - rewrite Pos2Z.inj_succ.
    replace (Z.succ (Z.pos (digits2_pos p)) - 1)%Z with ((Z.pos (digits2_pos p) - 1) + 1)%Z by lia.
    unfold Z.succ. rewrite !Z.pow_add_r by lia. change (2 ^ 1)%Z with 2%Z.
    rewrite Pos2Z.inj_xI. lia.
  - rewrite Pos2Z.inj_succ.
    replace (Z.succ (Z.pos (digits2_pos p)) - 1)%Z with ((Z.pos (digits2_pos p) - 1) + 1)%Z by lia.
    unfold Z.succ. rewrite !Z.pow_add_r by lia. change (2 ^ 1)%Z with 2%Z.
    change (Z.pos p~0) with (2 * Z.pos p)%Z. lia.
  - simpl. lia.
Qed.

Lemma Zdigits2_bounds m : (0 < m)%Z ->
  (2 ^ (Zdigits2 m - 1) <= m < 2 ^ Zdigits2 m)%Z /\ (0 < Zdigits2 m)%Z.
Proof.
  destruct m as [|p|p]; try lia. intros _. simpl. split; [apply digits_bounds|lia].
Qed.

Lemma Zdigits2_unique m k : (0 < m)%Z -> (2 ^ (k - 1) <= m < 2 ^ k)%Z -> Zdigits2 m = k.
Proof.
  intros Hm [H1 H2]. destruct (Zdigits2_bounds m Hm) as [[H3 H4] H5].
  set (d := Zdigits2 m) in *.
  assert (Hk : (0 < k)%Z).
  { destruct (Z_lt_le_dec 0 k); [assumption|].
    destruct (Z.eq_dec k 0%Z) as [->|]; [simpl in H2; lia|].
    rewrite Z.pow_neg_r in H2 by lia. lia. }
  destruct (Z_lt_le_dec d k) as [Hlt|Hge].
  - assert (2 ^ d <= 2 ^ (k - 1))%Z by (apply Z.pow_le_mono_r; lia). lia.
  - destruct (Z.eq_dec d k); [assumption|].
    assert (2 ^ k <= 2 ^ (d - 1))%Z by (apply Z.pow_le_mono_r; lia). lia.
Qed.

Lemma Zdigits2_nonneg m : (0 <= Zdigits2 m)%Z.
Proof. destruct m; simpl; lia. Qed.

(** locations *)

Lemma loc_of_shr_record_of_loc m l :
  loc_of_shr_record (shr_record_of_loc m l) = l /\ shr_m (shr_record_of_loc m l) = m.
Proof. destruct l as [|[| |]]; split; reflexivity. Qed.

Lemma shr_1_spec m r s : (0 <= m)%Z ->
  shr_1 (Build_shr_record m r s) = Build_shr_record (m / 2) (Z.odd m) (r || s).
Proof.
  intros Hm.
  assert (Hdiv : forall p b, (0 <= b < 2)%Z -> ((2 * p + b) / 2 = p)%Z).
  { intros p b Hb. symmetry. apply (Z.div_unique _ 2 p b); lia. }
  destruct m as [|[p|p|]|p]; try lia; simpl shr_1.
  - reflexivity.
  - change (Z.pos p~1) with (2 * Z.pos p + 1)%Z. rewrite Hdiv by lia. reflexivity.
  - change (Z.pos p~0) with (2 * Z.pos p + 0)%Z. rewrite Hdiv by lia. reflexivity.
  - reflexivity.
Qed.

Lemma shr_1_locates mrs e x :
  (0 <= shr_m mrs)%Z ->
  locates (shr_m mrs) (loc_of_shr_record mrs) e x ->
  locates (shr_m (shr_1 mrs)) (loc_of_shr_record (shr_1 mrs)) (e + 1) x
  /\ shr_m (shr_1 mrs) = (shr_m mrs / 2)%Z.
Proof.
  destruct mrs as [m r s]. intros Hm H. change (0 <= m)%Z in Hm.
  rewrite shr_1_spec by exact Hm. cbn [shr_m] in *. split; [|reflexivity].
  pose proof (bpow_gt_0 e) as He.
  assert (Hm2 : IZR m = 2 * IZR (m / 2) + (if Z.odd m then 1 else 0)).
  { rewrite (Zdiv2_odd_eqn m) at 1. rewrite Z.div2_div, plus_IZR, mult_IZR.
    destruct (Z.odd m); simpl; lra. }
  set (q := IZR (m / 2)) in *.
  destruct (Z.odd m), r, s; unfold locates in *; cbn [loc_of_shr_record orb] in *;
    rewrite bpow_succ; rewrite Hm2 in H; fold q; try nra; try (split; nra).
Qed.

Lemma iter_shr_1_locates p : forall mrs e x,
  (0 <= shr_m mrs)%Z ->
  locates (shr_m mrs) (loc_of_shr_record mrs) e x ->
  locates (shr_m (iter_pos shr_1 p mrs)) (loc_of_shr_record (iter_pos shr_1 p mrs))
          (e + Zpos p) x
  /\ shr_m (iter_pos shr_1 p mrs) = (shr_m mrs / 2 ^ Zpos p)%Z.
Proof.
  induction p as [p IH|p IH|]; intros mrs e x Hm H; simpl iter_pos.
  - destruct (shr_1_locates mrs e x Hm H) as [H1 E1].
    assert (Hm1 : (0 <= shr_m (shr_1 mrs))%Z) by (rewrite E1; apply Z.div_pos; lia).
    destruct (IH _ _ _ Hm1 H1) as [H2 E2].
    assert (Hm2 : (0 <= shr_m (iter_pos shr_1 p (shr_1 mrs)))%Z)
      by (rewrite E2; apply Z.div_pos; [lia|apply Z.pow_pos_nonneg; lia]).
    destruct (IH _ _ _ Hm2 H2) as [H3 E3].
    split.
    + replace (e + Z.pos p~1)%Z with (e + 1 + Z.pos p + Z.pos p)%Z by lia. exact H3.
    + rewrite E3, E2, E1.
      assert (Hp : (0 < 2 ^ Z.pos p)%Z) by (apply Z.pow_pos_nonneg; lia).
      rewrite !Z.div_div by lia. f_equal.
      replace (Z.pos p~1) with (1 + Z.pos p + Z.pos p)%Z by lia.
      rewrite !Z.pow_add_r by lia. change (2 ^ 1)%Z with 2%Z. ring.
  - destruct (IH _ _ _ Hm H) as [H2 E2].
    assert (Hm2 : (0 <= shr_m (iter_pos shr_1 p mrs))%Z)
      by (rewrite E2; apply Z.div_pos; [lia|apply Z.pow_pos_nonneg; lia]).
    destruct (IH _ _ _ Hm2 H2) as [H3 E3].
    split.
    + replace (e + Z.pos p~0)%Z with (e + Z.pos p + Z.pos p)%Z by lia. exact H3.
    + rewrite E3, E2.
      assert (Hp : (0 < 2 ^ Z.pos p)%Z) by (apply Z.pow_pos_nonneg; lia).
      rewrite !Z.div_div by lia. f_equal.
      replace (Z.pos p~0) with (Z.pos p + Z.pos p)%Z by lia.
      rewrite Z.pow_add_r by lia. reflexivity.
  - destruct (shr_1_locates mrs e x Hm H) as [H1 E1]. split; [exact H1|].
    rewrite E1. reflexivity.
Qed.

(** what [shr] does to a located value *)
Lemma shr_locates m l e n x :
  (0 <= m)%Z -> locates m l e x ->
  let r := shr (shr_record_of_loc m l) e n in
  (0 < n)%Z ->
  locates (shr_m (fst r)) (loc_of_shr_record (fst r)) (e + n) x
  /\ shr_m (fst r) = (m / 2 ^ n)%Z /\ snd r = (e + n)%Z.
Proof.
  intros Hm H r Hn. destruct n as [|p|p]; try lia. subst r. simpl.
  destruct (loc_of_shr_record_of_loc m l) as [El Em].
  destruct (iter_shr_1_locates p (shr_record_of_loc m l) e x) as [H1 E1].
  - rewrite Em. exact Hm.
  - rewrite El, Em. exact H.
  - rewrite Em in E1. auto.
Qed.

(** round to nearest, ties to even *)
Lemma rne_cases q l :
  round_nearest_even q l = q \/ round_nearest_even q l = (q + 1)%Z.
Proof. destruct l as [|[| |]]; simpl; auto. destruct (Z.even q); auto. Qed.


Lemma rne_mono q1 l1 q2 l2 E x1 x2 :
  locates q1 l1 E x1 -> locates q2 l2 E x2 -> x1 <= x2 ->
  (round_nearest_even q1 l1 <= round_nearest_even q2 l2)%Z.
Proof.
  intros H1 H2 Hx. pose proof (bpow_gt_0 E) as HE.
  assert (Hlo1 : IZR q1 * bpow E <= x1 < (IZR q1 + 1) * bpow E).
  { destruct l1 as [|[| |]]; simpl in H1; nra. }
  assert (Hlo2 : IZR q2 * bpow E <= x2 < (IZR q2 + 1) * bpow E).
  { destruct l2 as [|[| |]]; simpl in H2; nra. }
  destruct (Z_lt_le_dec q1 q2) as [Hlt|Hge].
  - destruct (rne_cases q1 l1) as [->| ->]; destruct (rne_cases q2 l2) as [->| ->]; lia.
  - destruct (Z.eq_dec q1 q2) as [->|Hne].
    + destruct l1 as [|[| |]], l2 as [|[| |]]; simpl in *;
        try destruct (Z.even q2); try lia; exfalso; nra.
    + exfalso. assert (Hq : (q2 + 1 <= q1)%Z) by lia.
      apply IZR_le in Hq. rewrite plus_IZR in Hq. nra.
Qed.

Lemma fexp64_spec e : fexp64 e = Z.max (e - 53) (-1074).
Proof. reflexivity. Qed.

(** [v] is the rounding of the positive [x] *)

Lemma mag_le x1 x2 m1 m2 :
  bpow (m1 - 1) <= x1 < bpow m1 -> bpow (m2 - 1) <= x2 < bpow m2 -> x1 <= x2 ->
  (m1 <= m2)%Z.
Proof.
  intros H1 H2 Hx. assert (H : bpow (m1 - 1) < bpow m2) by lra.
  apply bpow_lt_inv in H. lia.
Qed.

Lemma rounded_nonneg x v : rounded x v -> 0 <= v.
Proof.
  intros (mag & q & l & _ & Hq & _ & ->).
  pose proof (bpow_gt_0 (fexp64 mag)).
  assert (0 <= round_nearest_even q l)%Z by (destruct (rne_cases q l) as [->| ->]; lia).
  apply IZR_le in H0. nra.
Qed.

Lemma rounded_mono x1 v1 x2 v2 :
  rounded x1 v1 -> rounded x2 v2 -> x1 <= x2 -> v1 <= v2.
Proof.
  intros (m1 & q1 & l1 & Hm1 & Hq1 & Hl1 & ->) (m2 & q2 & l2 & Hm2 & Hq2 & Hl2 & ->) Hx.
  pose proof (mag_le _ _ _ _ Hm1 Hm2 Hx) as Hmag.
  rewrite !fexp64_spec in *.
  set (E1 := Z.max (m1 - 53) (-1074)) in *. set (E2 := Z.max (m2 - 53) (-1074)) in *.
  pose proof (bpow_gt_0 E1) as HE1. pose proof (bpow_gt_0 E2) as HE2.
  destruct (Z.eq_dec E1 E2) as [E|NE].
  - rewrite E in *. apply Rmult_le_compat_r; [lra|]. apply IZR_le.
    apply (rne_mono q1 l1 q2 l2 E2 x1 x2); assumption.
  - assert (HE : (E1 < E2)%Z) by (unfold E1, E2 in *; lia).
    assert (Hm2' : (E2 = m2 - 53)%Z) by (unfold E1, E2 in *; lia).
    (* upper bound of v1 *)
    set (P := Z.max m1 E1).
    assert (HP : x1 <= bpow P).
    { apply Rle_trans with (bpow m1); [lra|]. apply bpow_le. unfold P. lia. }
    assert (HK : bpow P = IZR (2 ^ (P - E1)) * bpow E1).
    { rewrite <- bpow_IZR by (unfold P; lia). rewrite <- bpow_add. f_equal. lia. }
    assert (Hv1 : IZR (round_nearest_even q1 l1) * bpow E1 <= bpow P).
    { rewrite HK. apply Rmult_le_compat_r; [lra|]. apply IZR_le.
      apply (rne_mono q1 l1 (2 ^ (P - E1)) loc_Exact E1 x1 (bpow P));
        first [assumption | exact HK]. }
    (* lower bound of v2 *)
    assert (HK2 : bpow (m2 - 1) = IZR (2 ^ (m2 - 1 - E2)) * bpow E2).
    { rewrite <- bpow_IZR by lia. rewrite <- bpow_add. f_equal. lia. }
    assert (Hv2 : bpow (m2 - 1) <= IZR (round_nearest_even q2 l2) * bpow E2).
    { rewrite HK2. apply Rmult_le_compat_r; [lra|]. apply IZR_le.
      apply (rne_mono (2 ^ (m2 - 1 - E2)) loc_Exact q2 l2 E2 (bpow (m2 - 1)) x2);
        first [assumption | exact HK2 | lra]. }
    assert (HPm : bpow P <= bpow (m2 - 1)).
    { apply bpow_le. unfold P, E1, E2 in *. lia. }
    lra.
Qed.


(** a value held exactly at its exponent is its own rounding *)
Lemma rounded_exact x mag K :
  bpow (mag - 1) <= x < bpow mag -> (0 <= K)%Z -> x = IZR K * bpow (fexp64 mag) ->
  rounded x x.
Proof.
  intros Hm HK Hx. exists mag, K, loc_Exact. repeat split; try lra; try assumption.
Qed.

Lemma rounded_unique x v1 v2 : rounded x v1 -> rounded x v2 -> v1 = v2.
Proof.
  intros H1 H2. apply Rle_antisym; eapply rounded_mono; eauto; lra.
Qed.

(** values of floats *)

Lemma SF2R_finite s m e : SF2R (S754_finite s m e) = sgn s (IZR (Zpos m) * bpow e).
Proof.
  unfold SF2R, sgn, cond_Zopp. destruct s; [|reflexivity].
  rewrite opp_IZR. ring.
Qed.

Lemma shr_fexp_noshift m e l :
  (fexp64 (Zdigits2 m + e) <= e)%Z ->
  shr_fexp 53 1024 m e l = (shr_record_of_loc m l, e).
Proof.
  intros H. unfold shr_fexp, shr. fold (fexp64 (Zdigits2 m + e)).
  destruct (fexp64 (Zdigits2 m + e) - e)%Z eqn:En; try reflexivity. lia.
Qed.

Lemma finish_round s n E :
  (0 <= n <= 2 ^ 53)%Z -> (-1074 <= E <= 970)%Z ->
  let r := (let '(mrs'', e'') := shr_fexp 53 1024 n E loc_Exact in
            match shr_m mrs'' with
            | Z0 => S754_zero s
            | Zpos m => if Z.leb e'' (1024 - 53) then S754_finite s m e'' else S754_infinity s
            | _ => S754_nan
            end) in
  SFfinite r = true /\ SF2R r = sgn s (IZR n * bpow E).
Proof.
  intros HR HE r. subst r.
  destruct (Z.eq_dec n 0%Z) as [->|H0].
  - rewrite shr_fexp_noshift by (rewrite fexp64_spec; simpl Zdigits2; lia).
    simpl. split; [reflexivity|]. destruct s; simpl; lra.
  - destruct (Z.eq_dec n (2 ^ 53)%Z) as [->|H53].
    + unfold shr_fexp. change (Zdigits2 (2 ^ 53)) with 54%Z.
      fold (fexp64 (54 + E)). rewrite fexp64_spec.
      replace (Z.max (54 + E - 53) (-1074) - E)%Z with 1%Z by lia.
      cbn [shr shr_record_of_loc iter_pos].
      change (shr_1 {| shr_m := 2 ^ 53; shr_r := false; shr_s := false |})
        with {| shr_m := 2 ^ 52; shr_r := false; shr_s := false |}.
      cbn [shr_m]. change (2 ^ 52)%Z with (Z.pos (2 ^ 52)).
      cbv iota beta.
      replace (E + 1 <=? 1024 - 53)%Z with true by (symmetry; apply Z.leb_le; lia).
      split; [reflexivity|]. rewrite SF2R_finite. f_equal.
      rewrite bpow_succ. change (IZR (2 ^ 53)) with (IZR (2 * 2 ^ 52)).
      rewrite mult_IZR. change (Z.pos (2 ^ 52)) with (2 ^ 52)%Z. ring.
    + assert (Hd : (Zdigits2 n <= 53)%Z).
      { destruct (Zdigits2_bounds n ltac:(lia)) as [[H1 H2] H3].
        destruct (Z_le_gt_dec (Zdigits2 n) 53); [assumption|].
        assert (2 ^ 53 <= 2 ^ (Zdigits2 n - 1))%Z by (apply Z.pow_le_mono_r; lia). lia. }
      rewrite shr_fexp_noshift by (rewrite fexp64_spec; lia).
      cbn [shr_record_of_loc shr_m]. destruct n as [|p|p]; try lia.
      replace (E <=? 1024 - 53)%Z with true by (symmetry; apply Z.leb_le; lia).
      split; [reflexivity|]. apply SF2R_finite.
Qed.

Lemma located_bounds m l e x :
  (0 < m)%Z -> locates m l e x ->
  bpow (Zdigits2 m + e - 1) <= x < bpow (Zdigits2 m + e).
Proof.
  intros Hm H. pose proof (bpow_gt_0 e) as He.
  destruct (Zdigits2_bounds m Hm) as [[H1 H2] H3].
  assert (Hlo : IZR m * bpow e <= x < (IZR m + 1) * bpow e).
  { destruct l as [|[| |]]; simpl in H; nra. }
  replace (Zdigits2 m + e - 1)%Z with ((Zdigits2 m - 1) + e)%Z by lia.
  rewrite !bpow_add, (bpow_IZR (Zdigits2 m - 1)), (bpow_IZR (Zdigits2 m)) by lia.
  apply IZR_le in H1. assert (H2' : (m + 1 <= 2 ^ Zdigits2 m)%Z) by lia.
  apply IZR_le in H2'. rewrite plus_IZR in H2'. split; nra.
Qed.

Theorem binary_round_aux_correct s m e l x :
  (0 < m)%Z -> locates m l e x ->
  (Zdigits2 m + e <= 1023)%Z ->
  (e <= fexp64 (Zdigits2 m + e) \/ (l = loc_Exact /\ e <= 971))%Z ->
  exists v, rounded x v
    /\ SFfinite (binary_round_aux 53 1024 s m e l) = true
    /\ SF2R (binary_round_aux 53 1024 s m e l) = sgn s v.
Proof.
  intros Hm Hl Hmag Hcase.
  pose proof (located_bounds m l e x Hm Hl) as Hb.
  destruct (Zdigits2_bounds m Hm) as [[Hd1 Hd2] Hd3].
  set (d := Zdigits2 m) in *. set (E := fexp64 (d + e)) in *.
  assert (HE : (E = Z.max (d + e - 53) (-1074))%Z) by reflexivity.
  unfold binary_round_aux.
  destruct (Z_lt_le_dec e E) as [Hlt|Hge].
  - (* the mantissa is shifted to the exponent E *)
    destruct (shr_locates m l e (E - e) x ltac:(lia) Hl ltac:(lia)) as (H1 & H2 & H3).
    unfold shr_fexp. fold d. fold (fexp64 (d + e)). fold E.
    destruct (shr (shr_record_of_loc m l) e (E - e)) as [mrs' e'].
    simpl fst in *. simpl snd in *. subst e'.
    replace (e + (E - e))%Z with E in * by lia.
    set (q := shr_m mrs') in *. set (l' := loc_of_shr_record mrs') in *.
    assert (Hq : (0 <= q < 2 ^ 53)%Z).
    { rewrite H2. split; [apply Z.div_pos; [lia|apply Z.pow_pos_nonneg; lia]|].
      apply Z.div_lt_upper_bound; [apply Z.pow_pos_nonneg; lia|].
      destruct (Z_le_gt_dec (E - e) d).
      - rewrite <- Z.pow_add_r by lia.
        assert (2 ^ d <= 2 ^ (E - e + 53))%Z by (apply Z.pow_le_mono_r; lia). lia.
      - assert (2 ^ d <= 2 ^ (E - e))%Z by (apply Z.pow_le_mono_r; lia).
        assert (0 < 2 ^ 53)%Z by lia. nia. }
    exists (IZR (round_nearest_even q l') * bpow E). split.
    + exists (d + e)%Z, q, l'. repeat split; try lra; try lia; exact H1.
    + apply finish_round; [|lia].
      destruct (rne_cases q l') as [->| ->]; lia.
  - (* the mantissa stays *)
    rewrite shr_fexp_noshift by (fold d; lia).
    destruct (loc_of_shr_record_of_loc m l) as [El Em]. rewrite El, Em.
    destruct (Z.eq_dec e E) as [Ee|Ne].
    + (* already at the exponent E *)
      assert (Hq : (m < 2 ^ 53)%Z).
      { assert (2 ^ d <= 2 ^ 53)%Z by (apply Z.pow_le_mono_r; lia). lia. }
      exists (IZR (round_nearest_even m l) * bpow e). split.
      * exists (d + e)%Z, m, l. fold E. rewrite <- Ee.
        repeat split; try lra; try lia; exact Hl.
      * apply finish_round; [|lia].
        destruct (rne_cases m l) as [->| ->]; lia.
    + (* an exact value above its exponent *)
      destruct Hcase as [Hc|[-> He]]; [lia|].
      simpl in Hl. simpl round_nearest_even.
      rewrite shr_fexp_noshift by (fold d; lia).
      cbn [shr_record_of_loc shr_m]. destruct m as [|p|p]; try lia.
      replace (e <=? 1024 - 53)%Z with true by (symmetry; apply Z.leb_le; lia).
      exists x. split.
      * apply (rounded_exact x (d + e) (Z.pos p * 2 ^ (e - E))); [lra| |].
        -- apply Z.mul_nonneg_nonneg; [lia|apply Z.pow_nonneg; lia].
        -- fold E. rewrite mult_IZR, <- bpow_IZR by lia.
           rewrite Rmult_assoc, <- bpow_add. replace (e - E + E)%Z with e by lia.
           exact Hl.
      * split; [reflexivity|]. rewrite SF2R_finite, Hl. reflexivity.
Qed.

Lemma Zdigits2_shift m k : (0 < m)%Z -> (0 <= k)%Z ->
  Zdigits2 (m * 2 ^ k) = (Zdigits2 m + k)%Z.
Proof.
  intros Hm Hk. destruct (Zdigits2_bounds m Hm) as [[H1 H2] H3].
  assert (Hp : (0 < 2 ^ k)%Z) by (apply Z.pow_pos_nonneg; lia).
  apply Zdigits2_unique; [nia|].
  replace (Zdigits2 m + k - 1)%Z with ((Zdigits2 m - 1) + k)%Z by lia.
  rewrite !Z.pow_add_r by lia. nia.
Qed.

Lemma shl_align_spec mx ex ex' :
  let r := shl_align mx ex ex' in
  snd r = Z.min ex ex'
  /\ Zpos (fst r) = (Zpos mx * 2 ^ (ex - snd r))%Z.
Proof.
  unfold shl_align. destruct (ex' - ex)%Z as [|d|d] eqn:E; cbn [fst snd].
  - split; [lia|]. replace (ex - ex)%Z with 0%Z by lia. change (2 ^ 0)%Z with 1%Z. lia.
  - split; [lia|]. replace (ex - ex)%Z with 0%Z by lia. change (2 ^ 0)%Z with 1%Z. lia.
  - split; [lia|]. change (Pos.iter xO mx d) with (shift_pos d mx).
    rewrite shift_pos_correct. replace (ex - ex')%Z with (Z.pos d) by lia.
    change (Z.pow_pos 2 d) with (2 ^ Z.pos d)%Z. ring.
Qed.

Lemma shl_align_value mx ex ex' :
  IZR (Zpos (fst (shl_align mx ex ex'))) * bpow (snd (shl_align mx ex ex'))
  = IZR (Zpos mx) * bpow ex.
Proof.
  destruct (shl_align_spec mx ex ex') as [H1 H2]. rewrite H2, mult_IZR.
  rewrite <- bpow_IZR by lia. rewrite Rmult_assoc, <- bpow_add.
  f_equal. f_equal. lia.
Qed.

Theorem binary_round_correct s mx ex :
  (Zdigits2 (Zpos mx) + ex <= 1023)%Z ->
  exists v, rounded (IZR (Zpos mx) * bpow ex) v
    /\ SFfinite (binary_round 53 1024 s mx ex) = true
    /\ SF2R (binary_round 53 1024 s mx ex) = sgn s v.
Proof.
  intros Hmag. unfold binary_round.
  change (Z.pos (digits2_pos mx)) with (Zdigits2 (Zpos mx)).
  fold (fexp64 (Zdigits2 (Z.pos mx) + ex)).
  pose proof (shl_align_spec mx ex (fexp64 (Zdigits2 (Z.pos mx) + ex))) as [H1 H2].
  pose proof (shl_align_value mx ex (fexp64 (Zdigits2 (Z.pos mx) + ex))) as Hv.
  destruct (shl_align mx ex (fexp64 (Zdigits2 (Z.pos mx) + ex))) as [mz ez].
  simpl fst in *. simpl snd in *.
  assert (Hd : (Zdigits2 (Z.pos mz) + ez = Zdigits2 (Z.pos mx) + ex)%Z).
  { rewrite H2, Zdigits2_shift by lia. lia. }
  apply binary_round_aux_correct.
  - lia.
  - simpl. symmetry. exact Hv.
  - lia.
  - left. rewrite Hd. lia.
Qed.

(** rounding of a signed value *)

Lemma Rnd_mono x1 v1 x2 v2 : Rnd x1 v1 -> Rnd x2 v2 -> x1 <= x2 -> v1 <= v2.
Proof.
  intros [[E1 V1]|[[P1 R1]|[N1 R1]]] [[E2 V2]|[[P2 R2]|[N2 R2]]] Hx;
    try (pose proof (rounded_nonneg _ _ R1)); try (pose proof (rounded_nonneg _ _ R2));
    try lra.
  - eapply rounded_mono; eauto.
  - assert (- v2 <= - v1) by (eapply rounded_mono; eauto; lra). lra.
Qed.



Lemma Rnd_sgn s x v : 0 < x -> rounded x v -> Rnd (sgn s x) (sgn s v).
Proof.
  intros Hx H. destruct s; simpl.
  - right. right. split; [lra|]. rewrite !Ropp_involutive. exact H.
  - right. left. auto.
Qed.

Theorem binary_normalize_correct M e sz :
  Rabs (IZR M * bpow e) < bpow 1023 ->
  SFfinite (binary_normalize 53 1024 M e sz) = true
  /\ Rnd (IZR M * bpow e) (SF2R (binary_normalize 53 1024 M e sz)).
Proof.
  intros Hb. pose proof (bpow_gt_0 e) as He.
  assert (Hpos : forall p, Rabs (IZR M * bpow e) = IZR (Z.pos p) * bpow e ->
            (Zdigits2 (Z.pos p) + e <= 1023)%Z).
  { intros p Ep. rewrite Ep in Hb.
    destruct (located_bounds (Z.pos p) loc_Exact e _ ltac:(lia) eq_refl) as [H1 _].
    assert (H : bpow (Zdigits2 (Z.pos p) + e - 1) < bpow 1023) by lra.
    apply bpow_lt_inv in H. lia. }
  destruct M as [|p|p]; simpl binary_normalize.
  - split; [reflexivity|]. left. simpl. split; ring.
  - destruct (binary_round_correct false p e) as (v & Hr & Hf & Hv).
    { apply Hpos. apply Rabs_pos_eq. apply Rmult_le_pos; [apply IZR_le; lia|lra]. }
    split; [exact Hf|]. rewrite Hv. simpl. right. left. split; [|exact Hr].
    apply Rmult_lt_0_compat; [apply IZR_lt; lia|lra].
  - destruct (binary_round_correct true p e) as (v & Hr & Hf & Hv).
    { apply Hpos. change (Z.neg p) with (- Z.pos p)%Z. rewrite opp_IZR.
      rewrite Ropp_mult_distr_l_reverse, Rabs_Ropp. apply Rabs_pos_eq.
      apply Rmult_le_pos; [apply IZR_le; lia|lra]. }
    split; [exact Hf|]. rewrite Hv.
    change (Z.neg p) with (- Z.pos p)%Z. rewrite opp_IZR, Ropp_mult_distr_l_reverse.
    apply (Rnd_sgn true); [|exact Hr].
    apply Rmult_lt_0_compat; [apply IZR_lt; lia|lra].
Qed.

(** valid floats *)

Lemma valid_finite_spec s m e :
  SFvalid (S754_finite s m e) ->
  fexp64 (Zdigits2 (Zpos m) + e) = e /\ (e <= 971)%Z.
Proof.
  unfold SFvalid, valid_binary, bounded, canonical_mantissa. intros H.
  apply andb_prop in H. destruct H as [H1 H2].
  apply Z.eqb_eq in H1. apply Z.leb_le in H2. split; [exact H1|exact H2].
Qed.

Lemma valid_finite_rounded s m e :
  SFvalid (S754_finite s m e) ->
  rounded (IZR (Zpos m) * bpow e) (IZR (Zpos m) * bpow e).
Proof.
  intros H. destruct (valid_finite_spec s m e H) as [Hc He].
  pose proof (located_bounds (Zpos m) loc_Exact e _ ltac:(lia) eq_refl) as Hb.
  apply (rounded_exact _ (Zdigits2 (Z.pos m) + e) (Zpos m)); [exact Hb|lia|].
  rewrite Hc. reflexivity.
Qed.

Lemma valid_Rnd f : SFvalid f -> Rnd (SF2R f) (SF2R f).
Proof.
  destruct f as [s|s| |s m e]; intros H; try (left; simpl; split; reflexivity).
  rewrite SF2R_finite. apply Rnd_sgn; [|apply (valid_finite_rounded s), H].
  apply Rmult_lt_0_compat; [apply IZR_lt; lia|apply bpow_gt_0].
Qed.

Lemma valid_bound f : SFvalid f -> Rabs (SF2R f) < bpow 1024.
Proof.
  destruct f as [s|s| |s m e]; intros H; simpl SF2R; try (rewrite Rabs_R0; apply bpow_gt_0).
  destruct (valid_finite_spec s m e H) as [Hc He].
  pose proof (located_bounds (Zpos m) loc_Exact e _ ltac:(lia) eq_refl) as [_ Hb].
  assert (Hd : (Zdigits2 (Z.pos m) + e <= 1024)%Z) by (rewrite fexp64_spec in Hc; lia).
  apply bpow_le in Hd.
  assert (Habs : Rabs (IZR (cond_Zopp s (Z.pos m)) * bpow e) = IZR (Z.pos m) * bpow e).
  { pose proof (bpow_gt_0 e). destruct s; simpl cond_Zopp.
    - change (- Z.pos m)%Z with (Z.neg m). change (Z.neg m) with (- Z.pos m)%Z.
      rewrite opp_IZR, Ropp_mult_distr_l_reverse, Rabs_Ropp.
      apply Rabs_pos_eq. apply Rmult_le_pos; [apply IZR_le; lia|lra].
    - apply Rabs_pos_eq. apply Rmult_le_pos; [apply IZR_le; lia|lra]. }
  rewrite Habs. lra.
Qed.

Lemma IZR_cond_Zopp s z : IZR (cond_Zopp s z) = sgn s (IZR z).
Proof. destruct s; simpl; [apply opp_IZR|reflexivity]. Qed.

Lemma sgn_mult s v w : sgn s v * w = sgn s (v * w).
Proof. destruct s; simpl; ring. Qed.

Theorem SFadd_correct a b :
  SFvalid a -> SFvalid b -> SFfinite a = true -> SFfinite b = true ->
  Rabs (SF2R a + SF2R b) < bpow 1023 ->
  SFfinite (SFadd 53 1024 a b) = true
  /\ Rnd (SF2R a + SF2R b) (SF2R (SFadd 53 1024 a b)).
Proof.
  intros Va Vb Fa Fb Hb.
  destruct a as [sa|sa| |sa ma ea], b as [sb|sb| |sb mb eb]; try discriminate.
  - split; [destruct sa, sb; reflexivity|].
    left. split; [simpl; ring|destruct sa, sb; reflexivity].
  - split; [reflexivity|]. cbn [SFadd]. replace (SF2R (S754_zero sa)) with 0 by reflexivity.
    rewrite Rplus_0_l. apply valid_Rnd, Vb.
  - split; [reflexivity|]. cbn [SFadd]. replace (SF2R (S754_zero sb)) with 0 by reflexivity.
    rewrite Rplus_0_r. apply valid_Rnd, Va.
  - cbn [SFadd].
    set (ez := Z.min ea eb) in *.
    destruct (shl_align_spec ma ea ez) as [Ha1 Ha2].
    destruct (shl_align_spec mb eb ez) as [Hb1 Hb2].
    pose proof (shl_align_value ma ea ez) as Hva.
    pose proof (shl_align_value mb eb ez) as Hvb.
    rewrite Ha1 in Hva. rewrite Hb1 in Hvb.
    replace (Z.min ea ez) with ez in * by (unfold ez; lia).
    replace (Z.min eb ez) with ez in * by (unfold ez; lia).
    set (M := (cond_Zopp sa (Z.pos (fst (shl_align ma ea ez)))
               + cond_Zopp sb (Z.pos (fst (shl_align mb eb ez))))%Z).
    assert (HM : IZR M * bpow ez
                 = SF2R (S754_finite sa ma ea) + SF2R (S754_finite sb mb eb)).
    { unfold M. rewrite plus_IZR, !IZR_cond_Zopp, Rmult_plus_distr_r, !sgn_mult.
      rewrite Hva, Hvb, !SF2R_finite. reflexivity. }
    rewrite <- HM in *. apply binary_normalize_correct. exact Hb.
Qed.

Theorem SFmul_correct a b :
  SFfinite a = true -> SFfinite b = true ->
  (SFexp a + SFexp b <= 971)%Z ->
  Rabs (SF2R a * SF2R b) < bpow 1023 ->
  SFfinite (SFmul 53 1024 a b) = true
  /\ Rnd (SF2R a * SF2R b) (SF2R (SFmul 53 1024 a b)).
Proof.
  intros Fa Fb He Hb.
  destruct a as [sa|sa| |sa ma ea], b as [sb|sb| |sb mb eb]; try discriminate;
    try (split; [reflexivity|]; left; split; simpl; ring).
  cbn [SFmul]. simpl in He.
  assert (Hx : SF2R (S754_finite sa ma ea) * SF2R (S754_finite sb mb eb)
               = sgn (xorb sa sb) (IZR (Z.pos (ma * mb)) * bpow (ea + eb))).
  { rewrite !SF2R_finite, Pos2Z.inj_mul, mult_IZR, bpow_add.
    destruct sa, sb; simpl; ring. }
  rewrite Hx in *.
  assert (Hpos : 0 < IZR (Z.pos (ma * mb)) * bpow (ea + eb)).
  { apply Rmult_lt_0_compat; [apply IZR_lt; lia|apply bpow_gt_0]. }
  destruct (binary_round_aux_correct (xorb sa sb) (Z.pos (ma * mb)) (ea + eb) loc_Exact
              (IZR (Z.pos (ma * mb)) * bpow (ea + eb))) as (v & Hr & Hf & Hv).
  - lia.
  - reflexivity.
  - destruct (located_bounds (Z.pos (ma * mb)) loc_Exact (ea + eb) _ ltac:(lia) eq_refl)
      as [H1 _].
    assert (Habs : Rabs (sgn (xorb sa sb) (IZR (Z.pos (ma * mb)) * bpow (ea + eb)))
                   = IZR (Z.pos (ma * mb)) * bpow (ea + eb)).
    { destruct (xorb sa sb); simpl; [rewrite Rabs_Ropp|]; apply Rabs_pos_eq; lra. }
    rewrite Habs in Hb.
    assert (H : bpow (Zdigits2 (Z.pos (ma * mb)) + (ea + eb) - 1) < bpow 1023) by lra.
    apply bpow_lt_inv in H. lia.
  - right. split; [reflexivity|lia].
  - split; [exact Hf|]. rewrite Hv. apply Rnd_sgn; assumption.
Qed.

(** order *)
Lemma canonical_lt m1 e1 m2 e2 :
  fexp64 (Zdigits2 (Zpos m1) + e1) = e1 -> fexp64 (Zdigits2 (Zpos m2) + e2) = e2 ->
  (e1 < e2)%Z -> IZR (Zpos m1) * bpow e1 < IZR (Zpos m2) * bpow e2.
Proof.
  intros H1 H2 He. rewrite fexp64_spec in H1, H2.
  destruct (located_bounds (Zpos m1) loc_Exact e1 _ ltac:(lia) eq_refl) as [_ Hu].
  destruct (located_bounds (Zpos m2) loc_Exact e2 _ ltac:(lia) eq_refl) as [Hl _].
  assert (Hle : bpow (Zdigits2 (Z.pos m1) + e1) <= bpow (Zdigits2 (Z.pos m2) + e2 - 1))
    by (apply bpow_le; lia).
  lra.
Qed.

Theorem SFcompare_correct a b :
  SFvalid a -> SFvalid b -> SFfinite a = true -> SFfinite b = true ->
  match SFcompare a b with
  | Some Lt => SF2R a < SF2R b
  | Some Eq => SF2R a = SF2R b
  | Some Gt => SF2R b < SF2R a
  | None => False
  end.
Proof.
  intros Va Vb Fa Fb.
  assert (Hp : forall m e, 0 < IZR (Z.pos m) * bpow e).
  { intros m e. apply Rmult_lt_0_compat; [apply IZR_lt; lia|apply bpow_gt_0]. }
  destruct a as [sa|sa| |sa ma ea], b as [sb|sb| |sb mb eb]; try discriminate.
  - reflexivity.
  - simpl SFcompare. rewrite SF2R_finite. pose proof (Hp mb eb).
    destruct sb; simpl; lra.
  - simpl SFcompare. rewrite SF2R_finite. pose proof (Hp ma ea).
    destruct sa; simpl; lra.
  - destruct (valid_finite_spec _ _ _ Va) as [Ca _].
    destruct (valid_finite_spec _ _ _ Vb) as [Cb _].
    pose proof (Hp ma ea) as Pa. pose proof (Hp mb eb) as Pb.
    rewrite !SF2R_finite. cbn [SFcompare].
    assert (Hcmp : match Z.compare ea eb with
                   | Lt => IZR (Z.pos ma) * bpow ea < IZR (Z.pos mb) * bpow eb
                   | Gt => IZR (Z.pos mb) * bpow eb < IZR (Z.pos ma) * bpow ea
                   | Eq => match Pos.compare_cont Eq ma mb with
                           | Lt => IZR (Z.pos ma) * bpow ea < IZR (Z.pos mb) * bpow eb
                           | Gt => IZR (Z.pos mb) * bpow eb < IZR (Z.pos ma) * bpow ea
                           | Eq => IZR (Z.pos ma) * bpow ea = IZR (Z.pos mb) * bpow eb
                           end
                   end).
    { destruct (Z.compare_spec ea eb) as [E|L|G].
      - subst eb. rewrite Pos.compare_cont_spec. simpl Pos.switch_Eq.
        pose proof (bpow_gt_0 ea).
        destruct (Pos.compare_spec ma mb) as [E|L|G].
        + subst. reflexivity.
        + apply Rmult_lt_compat_r; [lra|]. apply IZR_lt. lia.
        + apply Rmult_lt_compat_r; [lra|]. apply IZR_lt. lia.
      - apply canonical_lt; assumption.
      - apply canonical_lt; assumption. }
    destruct sa, sb; simpl sgn; try lra;
      destruct (Z.compare ea eb); try (simpl; lra);
      destruct (Pos.compare_cont Eq ma mb); simpl; lra.
Qed.

Lemma SFleb_correct a b :
  SFvalid a -> SFvalid b -> SFfinite a = true -> SFfinite b = true ->
  if SFleb a b then SF2R a <= SF2R b else SF2R b < SF2R a.
Proof.
  intros Va Vb Fa Fb. pose proof (SFcompare_correct a b Va Vb Fa Fb) as H.
  unfold SFleb. destruct (SFcompare a b) as [[| |]|]; try lra; try contradiction.
Qed.

Lemma SFltb_correct a b :
  SFvalid a -> SFvalid b -> SFfinite a = true -> SFfinite b = true ->
  if SFltb a b then SF2R a < SF2R b else SF2R b <= SF2R a.
Proof.
  intros Va Vb Fa Fb. pose proof (SFcompare_correct a b Va Vb Fa Fb) as H.
  unfold SFltb. destruct (SFcompare a b) as [[| |]|]; try lra; try contradiction.
Qed.

(** truncation *)

Lemma SFtrunc_spec f :
  (0 <= SF2R f -> IZR (SFtrunc f) <= SF2R f < IZR (SFtrunc f) + 1)
  /\ (SF2R f <= 0 -> IZR (SFtrunc f) - 1 < SF2R f <= IZR (SFtrunc f)).
Proof.
  destruct f as [s|s| |s m e]; try (simpl; split; intros; lra).
  rewrite SF2R_finite. cbn [SFtrunc].
  set (mag := if (0 <=? e)%Z then (Z.pos m * 2 ^ e)%Z else (Z.pos m / 2 ^ (- e))%Z).
  set (x := IZR (Z.pos m) * bpow e).
  assert (Hx : 0 < x).
  { apply Rmult_lt_0_compat; [apply IZR_lt; lia|apply bpow_gt_0]. }
  assert (Hmag : IZR mag <= x < IZR mag + 1).
  { unfold mag. destruct (Z.leb_spec 0 e) as [He|He].
    - rewrite mult_IZR, <- bpow_IZR by lia. fold x. lra.
    - assert (Hp : (0 < 2 ^ (- e))%Z) by (apply Z.pow_pos_nonneg; lia).
      pose proof (Z.div_mod (Z.pos m) (2 ^ (- e)) ltac:(lia)) as Hdm.
      pose proof (Z.mod_pos_bound (Z.pos m) (2 ^ (- e)) Hp) as Hmod.
      set (q := (Z.pos m / 2 ^ (- e))%Z) in *. set (r := (Z.pos m mod 2 ^ (- e))%Z) in *.
      assert (Hb : IZR (2 ^ (- e)) * bpow e = 1).
      { rewrite <- bpow_IZR by lia. rewrite <- bpow_add.
        replace (- e + e)%Z with 0%Z by lia. reflexivity. }
      unfold x. rewrite Hdm, plus_IZR, mult_IZR.
      pose proof (bpow_gt_0 e) as Hbe.
      assert (Hr : 0 <= IZR r * bpow e < 1).
      { destruct Hmod as [Hr0 Hr1]. apply IZR_le in Hr0. apply IZR_lt in Hr1.
        split; [apply Rmult_le_pos; lra|]. rewrite <- Hb.
        apply Rmult_lt_compat_r; lra. }
      replace ((IZR (2 ^ (- e)) * IZR q + IZR r) * bpow e)
        with (IZR q * (IZR (2 ^ (- e)) * bpow e) + IZR r * bpow e) by ring.
      rewrite Hb. lra. }
  destruct s; simpl sgn; rewrite ?opp_IZR; split; intros; lra.
Qed.

Lemma SFtrunc_mono a b : SF2R a <= SF2R b -> (SFtrunc a <= SFtrunc b)%Z.
Proof.
  intros H. destruct (SFtrunc_spec a) as [Pa Na]. destruct (SFtrunc_spec b) as [Pb Nb].
  destruct (Rle_lt_dec 0 (SF2R a)) as [Ha|Ha].
  - specialize (Pa Ha). specialize (Pb ltac:(lra)).
    assert (Hlt : IZR (SFtrunc a) < IZR (SFtrunc b + 1)) by (rewrite plus_IZR; lra).
    apply lt_IZR in Hlt. lia.
  - specialize (Na ltac:(lra)).
    destruct (Rle_lt_dec 0 (SF2R b)) as [Hb|Hb].
    + specialize (Pb Hb).
      assert (H1 : IZR (SFtrunc a) < IZR 1) by lra. apply lt_IZR in H1.
      assert (H2 : IZR (-1) < IZR (SFtrunc b)) by lra. apply lt_IZR in H2. lia.
    + specialize (Nb ltac:(lra)).
      assert (Hlt : IZR (SFtrunc a - 1) < IZR (SFtrunc b)) by (rewrite minus_IZR; lra).
      apply lt_IZR in Hlt. lia.
Qed.





(** ** binary64 values *)

Lemma Prim_valid f : SFvalid (Prim2SF f).
Proof. exact (Prim2SF_valid f). Qed.

Lemma add_correct x y :
  finite64 x = true -> finite64 y = true -> Rabs (B2R x + B2R y) < bpow 1023 ->
  finite64 (x + y) = true /\ Rnd (B2R x + B2R y) (B2R (x + y)).
Proof.
  unfold finite64, B2R. rewrite FloatAxioms.add_spec. apply SFadd_correct; apply Prim_valid.
Qed.


Lemma SFexp_valid f : SFvalid f -> (SFexp f <= 971)%Z.
Proof.
  destruct f as [s|s| |s m e]; simpl; try lia. intros H.
  apply (valid_finite_spec s m e H).
Qed.

Lemma mul_correct x y :
  finite64 x = true -> finite64 y = true -> (SFexp (Prim2SF y) <= 0)%Z ->
  Rabs (B2R x * B2R y) < bpow 1023 ->
  finite64 (x * y) = true /\ Rnd (B2R x * B2R y) (B2R (x * y)).
Proof.
  unfold finite64, B2R. rewrite FloatAxioms.mul_spec. intros Fx Fy He Hb.
  apply SFmul_correct; try assumption.
  pose proof (SFexp_valid _ (Prim_valid x)). lia.
Qed.


Lemma leb_correct x y :
  finite64 x = true -> finite64 y = true ->
  if PrimFloat.leb x y then B2R x <= B2R y else B2R y < B2R x.
Proof.
  unfold finite64, B2R. rewrite FloatAxioms.leb_spec. apply SFleb_correct; apply Prim_valid.
Qed.

Lemma ltb_correct x y :
  finite64 x = true -> finite64 y = true ->
  if PrimFloat.ltb x y then B2R x < B2R y else B2R y <= B2R x.
Proof.
  unfold finite64, B2R. rewrite FloatAxioms.ltb_spec. apply SFltb_correct; apply Prim_valid.
Qed.

Lemma leb_finite_r x y :
  finite64 x = true -> PrimFloat.leb x y = true ->
  finite64 y = true \/ Prim2SF y = S754_infinity false.
Proof.
  unfold finite64. rewrite FloatAxioms.leb_spec. intros Fx H.
  destruct (Prim2SF x) as [sx|sx| |sx mx ex], (Prim2SF y) as [sy|[|]| |sy my ey];
    try discriminate; auto.
Qed.

Lemma leb_finite_l x y :
  finite64 y = true -> PrimFloat.leb x y = true ->
  finite64 x = true \/ Prim2SF x = S754_infinity true.
Proof.
  unfold finite64. rewrite FloatAxioms.leb_spec. intros Fy H.
  destruct (Prim2SF y) as [sy|sy| |sy my ey], (Prim2SF x) as [sx|[|]| |sx mx ex];
    try discriminate; auto.
Qed.

Lemma between_correct lo hi t :
  finite64 lo = true -> finite64 hi = true ->
  PrimFloat.leb lo t && PrimFloat.leb t hi = true ->
  finite64 t = true /\ B2R lo <= B2R t <= B2R hi.
Proof.
  intros Fl Fh H. apply andb_prop in H. destruct H as [H1 H2].
  assert (Ft : finite64 t = true).
  { destruct (leb_finite_r _ _ Fl H1) as [F|E]; [exact F|].
    destruct (leb_finite_l _ _ Fh H2) as [F|E']; [exact F|]. congruence. }
  split; [exact Ft|].
  pose proof (leb_correct lo t Fl Ft) as L1. rewrite H1 in L1.
  pose proof (leb_correct t hi Ft Fh) as L2. rewrite H2 in L2. lra.
Qed.

Lemma IZR_shift n k : (0 <= k)%Z -> IZR (n * 2 ^ k) * bpow (- k) = IZR n.
Proof.
  intros Hk. rewrite mult_IZR, <- bpow_IZR by lia.
  rewrite Rmult_assoc, <- bpow_add. replace (k + - k)%Z with 0%Z by lia.
  rewrite bpow_0. ring.
Qed.

Lemma rounded_int n : (0 < n < 2 ^ 53)%Z -> rounded (IZR n) (IZR n).
Proof.
  intros Hn. destruct (Zdigits2_bounds n ltac:(lia)) as [Hl Hu].
  pose proof (Zdigits2_nonneg n) as Hd0.
  assert (Hd : (1 <= Zdigits2 n <= 53)%Z).
  { split.
    - destruct (Z_lt_le_dec 0 (Zdigits2 n)); [lia|].
      replace (Zdigits2 n) with 0%Z in Hu by lia. simpl in Hu. lia.
    - destruct (Z_lt_le_dec 53 (Zdigits2 n)) as [H|H]; [|lia].
      assert (2 ^ 53 <= 2 ^ (Zdigits2 n - 1))%Z by (apply Z.pow_le_mono_r; lia). lia. }
  apply rounded_exact with (mag := Zdigits2 n) (K := (n * 2 ^ (53 - Zdigits2 n))%Z).
  - rewrite !bpow_IZR by lia. split; [apply IZR_le|apply IZR_lt]; lia.
  - apply Z.mul_nonneg_nonneg; [lia|]. apply Z.pow_nonneg. lia.
  - rewrite fexp64_spec. replace (Z.max (Zdigits2 n - 53) (-1074)) with (- (53 - Zdigits2 n))%Z by lia.
    symmetry. apply IZR_shift. lia.
Qed.

Lemma Rnd_int n : (Z.abs n < 2 ^ 53)%Z -> Rnd (IZR n) (IZR n).
Proof.
  intros Hn. destruct (Z.lt_trichotomy n 0) as [H|[H|H]].
  - right. right. split; [apply IZR_lt; exact H|].
    rewrite <- opp_IZR. apply rounded_int. lia.
  - subst. left. split; reflexivity.
  - right. left. split; [apply IZR_lt; exact H|]. apply rounded_int. lia.
Qed.

Lemma Rnd_bounds x v lo hi :
  Rnd x v -> (Z.abs lo < 2 ^ 53)%Z -> (Z.abs hi < 2 ^ 53)%Z ->
  IZR lo <= x <= IZR hi -> IZR lo <= v <= IZR hi.
Proof.
  intros H Hlo Hhi [H1 H2]. split.
  - apply (Rnd_mono (IZR lo) (IZR lo) x v); [apply Rnd_int, Hlo|exact H|exact H1].
  - apply (Rnd_mono x v (IZR hi) (IZR hi)); [exact H|apply Rnd_int, Hhi|exact H2].
Qed.


(** ** Safari *)


Lemma B2R_safariEpoch : finite64 safariEpoch = true /\ B2R safariEpoch = 978307200.
Proof.
  split; [reflexivity|]. unfold B2R.
  change (Prim2SF safariEpoch) with (S754_finite false 8206635604377600 (-23)).
  rewrite SF2R_finite. cbn [sgn].
  change (Z.pos 8206635604377600) with (978307200 * 2 ^ 23)%Z.
  apply (IZR_shift 978307200 23). lia.
Qed.

Lemma B2R_1000 :
  finite64 1000%float = true /\ B2R 1000%float = 1000
  /\ (SFexp (Prim2SF 1000%float) <= 0)%Z.
Proof.
  split; [reflexivity|]. split; [|vm_compute; discriminate]. unfold B2R.
  change (Prim2SF 1000%float) with (S754_finite false 8796093022208000 (-43)).
  rewrite SF2R_finite. cbn [sgn].
  change (Z.pos 8796093022208000) with (1000 * 2 ^ 43)%Z.
  apply (IZR_shift 1000 43). lia.
Qed.

Lemma safariRange_spec t :
  safariRange t = true ->
  finite64 t = true /\ - 4503599627370496 <= B2R t <= 4503599627370496.
Proof.
  intros H. apply between_correct in H; try reflexivity.
  destruct H as [F [H1 H2]]. split; [exact F|].
  assert (E1 : B2R (-4503599627370496)%float = - 4503599627370496).
  { unfold B2R.
    change (Prim2SF (-4503599627370496)%float) with (S754_finite true 4503599627370496 0).
    rewrite SF2R_finite, bpow_0. cbn [sgn]. lra. }
  assert (E2 : B2R 4503599627370496%float = 4503599627370496).
  { unfold B2R.
    change (Prim2SF 4503599627370496%float) with (S754_finite false 4503599627370496 0).
    rewrite SF2R_finite, bpow_0. cbn [sgn]. lra. }
  lra.
Qed.


Lemma safari_stages t (lo hi : Z) :
  finite64 t = true ->
  (- 2 ^ 52 <= lo)%Z -> (hi <= 2 ^ 52)%Z ->
  IZR lo <= B2R t <= IZR hi ->
  let a := (t + safariEpoch)%float in
  let b := (a * 1000)%float in
  finite64 a = true /\ Rnd (B2R t + 978307200) (B2R a)
  /\ IZR (lo + 978307200) <= B2R a <= IZR (hi + 978307200)
  /\ finite64 b = true /\ Rnd (B2R a * 1000) (B2R b)
  /\ safari_unixMs t = SFtrunc (Prim2SF b).
Proof.
  intros Ft Hlo Hhi Ht a b.
  destruct B2R_safariEpoch as [Fc Ec]. destruct B2R_1000 as (Fk & Ek & Xk).
  assert (Hlohi : (lo <= hi)%Z) by (apply le_IZR; lra).
  assert (P52 : (2 ^ 52 = 4503599627370496)%Z) by reflexivity.
  assert (P53 : (2 ^ 53 = 9007199254740992)%Z) by reflexivity.
  assert (B50 : 9007199254740992 < bpow 1023).
  { apply Rle_lt_trans with (bpow 53).
    - rewrite bpow_IZR by lia. apply IZR_le. rewrite P53. lia.
    - apply bpow_lt. lia. }
  assert (Hx : IZR (lo + 978307200) <= B2R t + 978307200 <= IZR (hi + 978307200)).
  { rewrite !plus_IZR. lra. }
  assert (Hxl : - 9007199254740992 < IZR (lo + 978307200)).
  { apply (IZR_lt (- 9007199254740992)). lia. }
  assert (Hxh : IZR (hi + 978307200) < 9007199254740992).
  { apply IZR_lt. lia. }
  destruct (add_correct t safariEpoch Ft Fc) as [Fa Ra].
  { rewrite Ec. apply Rabs_def1; lra. }
  rewrite Ec in Ra. fold a in Fa, Ra.
  assert (Ha : IZR (lo + 978307200) <= B2R a <= IZR (hi + 978307200)).
  { apply (Rnd_bounds _ _ _ _ Ra); [lia|lia|exact Hx]. }
  assert (B60 : 9007199254740992 * 1000 < bpow 1023).
  { apply Rlt_le_trans with (bpow 63).
    - rewrite bpow_IZR by lia. rewrite <- mult_IZR. apply IZR_lt. reflexivity.
    - apply bpow_le. lia. }
  destruct (mul_correct a 1000%float Fa Fk Xk) as [Fb Rb].
  { rewrite Ek. apply Rabs_def1; lra. }
  rewrite Ek in Rb. fold b in Fb, Rb.
  split; [exact Fa|]. split; [exact Ra|]. split; [exact Ha|].
  split; [exact Fb|]. split; [exact Rb|]. reflexivity.
Qed.

Theorem safari_unixMs_mono x y :
  safariRange x = true -> safariRange y = true -> B2R x <= B2R y ->
  (safari_unixMs x <= safari_unixMs y)%Z.
Proof.
  intros Hx Hy Hxy.
  destruct (safariRange_spec x Hx) as [Fx Bx].
  destruct (safariRange_spec y Hy) as [Fy By].
  destruct (safari_stages x (- 2 ^ 52) (2 ^ 52) Fx ltac:(lia) ltac:(lia))
    as (_ & Rax & _ & _ & Rbx & Ex).
  { change (IZR (- 2 ^ 52)) with (- 4503599627370496).
    change (IZR (2 ^ 52)) with 4503599627370496. exact Bx. }
  destruct (safari_stages y (- 2 ^ 52) (2 ^ 52) Fy ltac:(lia) ltac:(lia))
    as (_ & Ray & _ & _ & Rby & Ey).
  { change (IZR (- 2 ^ 52)) with (- 4503599627370496).
    change (IZR (2 ^ 52)) with 4503599627370496. exact By. }
  rewrite Ex, Ey. apply SFtrunc_mono.
  apply (Rnd_mono _ _ _ _ Rbx Rby).
  assert (Ha : B2R (x + safariEpoch) <= B2R (y + safariEpoch)).
  { apply (Rnd_mono _ _ _ _ Rax Ray). lra. }
  lra.
Qed.

Theorem safari_agrees x y :
  safariRange x = true -> safariRange y = true ->
  (PrimFloat.leb x y = true -> (safari_unixMs x <= safari_unixMs y)%Z)
  /\ (PrimFloat.leb x y = false -> (safari_unixMs y <= safari_unixMs x)%Z).
Proof.
  intros Hx Hy.
  destruct (safariRange_spec x Hx) as [Fx _].
  destruct (safariRange_spec y Hy) as [Fy _].
  pose proof (leb_correct x y Fx Fy) as H.
  split; intros E; rewrite E in H; apply safari_unixMs_mono; try assumption; lra.
Qed.


Lemma int_of_float64_trunc f : gonum.int_of_float64 f = SFtrunc (Prim2SF f).
Proof. reflexivity. Qed.


End Binary64.

(** ** The two adapters *)

Section Adapters.
Import dto browser.

Lemma wrap64_id (z : Z) : - 2 ^ 63 <= z < 2 ^ 63 -> gonum.wrap64 z = z.
Proof. intros H. unfold gonum.wrap64. rewrite Z.mod_small; lia. Qed.

Lemma chromiumEpoch_value : chromiumEpoch = 11644473600000000.
Proof. reflexivity. Qed.

Lemma chromium_unixMs_exact (t : Z) :
  chromiumEpoch - 2 ^ 63 <= t < 2 ^ 63 ->
  chromium_unixMs t = Z.quot (t - chromiumEpoch) 1000.
Proof.
  intros H. unfold chromium_unixMs, gonum.div. rewrite wrap64_id; [reflexivity|].
  rewrite chromiumEpoch_value in *. lia.
Qed.

Lemma chromium_unixMs_mono (x y : Z) :
  chromiumEpoch - 2 ^ 63 <= x -> x <= y -> y < 2 ^ 63 ->
  chromium_unixMs x <= chromium_unixMs y.
Proof.
  intros Hx Hxy Hy. rewrite !chromium_unixMs_exact by lia.
  apply Z.quot_le_mono; lia.
Qed.

Lemma chromiumTimestamp_exact (since : Z) :
  0 < since -> since * 1000 + chromiumEpoch < 2 ^ 63 ->
  chromiumTimestamp since = since * 1000 + chromiumEpoch.
Proof.
  intros H0 H1. unfold chromiumTimestamp.
  destruct (Z.gtb_spec since 0); [|lia].
  rewrite chromiumEpoch_value in *.
  rewrite (wrap64_id (since * 1000)) by lia. apply wrap64_id. lia.
Qed.

Lemma chromium_agrees (rows : list urlsRow) :
  Forall chromiumRange rows ->
  agrees (fun r1 r2 => last_visit_time r1 <=? last_visit_time r2)
         (fun r => chromium_unixMs (last_visit_time r)) rows.
Proof.
  intros Hr x y Hx Hy. rewrite List.Forall_forall in Hr.
  pose proof (Hr x Hx) as [Hx1 Hx2]. pose proof (Hr y Hy) as [Hy1 Hy2].
  split; intros H.
  - apply Z.leb_le in H. apply chromium_unixMs_mono; assumption.
  - apply Z.leb_gt in H. apply chromium_unixMs_mono; lia.
Qed.

Lemma safari_agrees_rows (rows : list visitRow) :
  Forall (fun r => safariRange (visit_time r) = true) rows ->
  agrees (fun r1 r2 => PrimFloat.leb (visit_time r1) (visit_time r2))
         (fun r => safari_unixMs (visit_time r)) rows.
Proof.
  intros Hr x y Hx Hy. rewrite List.Forall_forall in Hr.
  apply safari_agrees; [apply (Hr x Hx)|apply (Hr y Hy)].
Qed.


End Adapters.

Section AdapterResults.
Import dto browser.

(** C6 (as amended).  [GetHistory] returns only rows whose native
    timestamp is strictly greater than the threshold given to the query:
    the watermark converted to the native encoding when it is positive, 0
    otherwise.  The sites come in non-decreasing order of their
    Unix-millisecond timestamps when the conversion does not overflow on
    the stored values: for the Chromium adapter, int64 values from which
    the epoch can be subtracted within int64 ([chromiumRange]); for the
    Safari adapter, binary64 values of magnitude at most 2^52 seconds
    ([safariRange]). *)
Theorem GetHistory_newer_in_order (host : Host) (profile : Profile) (sinceTimestamp : Z) :
  (forall rows rowsErr,
     chromium_db host (filepath_Join host (Path profile) "History") = Table rows rowsErr ->
     let sites := fst (Chromium_GetHistory host profile sinceTimestamp) in
     (forall site, In site sites ->
        exists r, In r rows /\ url r = Some (URL site)
                  /\ Timestamp site = chromium_unixMs (last_visit_time r)
                  /\ chromiumTimestamp sinceTimestamp < last_visit_time r)
     /\ (Forall chromiumRange rows ->
         Sorted (fun a b => Timestamp a <= Timestamp b) sites))
  /\ (forall rows rowsErr,
        safari_db host (filepath_Join host (Path profile) "History.db") = Table rows rowsErr ->
        let sites := fst (Safari_GetHistory host profile sinceTimestamp) in
        (forall site, In site sites ->
           exists r, In r rows /\ item_url r = Some (URL site)
                     /\ Timestamp site = safari_unixMs (visit_time r)
                     /\ PrimFloat.ltb (safariTimestamp sinceTimestamp) (visit_time r) = true)
        /\ (Forall (fun r => safariRange (visit_time r) = true) rows ->
            Sorted (fun a b => Timestamp a <= Timestamp b) sites))
  /\ (0 < sinceTimestamp -> sinceTimestamp * 1000 + chromiumEpoch < 2 ^ 63 ->
        chromiumTimestamp sinceTimestamp = sinceTimestamp * 1000 + chromiumEpoch)
  /\ (sinceTimestamp <= 0 ->
        chromiumTimestamp sinceTimestamp = 0
        /\ safariTimestamp sinceTimestamp = 0%float).
Proof.
  split; [|split; [|split]].
  - intros rows rowsErr Hdb sites. unfold sites, Chromium_GetHistory.
    rewrite Hdb. split.
    + intros site Hin. apply readRows_sound in Hin.
      destruct Hin as (r & Hr & Hn & Hu & Ht).
      exists r. repeat split; try assumption. apply Z.gtb_lt in Hn. lia.
    + intros Hrange. apply readRows_sorted. apply chromium_agrees.
      apply List.Forall_forall. intros r Hr.
      apply (proj1 (List.filter_In _ _ _)) in Hr.
      rewrite List.Forall_forall in Hrange. apply Hrange, Hr.
  - intros rows rowsErr Hdb sites. unfold sites, Safari_GetHistory.
    rewrite Hdb. split.
    + intros site Hin. apply readRows_sound in Hin.
      destruct Hin as (r & Hr & Hn & Hu & Ht).
      exists r. repeat split; assumption.
    + intros Hrange. apply readRows_sorted. apply safari_agrees_rows.
      apply List.Forall_forall. intros r Hr.
      apply (proj1 (List.filter_In _ _ _)) in Hr.
      rewrite List.Forall_forall in Hrange. apply Hrange, Hr.
  - apply chromiumTimestamp_exact.
  - intros H. unfold chromiumTimestamp, safariTimestamp.
    destruct (Z.gtb_spec sinceTimestamp 0); [lia|]. split; reflexivity.
Qed.


End AdapterResults.

(** ** Discovering the profiles *)

Section Discovery.
Import browser.

Lemma FindProfiles_no_error (host : Host) (c : ChromiumBrowser) (user : platform.User) :
  snd (Chromium_FindProfiles host c user) = None
  /\ snd (Safari_FindProfiles host user) = None.
Proof.
  unfold Chromium_FindProfiles, Safari_FindProfiles. split.
  - destruct (isEmpty _); [reflexivity|].
    destruct (statNotExist _ _); [reflexivity|].
    destruct (hasProfiles c).
    + destruct (os_ReadDir _ _); reflexivity.
    + destruct (statSucceeds _ _); reflexivity.
  - destruct (CurrentOS host); try reflexivity.
    destruct (statNotExist _ _); reflexivity.
Qed.

(** When the source is absent, both adapters return no profile. *)
Lemma FindProfiles_absent (host : Host) (c : ChromiumBrowser) (user : platform.User) :
  (getBaseDir host c user = ""%string \/ os_Stat host (getBaseDir host c user) = StatNotExist ->
     Chromium_FindProfiles host c user = ([], None))
  /\ (CurrentOS host <> platform.Darwin
      \/ os_Stat host (filepath_Join host (platform.HomeDir user) "Library/Safari/History.db")
         = StatNotExist ->
      Safari_FindProfiles host user = ([], None)).
Proof.
  unfold Chromium_FindProfiles, Safari_FindProfiles, statNotExist. split.
  - intros [H|H].
    + rewrite H. reflexivity.
    + destruct (isEmpty _); [reflexivity|]. rewrite H. reflexivity.
  - intros [H|H].
    + destruct (CurrentOS host); try reflexivity. congruence.
    + destruct (CurrentOS host); try reflexivity. rewrite H. reflexivity.
Qed.

(** The Chromium adapter lists a profile only after [os.Stat] succeeded
    on its History file. *)
Lemma Chromium_FindProfiles_verified (host : Host) (c : ChromiumBrowser)
    (user : platform.User) (p : Profile) :
  In p (fst (Chromium_FindProfiles host c user)) ->
  os_Stat host (filepath_Join host (Path p) "History") = StatOk.
Proof.
  unfold Chromium_FindProfiles.
  destruct (isEmpty _); [contradiction|].
  destruct (statNotExist _ _); [contradiction|].
  destruct (hasProfiles c).
  - destruct (os_ReadDir host (getBaseDir host c user)) as [e|entries]; [contradiction|].
    simpl.
    assert (H : forall acc,
              (forall q, In q acc ->
                 os_Stat host (filepath_Join host (Path q) "History") = StatOk) ->
              forall q, In q (fold_left (findProfiles_step host (getBaseDir host c user))
                                entries acc) ->
                 os_Stat host (filepath_Join host (Path q) "History") = StatOk).
    { induction entries as [|e entries IH]; intros acc Hacc q; simpl; [apply Hacc|].
      apply IH. intros q' Hq'. unfold findProfiles_step in Hq'.
      destruct (negb (entryIsDir e)); [apply Hacc, Hq'|].
      destruct (String.eqb (entryName e) "Default" || String.prefix "Profile " (entryName e));
        [|apply Hacc, Hq'].
      unfold statSucceeds in Hq'.
      destruct (os_Stat host
                  (filepath_Join host
                     (filepath_Join host (getBaseDir host c user) (entryName e)) "History"))
        eqn:Hstat; try (apply Hacc, Hq').
      apply in_app_or in Hq'. destruct Hq' as [Hq'|[<-|[]]]; [apply Hacc, Hq'|].
      simpl. exact Hstat. }
    apply H. intros q [].
  - unfold statSucceeds.
    destruct (os_Stat host (filepath_Join host (getBaseDir host c user) "History")) eqn:Hstat;
      simpl; try contradiction.
    intros [<-|[]]. simpl. exact Hstat.
Qed.

End Discovery.

Section DiscoveryResults.
Import browser examples.

(** C9, evaluated where it fails.  On a macOS host where [os.Stat] on
    bob's Safari History.db fails with "operation not permitted", the
    Safari adapter lists the Default profile although the file was not
    seen; the Chromium adapter, given the same failure on Opera's History
    file, lists nothing. *)
Theorem Safari_FindProfiles_on_stat_error :
  os_Stat macHost (filepath_Join macHost (platform.HomeDir bob) "Library/Safari/History.db")
    = StatErr (errorString "operation not permitted")
  /\ Safari_FindProfiles macHost bob
     = ([{| Name := "Default"; Path := "/Users/bob/Library/Safari" |}], None)
  /\ Chromium_FindProfiles macHost operaBrowser bob = ([], None).
Proof. vm_compute. repeat split; reflexivity. Qed.

End DiscoveryResults.

(** ** Concrete runs of the pipeline *)

Section Runs.
Import dto sender browser scanner examples.

(** C1 as stated fails.  With the first chunk dropped and the second
    confirmed, [Send] returns the timestamp of the second chunk, which is
    above the timestamp of the record of the failed chunk, and
    [scanProfile] stores it as the watermark.  With the first chunk
    confirmed and the second dropped, two records of the same millisecond
    on either side of the boundary make the returned timestamp equal to
    that of the failed chunk. *)
Lemma watermark_passes_failed_chunk :
  map (fun o => (VisitedSites (fst o), snd o)) (Send_outcomes firstFails client1K batch2 [])
    = [([early], Some (wrapError "request failed" (errorString "connection reset")));
       ([late], None)]
  /\ Send_maxTimestamp firstFails client1K batch2 [] = 1700000060000
  /\ Timestamp early = 1700000000000
  /\ data (snd (scanProfile (envWith firstFails) theScanner alice NewOpera
                  operaProfile freshWorld)) !! "alice/opera/Default"%string
     = Some 1700000060000
  /\ map (fun o => (VisitedSites (fst o), snd o)) (Send_outcomes firstOnly client1K batchTie [])
     = [([early], None);
        ([twin], Some (wrapError "request failed" (errorString "connection reset")))]
  /\ Send_maxTimestamp firstOnly client1K batchTie [] = Timestamp twin.
Proof. vm_compute. repeat split; reflexivity. Qed.

Lemma Send_maxTimestamp_failed_chunk_witness :
  (Send_maxTimestamp firstOnly client1K batch2 [] = 0
   \/ Send_maxTimestamp firstOnly client1K batch2 [] < Timestamp late)
  /\ data (snd (scanProfile (envWith firstFails) theScanner alice NewOpera
                  operaProfile freshWorld))
     = state.SetLastTimestamp (data freshWorld) "alice" "opera" "Default"
         (Timestamp late).
Proof.
  split.
  - destruct (Send_maxTimestamp_failed_chunk firstOnly client1K batch2 [])
      as (_ & _ & _ & _ & H & _).
    destruct (H [(sealChunk batch2 [early], None)] (sealChunk batch2 [late])
                (wrapError "request failed" (errorString "connection reset")) [])
      as (_ & Hlt).
    + vm_compute. reflexivity.
    + constructor.
    + apply Hlt.
      * repeat constructor.
      * left. reflexivity.
  - destruct (Send_maxTimestamp_failed_chunk firstFails client1K batch2 [])
      as (_ & _ & _ & _ & _ & H).
    rewrite (H (envWith firstFails) theScanner alice NewOpera operaProfile freshWorld).
    + vm_compute. reflexivity.
    + reflexivity.
    + reflexivity.
    + reflexivity.
    + reflexivity.
    + vm_compute. reflexivity.
    + discriminate.
    + reflexivity.
Defined.

(** C2 as stated fails: when the endpoint cannot be reached, [Send]
    returns the error of the last chunk. *)
Lemma Send_returns_error :
  Send_err unreachable client1K batch2 []
  = Some (wrapError "request failed" (errorString "connection refused")).
Proof. vm_compute. reflexivity. Qed.

Lemma Send_error_iff_nothing_sent_witness :
  LastError (Send_result unreachable client1K batch2 [])
    = Some (wrapError "request failed" (errorString "connection refused"))
  /\ FailedCount (Send_result unreachable client1K batch2 []) = 2.
Proof.
  destruct (Send_error_iff_nothing_sent unreachable client1K batch2 []) as (_ & H & _).
  destruct (H (wrapError "request failed" (errorString "connection refused")))
    as (H1 & H2 & _).
  - vm_compute. reflexivity.
  - split; [exact H1|exact H2].
Defined.

(** C3 as stated fails: the only container of the run has its first
    chunk dropped and its second confirmed, and the run exits with 0. *)
Lemma Run_partial_delivery_exits_0 :
  FailedCount (Send_result firstFails client1K
                 (payloadFor (envWith firstFails) theScanner alice [early; late]) []) = 1
  /\ TotalSent (Send_result firstFails client1K
                  (payloadFor (envWith firstFails) theScanner alice [early; late]) []) = 1
  /\ snd (Run_traced (envWith firstFails) theScanner freshWorld) = [(1, None)]
  /\ ExitCode (fst (Run (envWith firstFails) theScanner freshWorld)) = 0.
Proof. vm_compute. repeat split; reflexivity. Qed.

Lemma Run_exit_code_witness :
  ExitCode (fst (Run (envWith unreachable) theScanner freshWorld)) = ExitCompleteFailure.
Proof.
  destruct (Run_exit_code (envWith unreachable) theScanner freshWorld)
    as (_ & _ & H & _ & _).
  destruct (H alice []) as (_ & _ & H2).
  - reflexivity.
  - apply H2. vm_compute. split.
    + constructor. reflexivity.
    + intros Hex. inversion Hex as [? ? Hx|? ? Hx]; [discriminate|inversion Hx].
Defined.

(** C4 at a run, compression on and a ceiling of 1024 bytes: of four
    records of 640 estimated bytes, the third joins the chunk at a
    projected size of exactly 1024, and the fourth, at 1216, starts a new
    chunk. *)
Lemma buildChunks_seal_rule_witness :
  map VisitedSites (buildChunks client1Kgz samples.batch4)
  = [ [site (longURL 600) 1; site (longURL 600) 2; site (longURL 600) 3];
      [site (longURL 600) 4] ]
  /\ concat (map VisitedSites (buildChunks client1Kgz samples.batch4))
     = VisitedSites samples.batch4
  /\ chunkspec.projectedSize true [site (longURL 600) 1; site (longURL 600) 2]
       (site (longURL 600) 3)
     <= maxChunkSize client1Kgz
  /\ exists r rest,
       [site (longURL 600) 4] = r :: rest
       /\ [site (longURL 600) 1; site (longURL 600) 2; site (longURL 600) 3] <> []
       /\ chunkspec.projectedSize true
            [site (longURL 600) 1; site (longURL 600) 2; site (longURL 600) 3] r
          > maxChunkSize client1Kgz.
Proof.
  destruct (buildChunks_seal_rule client1Kgz samples.batch4) as (Hcat & _ & Hin & Hb & _).
  split; [vm_compute; reflexivity|]. split; [exact Hcat|]. split.
  - apply (Hin [site (longURL 600) 1; site (longURL 600) 2; site (longURL 600) 3]
               [site (longURL 600) 1; site (longURL 600) 2] (site (longURL 600) 3) []).
    + vm_compute. left. reflexivity.
    + reflexivity.
    + discriminate.
  - apply (Hb [] _ _ []). vm_compute. reflexivity.
Defined.


(** C6 as stated fails.  With the watermark at a millisecond, a row
    visited within that millisecond is newer in the native encoding and is
    returned with a timestamp equal to the watermark, by the Chromium
    adapter (500 microseconds later) and by the Safari adapter (0.4
    milliseconds later).  With the watermark 0 the threshold is the native
    0, and a row dated before 1970 is returned with a negative
    timestamp.  And the order fails where int64 overflows: with a
    watermark whose conversion wraps around, a row from which the epoch
    cannot be subtracted within int64 is returned first, with the larger
    timestamp. *)
Lemma GetHistory_returns_watermark_record :
  Chromium_GetHistory (hostWith boundaryRows []) operaProfile watermark
    = ([site "https://example.org/" watermark], None)
  /\ Safari_GetHistory (hostWith [] boundaryVisits) safariProfile watermark
     = ([site "https://example.org/" watermark], None)
  /\ Chromium_GetHistory (hostWith ancientRows []) operaProfile 0
     = ([site "https://example.org/old" (-11644473599999)], None)
  /\ Chromium_GetHistory (hostWith wrappingRows []) operaProfile overflowingWatermark
     = ([site "https://example.org/wrapped" 9211727563254776;
         site "https://example.org/new" (-11644473599999)], None).
Proof. vm_compute. repeat split; reflexivity. Qed.

Lemma GetHistory_newer_in_order_witness :
  Chromium_GetHistory (hostWith shuffledRows []) operaProfile watermark
    = ([site "https://example.org/b" (watermark + 1);
        site "https://example.org/c" (watermark + 2)], None)
  /\ Sorted (fun a b => Timestamp a <= Timestamp b)
            (fst (Chromium_GetHistory (hostWith shuffledRows []) operaProfile watermark))
  /\ Safari_GetHistory (hostWith [] shuffledVisits) safariProfile watermark
     = ([site "https://example.org/b" (watermark + 1250);
         site "https://example.org/c" (watermark + 2500)], None)
  /\ Sorted (fun a b => Timestamp a <= Timestamp b)
            (fst (Safari_GetHistory (hostWith [] shuffledVisits) safariProfile watermark)).
Proof.
  destruct (GetHistory_newer_in_order (hostWith shuffledRows []) operaProfile watermark)
    as (Hc & _).
  destruct (GetHistory_newer_in_order (hostWith [] shuffledVisits) safariProfile watermark)
    as (_ & Hs & _).
  split; [vm_compute; reflexivity|]. split; [|split; [vm_compute; reflexivity|]].
  - apply (Hc shuffledRows None).
    + reflexivity.
    + repeat constructor; vm_compute; intros; discriminate.
  - apply (Hs shuffledVisits None).
    + reflexivity.
    + repeat constructor.
Defined.



(** C8 at a run: alice's history holds nothing newer than the stored
    watermark. *)
Lemma scanProfile_skipped_witness :
  scanProfile (envWith firstFails) theScanner alice NewOpera operaProfile syncedWorld
  = ((0, None), syncedWorld).
Proof.
  apply (scanProfile_skipped (envWith firstFails) theScanner alice NewOpera
           operaProfile syncedWorld).
  vm_compute. reflexivity.
Defined.

End Runs.

(* ================================================================== *)
(** * Further properties of the code *)

(** ** The chunks of a batch *)

Section MoreChunking.
Import dto sender.

Lemma chunkFrom_single (c : Client) (l : list VisitedSite) : forall cur,
  fits c (cur ++ l) -> cur ++ l <> [] -> chunkFrom c cur l = [cur ++ l].
Proof.
  induction l as [|site l IH]; intros cur Hfit Hne; simpl.
  - rewrite app_nil_r in *. destruct cur; [congruence|reflexivity].
  - assert (Htest : nonEmpty cur && (projected c cur site >? maxChunkSize c) = false).
    { destruct cur as [|x cur]; [reflexivity|]. simpl.
      rewrite Z.gtb_ltb. apply Z.ltb_ge.
      apply (Hfit (x :: cur) site l); [reflexivity|discriminate]. }
    rewrite Htest.
    replace (cur ++ site :: l) with ((cur ++ [site]) ++ l) in *
      by (rewrite <- app_assoc; reflexivity).
    apply IH; assumption.
Qed.

Lemma sealChunk_self (ch : VisitedSitesDTO) : sealChunk ch (VisitedSites ch) = ch.
Proof. destruct ch; reflexivity. Qed.

(** A list of chunks is determined by its record runs and its tags. *)
Lemma chunks_determined (payload : VisitedSitesDTO) (chunks : list VisitedSitesDTO) :
  Forall (fun ch => Principal ch = Principal payload /\ Source ch = Source payload) chunks ->
  chunks = map (sealChunk payload) (map VisitedSites chunks).
Proof.
  induction 1 as [|ch chunks [Hp Hs] _ IH]; simpl; [reflexivity|].
  rewrite <- IH. f_equal. destruct ch; simpl in *. subst. reflexivity.
Qed.

Lemma buildChunks_tags (c : Client) (payload : VisitedSitesDTO) :
  Forall (fun ch => Principal ch = Principal payload /\ Source ch = Source payload)
         (buildChunks c payload).
Proof.
  unfold buildChunks.
  apply (fold_step_tags c payload (VisitedSites payload)
           {| chunks := []; currentSites := []; currentSize := 0 |}).
  constructor.
Qed.

Lemma buildChunks_as_runs (c : Client) (payload : VisitedSitesDTO) :
  buildChunks c payload
  = map (sealChunk payload) (chunkFrom c [] (VisitedSites payload)).
Proof.
  rewrite <- buildChunks_runs. apply chunks_determined, buildChunks_tags.
Qed.

Lemma sizeOf_fits (c : Client) (l : list VisitedSite) :
  compress c = false -> sizeOf l <= maxChunkSize c -> fits c l.
Proof.
  intros Hc Hsize pre r post -> _.
  unfold projected, estimatedCompressedSize. rewrite Hc.
  rewrite sizeOf_app in Hsize. simpl in Hsize.
  pose proof (sizeOf_nonneg post). lia.
Qed.

(** X1.  A batch leaves as one chunk, holding all its records, exactly
    when it is non-empty and no record of it trips the size test of the
    loop; without compression it is enough that the entry sizes of the
    batch sum to no more than the ceiling. *)
Theorem buildChunks_single_chunk (c : Client) (payload : VisitedSitesDTO) :
  (buildChunks c payload = [sealChunk payload (VisitedSites payload)]
   <-> VisitedSites payload <> [] /\ fits c (VisitedSites payload))
  /\ (compress c = false ->
      VisitedSites payload <> [] ->
      sizeOf (VisitedSites payload) <= maxChunkSize c ->
      buildChunks c payload = [payload]).
Proof.
  assert (Hif : VisitedSites payload <> [] -> fits c (VisitedSites payload) ->
                buildChunks c payload = [sealChunk payload (VisitedSites payload)]).
  { intros Hne Hfit. rewrite buildChunks_as_runs.
    rewrite (chunkFrom_single c (VisitedSites payload) []); [reflexivity| |]; assumption. }
  split; [split|].
  - intros E.
    pose proof (buildChunks_fits c payload) as Hfit.
    pose proof (chunkFrom_nonempty c (VisitedSites payload) []) as Hne.
    rewrite <- buildChunks_runs in Hne. rewrite E in Hfit, Hne. simpl in Hfit, Hne.
    inversion Hfit; inversion Hne; subst. auto.
  - intros [Hne Hfit]. apply Hif; assumption.
  - intros Hc Hne Hsize. rewrite Hif; [|assumption|apply sizeOf_fits; assumption].
    rewrite sealChunk_self. reflexivity.
Qed.

(** X2.  Chunking is stable: a chunk emitted by [buildChunks], chunked
    again on its own, is that one chunk. *)
Theorem buildChunks_stable (c : Client) (payload ch : VisitedSitesDTO) :
  In ch (buildChunks c payload) -> buildChunks c ch = [ch].
Proof.
  intros Hin.
  pose proof (buildChunks_fits c payload) as Hfit.
  pose proof (chunkFrom_nonempty c (VisitedSites payload) []) as Hne.
  rewrite <- buildChunks_runs in Hne.
  rewrite List.Forall_forall in Hfit, Hne.
  assert (Hrun : In (VisitedSites ch) (map VisitedSites (buildChunks c payload)))
    by (apply in_map, Hin).
  rewrite buildChunks_as_runs.
  rewrite (chunkFrom_single c (VisitedSites ch) []); simpl.
  - rewrite sealChunk_self. reflexivity.
  - apply Hfit, Hrun.
  - apply Hne, Hrun.
Qed.

Lemma concat_length_ge {A} (ls : list (list A)) :
  Forall (fun l => l <> []) ls -> (length ls <= length (concat ls))%nat.
Proof.
  induction 1 as [|l ls Hl _ IH]; simpl; [lia|].
  rewrite length_app. destruct l; [congruence|simpl; lia].
Qed.

Lemma buildChunks_length_le (c : Client) (payload : VisitedSitesDTO) :
  (length (buildChunks c payload) <= length (VisitedSites payload))%nat.
Proof.
  pose proof (chunkFrom_nonempty c (VisitedSites payload) []) as Hne.
  pose proof (chunkFrom_concat c (VisitedSites payload) []) as Hcat.
  rewrite <- buildChunks_runs in Hne, Hcat. simpl in Hcat.
  apply concat_length_ge in Hne. rewrite Hcat, length_map in Hne. exact Hne.
Qed.

(** X3.  [buildChunks] never emits more chunks than the batch has
    records, emits none for an empty batch and at least one otherwise. *)
Theorem buildChunks_count (c : Client) (payload : VisitedSitesDTO) :
  (length (buildChunks c payload) <= length (VisitedSites payload))%nat
  /\ (VisitedSites payload = [] <-> buildChunks c payload = []).
Proof.
  pose proof (chunkFrom_concat c (VisitedSites payload) []) as Hcat.
  rewrite <- buildChunks_runs in Hcat. simpl in Hcat.
  split.
  - apply buildChunks_length_le.
  - split.
    + intros E. unfold buildChunks. rewrite E. reflexivity.
    + intros E. rewrite E in Hcat. simpl in Hcat. congruence.
Qed.

End MoreChunking.

(** ** The requests on the wire *)

Ltac wire_done :=
  repeat split; simpl; auto; try lia; try discriminate;
  repeat constructor; auto.

Section Wire.
Import dto sender delivery.

Variable net : Net.
Variable c : Client.

Lemma wellFormed_raw (data : bytes) : wellFormed c (rawRequest c data).
Proof. unfold wellFormed. simpl. auto. Qed.

Lemma wellFormed_gzip (data : bytes) :
  compress c = true -> wellFormed c (gzipRequest c data).
Proof. intros H. unfold wellFormed. simpl. auto. Qed.

(** What [sendRaw] and [sendWithGzip] add to the wire: nothing or
    their one request. *)
Lemma sendRaw_wire (data : bytes) (log : list Request) :
  snd (sendRaw net c data log) = log
  \/ snd (sendRaw net c data log) = log ++ [rawRequest c data].
Proof.
  unfold sendRaw. destruct (http_NewRequest_ok net (serverURL c)); simpl; auto.
Qed.

Lemma sendWithGzip_wire (data : bytes) (log : list Request) :
  snd (sendWithGzip net c data log) = log
  \/ exists compressed,
       gzip_bytes net data = inr compressed
       /\ snd (sendWithGzip net c data log) = log ++ [gzipRequest c compressed].
Proof.
  unfold sendWithGzip. destruct (gzip_bytes net data) as [e|compressed]; simpl; auto.
  destruct (http_NewRequest_ok net (serverURL c)); simpl; auto.
  right. exists compressed. auto.
Qed.

Lemma sendChunk_adds (payload : VisitedSitesDTO) (log : list Request) :
  exists new,
    snd (sendChunk net c payload log) = log ++ new
    /\ (length new <= 2)%nat
    /\ Forall (wellFormed c) new
    /\ (compress c = false -> (length new <= 1)%nat)
    /\ (forall e, json_Marshal net payload = inl e -> new = []).
Proof.
  assert (Hraw := wellFormed_raw).
  unfold sendChunk, bind.
  destruct (json_Marshal net payload) as [e|data].
  { exists []. simpl. rewrite app_nil_r. repeat split; auto; lia. }
  destruct (compress c) eqn:Hc.
  - assert (Hgzip := fun d => wellFormed_gzip d Hc).
    destruct (sendWithGzip_wire data log) as [Hw|(compressed & Hgz & Hw)];
      destruct (sendWithGzip net c data log) as [[bs [err|]] log1]; simpl in Hw; subst log1.
    + destruct (isUnsupportedMediaType err).
      * destruct (sendRaw_wire data log) as [Hr|Hr];
          destruct (sendRaw net c data log) as [r2 log2]; simpl in *; subst log2.
        -- exists []. rewrite app_nil_r. wire_done.
        -- exists [rawRequest c data]. wire_done.
      * exists []. simpl. rewrite app_nil_r. wire_done.
    + exists []. simpl. rewrite app_nil_r. wire_done.
    + destruct (isUnsupportedMediaType err).
      * destruct (sendRaw_wire data (log ++ [gzipRequest c compressed])) as [Hr|Hr];
          destruct (sendRaw net c data (log ++ [gzipRequest c compressed])) as [r2 log2];
          simpl in *; subst log2.
        -- exists [gzipRequest c compressed]. wire_done.
        -- exists [gzipRequest c compressed; rawRequest c data].
           rewrite <- app_assoc. wire_done.
      * exists [gzipRequest c compressed]. simpl. wire_done.
    + exists [gzipRequest c compressed]. simpl. wire_done.
  - destruct (sendRaw_wire data log) as [Hr|Hr];
      destruct (sendRaw net c data log) as [r log1]; simpl in *; subst log1.
    + exists []. rewrite app_nil_r. wire_done.
    + exists [rawRequest c data]. wire_done.
Qed.

Lemma sendLoop_adds (chunks : list VisitedSitesDTO) : forall result m log,
  exists new,
    snd (sendLoop net c chunks result m log) = log ++ new
    /\ (length new <= 2 * length chunks)%nat
    /\ Forall (wellFormed c) new
    /\ (compress c = false -> (length new <= length chunks)%nat).
Proof.
  induction chunks as [|chunk rest IH]; intros result m log; simpl.
  - exists []. rewrite app_nil_r. repeat split; auto.
  - unfold bind.
    destruct (sendChunk_adds chunk log) as (new1 & H1 & Hlen1 & Hwf1 & Hc1 & _).
    destruct (sendChunk net c chunk log) as [[[bs bo] err] log1]. simpl in H1. subst log1.
    destruct err as [e|];
      match goal with |- context [sendLoop net c rest ?res ?mm (log ++ new1)] =>
        destruct (IH res mm (log ++ new1)) as (new2 & H2 & Hlen2 & Hwf2 & Hc2) end;
      exists (new1 ++ new2); rewrite H2, <- app_assoc;
      (split; [reflexivity|]); rewrite length_app;
      (split; [lia|]); (split; [apply Forall_app; auto|]);
      intros Hc; specialize (Hc1 Hc); specialize (Hc2 Hc); lia.
Qed.

(** The final choice of [Send] between its results leaves the wire as
    the loop left it. *)
Lemma Send_wire (payload : VisitedSitesDTO) (log : list Request) :
  snd (Send net c payload log)
  = if nonEmpty (VisitedSites payload)
    then snd (sendLoop net c (buildChunks c payload) emptyResult 0 log)
    else log.
Proof.
  unfold Send. destruct (VisitedSites payload) as [|s0 l]; [reflexivity|].
  simpl. unfold bind.
  destruct (sendLoop net c (buildChunks c payload) emptyResult 0 log)
    as [[result m] log1]. simpl.
  destruct (LastError result); [destruct (TotalSent result =? 0)|]; reflexivity.
Qed.

Lemma Send_adds (payload : VisitedSitesDTO) (log : list Request) :
  exists new,
    snd (Send net c payload log) = log ++ new /\ Forall (wellFormed c) new.
Proof.
  rewrite Send_wire. destruct (nonEmpty (VisitedSites payload)).
  - destruct (sendLoop_adds (buildChunks c payload) emptyResult 0 log)
      as (new & H & _ & Hwf & _).
    exists new. auto.
  - exists []. rewrite app_nil_r. auto.
Qed.

End Wire.

Section WireResults.
Import dto sender delivery.

(** X4.  [sendChunk] only appends to the wire: at most two requests, at
    most one when compression is off, and none when the payload cannot be
    serialized.  Every request it sends is JSON with the ProxyToken
    authorization of the client, and declares the gzip encoding only when
    compression is on.  [TestConnection] is one such call. *)
Theorem sendChunk_appends (net : Net) (c : Client) (payload : VisitedSitesDTO)
    (log : list Request) :
  (exists new,
     snd (sendChunk net c payload log) = log ++ new
     /\ (length new <= 2)%nat
     /\ Forall (wellFormed c) new
     /\ (compress c = false -> (length new <= 1)%nat)
     /\ (forall e, json_Marshal net payload = inl e -> new = []))
  /\ TestConnection net c log
     = (snd (fst (sendChunk net c testPayload log)), snd (sendChunk net c testPayload log)).
Proof.
  split; [apply sendChunk_adds|].
  unfold TestConnection, bind, ret.
  destruct (sendChunk net c testPayload log) as [r log1]. reflexivity.
Qed.

(** X5.  [Send] only appends to the wire: never more than two requests
    per chunk, so never more than twice the number of records, and never
    more than one per chunk when compression is off; all of them carry the
    headers of the client. *)
Theorem Send_appends (net : Net) (c : Client) (payload : VisitedSitesDTO)
    (log : list Request) :
  exists new,
    snd (Send net c payload log) = log ++ new
    /\ (length new <= 2 * length (buildChunks c payload))%nat
    /\ (length new <= 2 * length (VisitedSites payload))%nat
    /\ Forall (wellFormed c) new
    /\ (compress c = false -> (length new <= length (buildChunks c payload))%nat).
Proof.
  pose proof (buildChunks_length_le c payload) as Hcount.
  rewrite Send_wire. destruct (VisitedSites payload) as [|s0 l] eqn:E.
  - exists []. simpl. rewrite app_nil_r. repeat split; auto; lia.
  - destruct (sendLoop_adds net c (buildChunks c payload) emptyResult 0 log)
      as (new & H & Hlen & Hwf & Hc).
    exists new. simpl in *. repeat split; auto; lia.
Qed.

End WireResults.

Section WireExact.
Import dto sender delivery.

Variable net : Net.
Variable c : Client.
Variable enc : VisitedSitesDTO -> bytes.
Variable gz : bytes -> bytes.
Hypothesis Hmarshal : forall p, json_Marshal net p = inr (enc p).
Hypothesis Hgzip : forall d, gzip_bytes net d = inr (gz d).
Hypothesis Hurl : http_NewRequest_ok net (serverURL c) = true.

Lemma sendChunk_plain (chunk : VisitedSitesDTO) (log : list Request) :
  compress c = false ->
  snd (sendChunk net c chunk log) = log ++ [rawRequest c (enc chunk)].
Proof.
  intros Hc. unfold sendChunk, bind. rewrite Hmarshal, Hc, (sendRaw_one net c); auto.
Qed.

Lemma sendChunk_gzip (chunk : VisitedSitesDTO) (log : list Request) :
  compress c = true ->
  exists retry,
    snd (sendChunk net c chunk log)
    = log ++ gzipRequest c (gz (enc chunk)) :: retry
    /\ (retry = [] \/ retry = [rawRequest c (enc chunk)]).
Proof.
  intros Hc. unfold sendChunk, bind.
  rewrite Hmarshal, Hc, (sendWithGzip_one net c _ (gz (enc chunk))); auto.
  destruct (answer (endpoint net log (gzipRequest c (gz (enc chunk))))
                   (len64 (gz (enc chunk)))) as [bs [err|]].
  - destruct (isUnsupportedMediaType err).
    + rewrite (sendRaw_one net c); auto. simpl.
      exists [rawRequest c (enc chunk)]. rewrite <- app_assoc. auto.
    + exists []. auto.
  - exists []. auto.
Qed.

Lemma sendLoop_plain (chunks : list VisitedSitesDTO) : forall result m log,
  compress c = false ->
  snd (sendLoop net c chunks result m log)
  = log ++ map (fun ch => rawRequest c (enc ch)) chunks.
Proof.
  induction chunks as [|chunk rest IH]; intros result m log Hc; simpl.
  - rewrite app_nil_r. reflexivity.
  - unfold bind. pose proof (sendChunk_plain chunk log Hc) as H1.
    destruct (sendChunk net c chunk log) as [[[bs bo] [err|]] log1];
      simpl in H1; subst log1; rewrite IH by assumption;
      rewrite <- app_assoc; reflexivity.
Qed.

Lemma sendLoop_gzip (chunks : list VisitedSitesDTO) : forall result m log,
  compress c = true ->
  exists new,
    snd (sendLoop net c chunks result m log) = log ++ new
    /\ List.filter isEncoded new = map (fun ch => gzipRequest c (gz (enc ch))) chunks
    /\ Forall (fun req => isEncoded req = false ->
                 exists ch, In ch chunks /\ req = rawRequest c (enc ch)) new.
Proof.
  induction chunks as [|chunk rest IH]; intros result m log Hc; simpl.
  - exists []. rewrite app_nil_r. repeat split; constructor.
  - unfold bind. destruct (sendChunk_gzip chunk log Hc) as (retry & H1 & Hretry).
    destruct (sendChunk net c chunk log) as [[[bs bo] err] log1]. simpl in H1. subst log1.
    assert (Hstep : forall res mm,
              exists new,
                snd (sendLoop net c rest res mm
                       (log ++ gzipRequest c (gz (enc chunk)) :: retry)) = log ++ new
                /\ List.filter isEncoded new
                   = gzipRequest c (gz (enc chunk))
                     :: map (fun ch => gzipRequest c (gz (enc ch))) rest
                /\ Forall (fun req => isEncoded req = false ->
                             exists ch, (chunk = ch \/ In ch rest)
                                        /\ req = rawRequest c (enc ch)) new).
    { intros res mm.
      destruct (IH res mm (log ++ gzipRequest c (gz (enc chunk)) :: retry) Hc)
        as (new2 & H2 & Hf2 & Hall2).
      exists ((gzipRequest c (gz (enc chunk)) :: retry) ++ new2).
      rewrite H2, <- app_assoc. split; [reflexivity|]. split.
      - rewrite List.filter_app, Hf2.
        destruct Hretry as [->| ->]; reflexivity.
      - apply Forall_app. split.
        + constructor; [discriminate|].
          destruct Hretry as [->| ->]; constructor; [|constructor].
          intros _. exists chunk. auto.
        + eapply List.Forall_impl; [|exact Hall2]. simpl.
          intros req H Hreq. destruct (H Hreq) as (ch & Hin & E). exists ch. auto. }
    destruct err as [e|]; apply Hstep.
Qed.

Lemma sendChunk_confirmed (chunk : VisitedSitesDTO) (log : list Request) :
  (forall l r, exists code, endpoint net l r = Status code /\ is2xx code = true) ->
  snd (fst (sendChunk net c chunk log)) = None.
Proof.
  intros Hok. unfold sendChunk, bind. rewrite Hmarshal.
  destruct (compress c).
  - rewrite (sendWithGzip_one net c _ (gz (enc chunk))); auto.
    destruct (Hok log (gzipRequest c (gz (enc chunk)))) as (code & -> & H2).
    simpl. rewrite H2. reflexivity.
  - rewrite (sendRaw_one net c); auto.
    destruct (Hok log (rawRequest c (enc chunk))) as (code & -> & H2).
    simpl. rewrite H2. reflexivity.
Qed.

Lemma sendOutcomes_confirmed (chunks : list VisitedSitesDTO) : forall log,
  (forall l r, exists code, endpoint net l r = Status code /\ is2xx code = true) ->
  sendOutcomes net c chunks log = map (fun ch => (ch, None)) chunks.
Proof.
  intros log Hok. revert log.
  induction chunks as [|chunk rest IH]; intros log; simpl; [reflexivity|].
  pose proof (sendChunk_confirmed chunk log Hok) as H.
  destruct (sendChunk net c chunk log) as [r log1]. simpl in H.
  rewrite H, IH. reflexivity.
Qed.

End WireExact.

Section SendCounters.
Import dto sender delivery.

Lemma sendLoop_chunksSent (net : Net) (c : Client) (chunks : list VisitedSitesDTO) :
  forall result m log,
    ChunksSent (fst (fst (sendLoop net c chunks result m log)))
    = ChunksSent result + confirmedChunks (sendOutcomes net c chunks log).
Proof.
  induction chunks as [|chunk rest IH]; intros result m log; simpl.
  - unfold ret. simpl. lia.
  - unfold bind. destruct (sendChunk net c chunk log) as [[[bs bo] [err|]] log1]; simpl;
      rewrite IH; simpl; lia.
Qed.

Lemma Send_chunksSent (net : Net) (c : Client) (payload : VisitedSitesDTO)
    (log : list Request) :
  ChunksSent (Send_result net c payload log)
  = confirmedChunks (Send_outcomes net c payload log).
Proof.
  unfold Send_result, Send_outcomes, Send.
  destruct (VisitedSites payload) as [|s0 l] eqn:E.
  - rewrite (buildChunks_empty c payload E). reflexivity.
  - simpl. unfold bind.
    pose proof (sendLoop_chunksSent net c (buildChunks c payload) emptyResult 0 log) as H.
    destruct (sendLoop net c (buildChunks c payload) emptyResult 0 log)
      as [[result m] log1]. simpl in H.
    destruct (LastError result); [destruct (TotalSent result =? 0)|]; simpl; exact H.
Qed.

Lemma outcomes_counts (outs : list (VisitedSitesDTO * option error)) :
  Forall (fun o => VisitedSites (fst o) <> []) outs ->
  0 <= confirmedChunks outs <= Z.of_nat (length outs)
  /\ confirmedChunks outs <= lenSites (confirmedSites outs)
  /\ (lenSites (confirmedSites outs) = 0 <-> confirmedChunks outs = 0)
  /\ (lenSites (failedSites outs) = 0 <-> lastErrorOf outs None = None).
Proof.
  assert (Hlast : forall o e, lastErrorOf o (Some e) <> None).
  { intros o e. apply lastErrorOf_failed. left. discriminate. }
  induction 1 as [|[ch [e|]] outs Hne _ IH]; simpl in *.
  - unfold lenSites. simpl. repeat split; lia || reflexivity.
  - destruct IH as (I1 & I2 & I3 & I4). rewrite lenSites_app.
    assert (Hpos : 0 < lenSites (VisitedSites ch)).
    { unfold lenSites. destruct (VisitedSites ch); [congruence|simpl; lia]. }
    assert (0 <= lenSites (failedSites outs)) by (unfold lenSites; lia).
    repeat split; try lia; try tauto;
      intros Hz; exfalso; first [exact (Hlast _ _ Hz) | lia].
  - destruct IH as (I1 & I2 & I3 & I4). rewrite lenSites_app.
    assert (Hpos : 0 < lenSites (VisitedSites ch)).
    { unfold lenSites. destruct (VisitedSites ch); [congruence|simpl; lia]. }
    assert (0 <= lenSites (confirmedSites outs)) by (unfold lenSites; lia).
    repeat split; try lia; try tauto; intros Hz; exfalso; lia.
Qed.

(** X8.  The counters of a [SendResult] agree: [FailedCount] is 0
    exactly when [LastError] is nil; [ChunksSent] is the number of chunks
    confirmed, at most the number of chunks and at most [TotalSent], and 0
    exactly when [TotalSent] is 0; [Send] returns an error exactly when
    [TotalSent] is 0 and [FailedCount] is not. *)
Theorem SendResult_consistent (net : Net) (c : Client) (payload : VisitedSitesDTO)
    (log : list Request) :
  let result := Send_result net c payload log in
  (FailedCount result = 0 <-> LastError result = None)
  /\ ChunksSent result = confirmedChunks (Send_outcomes net c payload log)
  /\ 0 <= ChunksSent result <= Z.of_nat (length (buildChunks c payload))
  /\ ChunksSent result <= TotalSent result
  /\ (TotalSent result = 0 <-> ChunksSent result = 0)
  /\ (Send_err net c payload log <> None
      <-> TotalSent result = 0 /\ FailedCount result <> 0).
Proof.
  intros result.
  destruct (Send_history net c payload log) as (H1 & H2 & H3 & _ & H5).
  destruct (Send_outcomes_shape net c payload log) as (Hm & Hne & _).
  pose proof (Send_chunksSent net c payload log) as Hcs.
  destruct (outcomes_counts _ Hne) as (I1 & I2 & I3 & I4).
  fold result in H1, H2, H3, Hcs.
  rewrite <- Hm, length_map. rewrite H1, H2, H3, Hcs, H5.
  repeat split; try tauto; try lia.
  - destruct (Z.eqb_spec (lenSites (confirmedSites (Send_outcomes net c payload log))) 0);
      congruence.
  - destruct (Z.eqb_spec (lenSites (confirmedSites (Send_outcomes net c payload log))) 0);
      [tauto|congruence].
  - intros [Hz Hf].
    destruct (Z.eqb_spec (lenSites (confirmedSites (Send_outcomes net c payload log))) 0);
      [tauto|contradiction].
Qed.

(** X6.  When the payloads serialize and the request can be built,
    every chunk is put on the wire, in order, whatever the answers: with
    compression off the wire grows by exactly one uncompressed request per
    chunk; with compression on the compressed requests added are exactly
    the compressed chunks, and every uncompressed request added carries the
    serialized bytes of one of the chunks. *)
Theorem Send_attempts_every_chunk (net : Net) (c : Client)
    (enc : VisitedSitesDTO -> bytes) (gz : bytes -> bytes)
    (payload : VisitedSitesDTO) (log : list Request) :
  (forall p, json_Marshal net p = inr (enc p)) ->
  (forall d, gzip_bytes net d = inr (gz d)) ->
  http_NewRequest_ok net (serverURL c) = true ->
  (compress c = false ->
     snd (Send net c payload log)
     = log ++ map (fun ch => rawRequest c (enc ch)) (buildChunks c payload))
  /\ (compress c = true ->
      exists new,
        snd (Send net c payload log) = log ++ new
        /\ List.filter isEncoded new
           = map (fun ch => gzipRequest c (gz (enc ch))) (buildChunks c payload)
        /\ Forall (fun req => isEncoded req = false ->
                     exists ch, In ch (buildChunks c payload)
                                /\ req = rawRequest c (enc ch)) new).
Proof.
  intros Hm Hg Hurl.
  assert (Hsnd : snd (Send net c payload log)
                 = snd (sendLoop net c (buildChunks c payload) emptyResult 0 log)).
  { unfold Send. destruct (VisitedSites payload) as [|s0 l] eqn:E.
    - rewrite (buildChunks_empty c payload E). reflexivity.
    - simpl. unfold bind.
      destruct (sendLoop net c (buildChunks c payload) emptyResult 0 log)
        as [[result m] log1].
      destruct (LastError result); [destruct (TotalSent result =? 0)|]; reflexivity. }
  rewrite Hsnd. split; intros Hc.
  - apply (sendLoop_plain net c enc Hm Hurl). exact Hc.
  - apply (sendLoop_gzip net c enc gz Hm Hg Hurl). exact Hc.
Qed.

Lemma all_confirmed_counts (chunks : list VisitedSitesDTO) :
  confirmedSites (map (fun ch => (ch, None)) chunks) = concat (map VisitedSites chunks)
  /\ failedSites (map (fun ch => (ch, @None error)) chunks) = []
  /\ lastErrorOf (map (fun ch => (ch, None)) chunks) None = None
  /\ confirmedChunks (map (fun ch => (ch, None)) chunks) = Z.of_nat (length chunks).
Proof.
  induction chunks as [|ch chunks IH]; simpl.
  - repeat split; reflexivity.
  - destruct IH as (I1 & I2 & I3 & I4). rewrite I1.
    repeat split; try assumption. lia.
Qed.

(** X7.  When the payloads serialize and the endpoint answers every
    request with a 2xx status, [Send] confirms the whole batch: no error,
    no failure, every record counted as sent, every chunk counted, and the
    returned timestamp is at least the timestamp of every record. *)
Theorem Send_all_confirmed (net : Net) (c : Client)
    (enc : VisitedSitesDTO -> bytes) (gz : bytes -> bytes)
    (payload : VisitedSitesDTO) (log : list Request) :
  (forall p, json_Marshal net p = inr (enc p)) ->
  (forall d, gzip_bytes net d = inr (gz d)) ->
  http_NewRequest_ok net (serverURL c) = true ->
  (forall l r, exists code, endpoint net l r = Status code /\ is2xx code = true) ->
  let result := Send_result net c payload log in
  Send_err net c payload log = None
  /\ LastError result = None
  /\ FailedCount result = 0
  /\ TotalSent result = lenSites (VisitedSites payload)
  /\ ChunksSent result = Z.of_nat (length (buildChunks c payload))
  /\ Send_maxTimestamp net c payload log = trackMax 0 (VisitedSites payload)
  /\ (forall site, In site (VisitedSites payload) ->
        Timestamp site <= Send_maxTimestamp net c payload log).
Proof.
  intros Hm Hg Hurl Hok result.
  destruct (Send_history net c payload log) as (H1 & H2 & H3 & H4 & H5).
  pose proof (Send_chunksSent net c payload log) as Hcs.
  fold result in H1, H2, H3, Hcs.
  assert (Houts : Send_outcomes net c payload log
                  = map (fun ch => (ch, None)) (buildChunks c payload)).
  { apply (sendOutcomes_confirmed net c enc gz Hm Hg Hurl). exact Hok. }
  destruct (all_confirmed_counts (buildChunks c payload)) as (A1 & A2 & A3 & A4).
  assert (Hcat : concat (map VisitedSites (buildChunks c payload)) = VisitedSites payload).
  { rewrite buildChunks_runs, chunkFrom_concat. reflexivity. }
  rewrite Houts, A1, Hcat in H1, H4, H5.
  rewrite Houts, A2 in H2. rewrite Houts, A3 in H3. rewrite Houts, A4 in Hcs.
  rewrite A3 in H5.
  repeat split; try assumption.
  - rewrite H5. destruct (lenSites (VisitedSites payload) =? 0); reflexivity.
  - intros site Hin. rewrite H4. apply trackMax_upper, Hin.
Qed.

End SendCounters.

(** ** The watermark store *)

Section Store.
Import keys.

Lemma append_slash_inj (a a' r r' : string) :
  slashFree a = true -> slashFree a' = true ->
  String.append a (String "/"%char r) = String.append a' (String "/"%char r') ->
  a = a' /\ r = r'.
Proof.
  revert a'. induction a as [|ch a IH]; intros [|ch' a'] Ha Ha' E; simpl in *.
  - injection E as ->. auto.
  - injection E as <- _. rewrite Ascii.eqb_refl in Ha'. discriminate.
  - injection E as -> _. rewrite Ascii.eqb_refl in Ha. discriminate.
  - injection E as -> E.
    apply andb_true_iff in Ha, Ha'. destruct Ha as [_ Ha]. destruct Ha' as [_ Ha'].
    destruct (IH a' Ha Ha' E) as [-> ->]. auto.
Qed.

Lemma makeKey_unfold (u b p : string) :
  state.makeKey u b p
  = String.append u (String "/"%char (String.append b (String "/"%char p))).
Proof. reflexivity. Qed.

Lemma append_cons (ch : ascii) (a b : string) :
  String.append (String ch a) b = String ch (String.append a b).
Proof. reflexivity. Qed.

Lemma append_assoc (a b c : string) :
  String.append (String.append a b) c = String.append a (String.append b c).
Proof.
  induction a as [|ch a IH]; [reflexivity|].
  rewrite !append_cons, IH. reflexivity.
Qed.

Lemma makeKey_inj (u b p u' b' p' : string) :
  slashFree u = true -> slashFree b = true ->
  slashFree u' = true -> slashFree b' = true ->
  state.makeKey u b p = state.makeKey u' b' p' ->
  u = u' /\ b = b' /\ p = p'.
Proof.
  intros Hu Hb Hu' Hb' E. rewrite !makeKey_unfold in E.
  destruct (append_slash_inj _ _ _ _ Hu Hu' E) as [-> E2].
  destruct (append_slash_inj _ _ _ _ Hb Hb' E2) as [-> ->]. auto.
Qed.

End Store.

Section StoreResults.
Import keys.

(** X9.  The key of a container determines the container as long as
    the user name and the browser name hold no slash: two such containers
    with the same key have the same user, browser and profile names.  With
    a slash in a name the keys can coincide: a slash that moves from the
    user name to the browser name leaves the key unchanged. *)
Theorem makeKey_injective (u b p u' b' p' : string) :
  (slashFree u = true -> slashFree b = true ->
   slashFree u' = true -> slashFree b' = true ->
   state.makeKey u b p = state.makeKey u' b' p' ->
   u = u' /\ b = b' /\ p = p')
  /\ state.makeKey (String.append u (String "/"%char b)) b' p
     = state.makeKey u (String.append b (String "/"%char b')) p.
Proof.
  split.
  - apply makeKey_inj.
  - rewrite !makeKey_unfold, !append_assoc, !append_cons. reflexivity.
Qed.

(** X10.  The store reads 0 for a container never written, reads back
    the timestamp last written for a container, and a write for one
    container leaves the reading of every other container as it was (names
    without slash). *)
Theorem store_get_set (data : gmap string Z) (u b p u' b' p' : string) (ts : Z) :
  state.GetLastTimestamp ∅ u b p = 0
  /\ state.GetLastTimestamp (state.SetLastTimestamp data u b p ts) u b p = ts
  /\ (slashFree u = true -> slashFree b = true ->
      slashFree u' = true -> slashFree b' = true ->
      (u, b, p) <> (u', b', p') ->
      state.GetLastTimestamp (state.SetLastTimestamp data u b p ts) u' b' p'
      = state.GetLastTimestamp data u' b' p').
Proof.
  unfold state.GetLastTimestamp, state.SetLastTimestamp. split; [|split].
  - rewrite lookup_empty. reflexivity.
  - rewrite lookup_insert_eq. reflexivity.
  - intros Hu Hb Hu' Hb' Hne. rewrite lookup_insert_ne; [reflexivity|].
    intros E. apply Hne.
    destruct (makeKey_inj u b p u' b' p' Hu Hb Hu' Hb' E) as (-> & -> & ->).
    reflexivity.
Qed.

End StoreResults.

(** ** The profiles of a Chromium browser *)

Section Listing.
Import browser chromium.

Variable host : Host.

Lemma fold_findProfiles (baseDir : string) (entries : list DirEntry) : forall acc,
  fold_left (findProfiles_step host baseDir) entries acc
  = acc ++ map (profileOf host baseDir) (List.filter (keeps host baseDir) entries).
Proof.
  induction entries as [|e entries IH]; intros acc; simpl.
  - rewrite app_nil_r. reflexivity.
  - rewrite IH. unfold findProfiles_step, keeps.
    destruct (entryIsDir e); simpl; [|reflexivity].
    destruct (String.eqb (entryName e) "Default" || String.prefix "Profile " (entryName e));
      simpl; [|reflexivity].
    destruct (statSucceeds host
                (filepath_Join host (filepath_Join host baseDir (entryName e)) "History"));
      simpl; [|reflexivity].
    rewrite <- app_assoc. reflexivity.
Qed.

Lemma NoDup_map_filter {A B} (f : A -> B) (p : A -> bool) (l : list A) :
  List.NoDup (map f l) -> List.NoDup (map f (List.filter p l)).
Proof.
  induction l as [|x l IH]; simpl; intros H; [constructor|].
  inversion H as [|? ? Hx Hl]; subst.
  destruct (p x); simpl; [|apply IH, Hl].
  constructor; [|apply IH, Hl].
  intros Hin. apply Hx. apply in_map_iff in Hin. destruct Hin as (y & E & Hy).
  apply (proj1 (List.filter_In _ _ _)) in Hy. apply in_map_iff. exists y. tauto.
Qed.

End Listing.

Section ListingResults.
Import browser chromium.

(** X11.  For a browser with profiles whose base directory can be
    listed, [FindProfiles] returns, in the order of the listing, one
    profile per directory named Default or "Profile ..." on whose History
    file [os.Stat] succeeds; its name is the directory name and its path
    the directory joined to the base directory, so profile names are
    distinct as directory names are.  A browser without profiles yields at
    most the one profile Default at its base directory.  No error is ever
    returned, and a listing that fails yields no profile. *)
Theorem Chromium_FindProfiles_listing (host : Host) (c : ChromiumBrowser)
    (user : platform.User) :
  let baseDir := getBaseDir host c user in
  let found := fst (Chromium_FindProfiles host c user) in
  snd (Chromium_FindProfiles host c user) = None
  /\ (forall entries,
        hasProfiles c = true -> isEmpty baseDir = false ->
        os_Stat host baseDir <> StatNotExist ->
        os_ReadDir host baseDir = inr entries ->
        found = map (profileOf host baseDir) (List.filter (keeps host baseDir) entries)
        /\ (List.NoDup (map entryName entries) -> List.NoDup (map Name found)))
  /\ (forall err, hasProfiles c = true -> os_ReadDir host baseDir = inl err -> found = [])
  /\ (hasProfiles c = false ->
        found = [] \/ found = [{| Name := "Default"; Path := baseDir |}])
  /\ (forall p, In p found ->
        os_Stat host (filepath_Join host (Path p) "History") = StatOk).
Proof.
  intros baseDir found.
  split; [apply (FindProfiles_no_error host c user)|].
  split; [|split; [|split]].
  - intros entries Hp Hne Hstat Hdir. unfold found, Chromium_FindProfiles.
    fold baseDir. rewrite Hne, Hp, Hdir. unfold statNotExist.
    destruct (os_Stat host baseDir); try congruence; simpl;
      rewrite fold_findProfiles; simpl; (split; [reflexivity|]); intros Hnd;
      rewrite map_map; simpl; apply (NoDup_map_filter entryName); exact Hnd.
  - intros err Hp Hdir. unfold found, Chromium_FindProfiles. fold baseDir.
    rewrite Hp, Hdir.
    destruct (isEmpty baseDir); [reflexivity|].
    destruct (statNotExist host baseDir); reflexivity.
  - intros Hp. unfold found, Chromium_FindProfiles. fold baseDir. rewrite Hp.
    destruct (isEmpty baseDir); [left; reflexivity|].
    destruct (statNotExist host baseDir); [left; reflexivity|].
    destruct (statSucceeds host (filepath_Join host baseDir "History")); auto.
  - intros p Hin. apply (Chromium_FindProfiles_verified host c user p Hin).
Qed.

End ListingResults.

(** ** What a read returns *)

Section ReadComplete.
Import dto browser.

Context {R : Type}.
Variable newer : R -> bool.
Variable leb : R -> R -> bool.
Variable url_of : R -> option string.
Variable unixMs : R -> Z.

Lemma sitesOf_complete (l : list R) (r : R) (u : string) :
  In r l -> url_of r = Some u ->
  In {| URL := u; Timestamp := unixMs r |} (sitesOf url_of unixMs l).
Proof.
  intros Hin Hu. unfold sitesOf. apply in_flat_map. exists r.
  split; [exact Hin|]. rewrite Hu. left. reflexivity.
Qed.

Lemma sitesOf_length (l : list R) :
  (length (sitesOf url_of unixMs l) <= length l)%nat.
Proof.
  induction l as [|r l IH]; simpl; [lia|].
  rewrite length_app. destruct (url_of r); simpl; lia.
Qed.

Lemma insertBy_length (x : R) (l : list R) :
  length (insertBy leb x l) = S (length l).
Proof.
  induction l as [|y l IH]; simpl; [reflexivity|].
  destruct (leb x y); simpl; [reflexivity|]. rewrite IH. reflexivity.
Qed.

Lemma orderBy_length (l : list R) : length (orderBy leb l) = length l.
Proof.
  induction l as [|x l IH]; simpl; [reflexivity|].
  rewrite insertBy_length, IH. reflexivity.
Qed.

(** Without an iteration error nothing that passed the filter is lost,
    and there are never more sites than rows. *)
Lemma readRows_complete (rows : list R) (rowsErr : option (nat * error)) :
  (rowsErr = None ->
   forall r u, In r rows -> newer r = true -> url_of r = Some u ->
     In {| URL := u; Timestamp := unixMs r |}
        (fst (readRows newer leb url_of unixMs (Table rows rowsErr))))
  /\ (length (fst (readRows newer leb url_of unixMs (Table rows rowsErr)))
      <= length rows)%nat.
Proof.
  simpl. rewrite fold_scanRow. simpl. split.
  - intros -> r u Hin Hn Hu. apply sitesOf_complete; [|exact Hu].
    simpl. unfold selectSince. apply (proj2 (orderBy_In newer leb url_of unixMs r _)).
    apply (proj2 (List.filter_In _ _ _)). auto.
  - etransitivity; [apply sitesOf_length|].
    assert (Hsel : (length (selectSince newer leb rows) <= length rows)%nat).
    { unfold selectSince. rewrite orderBy_length. apply List.filter_length_le. }
    unfold delivered. destruct rowsErr as [[n e]|]; [|exact Hsel].
    rewrite length_firstn. lia.
Qed.

End ReadComplete.

Section ReadResults.
Import dto browser firefox.

Lemma quot_lower (since t : Z) : since * 1000 < t -> since <= Z.quot t 1000.
Proof.
  intros H. rewrite <- (Z.quot_mul since 1000) by lia.
  apply Z.quot_le_mono; lia.
Qed.


Lemma firefox_agrees (threshold : Z) (rows : list placesRow) :
  agrees firefox_leb firefox_ms (List.filter (firefox_newer threshold) rows).
Proof.
  intros x y Hx Hy.
  apply (proj1 (List.filter_In _ _ _)) in Hx. apply (proj1 (List.filter_In _ _ _)) in Hy.
  destruct Hx as [_ Hx]. destruct Hy as [_ Hy].
  unfold firefox_newer, firefox_leb, firefox_ms, firefox_unixMs, gonum.div in *.
  destruct (last_visit_date x) as [a|]; [|discriminate].
  destruct (last_visit_date y) as [b|]; [|discriminate].
  split; intros H.
  - apply Z.leb_le in H. apply Z.quot_le_mono; lia.
  - apply Z.leb_gt in H. apply Z.quot_le_mono; lia.
Qed.

(** X13.  The Firefox adapter compares in microseconds with the
    watermark times 1000, with no special case for a watermark of 0.  Every
    site it returns comes from a row with a URL whose date is strictly
    above that threshold, and carries the date divided by 1000; the sites
    come in non-decreasing timestamp order; none is older than the
    watermark; absent an iteration error no such row is left out.  A
    watermark converted to microseconds and back is recovered exactly. *)
Theorem Firefox_GetHistory_newer_in_order (fx : Files) (host : Host) (profile : Profile)
    (sinceTimestamp : Z) (rows : list placesRow) (rowsErr : option (nat * error)) :
  places_db fx (filepath_Join host (Path profile) "places.sqlite") = Table rows rowsErr ->
  - 2 ^ 63 <= sinceTimestamp * 1000 < 2 ^ 63 ->
  let sites := fst (Firefox_GetHistory fx host profile sinceTimestamp) in
  (forall site, In site sites ->
     exists r t, In r rows /\ place_url r = Some (URL site)
                 /\ last_visit_date r = Some t
                 /\ sinceTimestamp * 1000 < t
                 /\ Timestamp site = Z.quot t 1000
                 /\ sinceTimestamp <= Timestamp site)
  /\ Sorted (fun a b => Timestamp a <= Timestamp b) sites
  /\ (rowsErr = None ->
      forall r u t, In r rows -> place_url r = Some u -> last_visit_date r = Some t ->
        sinceTimestamp * 1000 < t ->
        In {| URL := u; Timestamp := Z.quot t 1000 |} sites)
  /\ firefox_unixMs (firefoxTimestamp sinceTimestamp) = sinceTimestamp.
Proof.
  intros Hdb Hrange sites.
  assert (Hthr : firefoxTimestamp sinceTimestamp = sinceTimestamp * 1000).
  { unfold firefoxTimestamp. apply wrap64_id. exact Hrange. }
  unfold sites, Firefox_GetHistory. rewrite Hdb, Hthr.
  split; [|split; [|split]].
  - intros site Hin. apply readRows_sound in Hin.
    destruct Hin as (r & Hr & Hn & Hu & Ht).
    unfold firefox_newer, firefox_url, firefox_ms, firefox_unixMs, gonum.div in *.
    destruct (last_visit_date r) as [t|] eqn:Hd; [|discriminate].
    apply Z.gtb_lt in Hn. exists r, t. repeat split; try assumption; try lia.
    rewrite Ht. apply quot_lower. lia.
  - apply readRows_sorted, firefox_agrees.
  - intros Herr r u t Hin Hu Hd Hnew.
    match goal with |- context [readRows ?n ?l ?uu ?m (Table rows rowsErr)] =>
      destruct (readRows_complete n l uu m rows rowsErr) as [Hc _] end.
    specialize (Hc Herr r u Hin).
    unfold firefox_newer, firefox_url, firefox_ms, firefox_unixMs, gonum.div in Hc.
    rewrite Hd in Hc. apply Hc; [|exact Hu]. apply Z.gtb_lt. lia.
  - unfold firefox_unixMs, gonum.div. apply Z.quot_mul. lia.
Qed.

End ReadResults.

(** ** The profiles of Firefox *)

Section FirefoxProfiles.
Import browser firefox.

Variable host : Host.
Variable fx : Files.

Lemma saveProfile_seen (dir : string) (st : iniState) :
  placesSeen host (profiles st) -> placesSeen host (saveProfile host fx dir st).
Proof.
  intros H. unfold saveProfile.
  destruct (inProfile st && negb (isEmpty (cur_path st))); [|exact H].
  unfold statSucceeds.
  match goal with |- context [os_Stat host ?path] =>
    destruct (os_Stat host path) eqn:Hstat; try exact H end.
  intros p Hin. apply in_app_or in Hin. destruct Hin as [Hin|[<-|[]]]; [apply H, Hin|].
  simpl. exact Hstat.
Qed.

Lemma ini_step_seen (dir : string) (st : iniState) (text : string) :
  placesSeen host (profiles st) -> placesSeen host (profiles (ini_step host fx dir st text)).
Proof.
  intros H. unfold ini_step.
  destruct (String.prefix "[" (strings_TrimSpace fx text)
            && endsWithBracket (strings_TrimSpace fx text)).
  - simpl. apply saveProfile_seen, H.
  - destruct (negb (inProfile st)); [exact H|].
    destruct (cutAt "=" (strings_TrimSpace fx text)) as [[k v]|]; [|exact H].
    destruct (String.eqb (strings_TrimSpace fx k) "Name"); [exact H|].
    destruct (String.eqb (strings_TrimSpace fx k) "Path"); [exact H|].
    destruct (String.eqb (strings_TrimSpace fx k) "IsRelative"); exact H.
Qed.

Lemma parseProfilesIni_seen (iniPath dir : string) :
  placesSeen host (fst (parseProfilesIni host fx iniPath dir)).
Proof.
  unfold parseProfilesIni.
  destruct (open_lines fx iniPath) as [e|[lines scanErr]]; simpl; [intros p []|].
  apply saveProfile_seen.
  assert (H : forall st, placesSeen host (profiles st) ->
                placesSeen host (profiles (fold_left (ini_step host fx dir) lines st))).
  { induction lines as [|text lines IH]; intros st Hst; simpl; [exact Hst|].
    apply IH, ini_step_seen, Hst. }
  apply H. intros p [].
Qed.

Lemma scanForProfiles_seen (dir : string) :
  placesSeen host (fst (scanForProfiles host dir)).
Proof.
  unfold scanForProfiles.
  destruct (os_ReadDir host dir) as [e|entries]; simpl; [intros p []|].
  assert (H : forall acc, placesSeen host acc ->
                placesSeen host (fold_left (scan_step host dir) entries acc)).
  { induction entries as [|e entries IH]; intros acc Hacc; simpl; [exact Hacc|].
    apply IH. unfold scan_step.
    destruct (negb (entryIsDir e)); [exact Hacc|].
    unfold statSucceeds.
    match goal with |- context [os_Stat host ?path] =>
      destruct (os_Stat host path) eqn:Hstat; try exact Hacc end.
    intros p Hin. apply in_app_or in Hin.
    destruct Hin as [Hin|[<-|[]]]; [apply Hacc, Hin|]. simpl. exact Hstat. }
  apply H. intros p [].
Qed.

End FirefoxProfiles.

Section FirefoxProfilesResults.
Import browser firefox.

(** X14.  The Firefox adapter lists a profile only after [os.Stat]
    succeeded on its places.sqlite, whether the profile comes from
    profiles.ini or from the scan of the profiles directory.  It returns
    no profile and no error when the profiles directory is absent; it
    falls back to the directory scan exactly when profiles.ini cannot be
    opened or read to its end; and the only error it returns is that of
    listing the directory during the fallback, with no profile. *)
Theorem Firefox_FindProfiles_verified (fx : Files) (host : Host) (user : platform.User) :
  let dir := getProfilesDir host user in
  let ini := parseProfilesIni host fx (filepath_Join host dir "profiles.ini") dir in
  placesSeen host (fst (Firefox_FindProfiles fx host user))
  /\ (isEmpty dir = true \/ os_Stat host dir = StatNotExist ->
      Firefox_FindProfiles fx host user = ([], None))
  /\ (isEmpty dir = false -> os_Stat host dir <> StatNotExist ->
      (snd ini = None -> Firefox_FindProfiles fx host user = (fst ini, None))
      /\ (snd ini <> None -> Firefox_FindProfiles fx host user = scanForProfiles host dir))
  /\ (forall err, snd (Firefox_FindProfiles fx host user) = Some err ->
        os_ReadDir host dir = inl err /\ fst (Firefox_FindProfiles fx host user) = []).
Proof.
  intros dir ini. unfold Firefox_FindProfiles. fold dir. fold ini.
  assert (Hini := parseProfilesIni_seen host fx (filepath_Join host dir "profiles.ini") dir).
  assert (Hscan := scanForProfiles_seen host dir).
  fold ini in Hini.
  split; [|split; [|split]].
  - destruct (isEmpty dir); [intros p []|].
    destruct (statNotExist host dir); [intros p []|].
    destruct ini as [found [e|]]; [exact Hscan|exact Hini].
  - unfold statNotExist. intros [H|H].
    + rewrite H. reflexivity.
    + destruct (isEmpty dir); [reflexivity|]. rewrite H. reflexivity.
  - intros He Hstat. rewrite He. unfold statNotExist.
    destruct (os_Stat host dir); try congruence;
      destruct ini as [found [e|]]; simpl; split; congruence.
  - intros err. destruct (isEmpty dir); [discriminate|].
    destruct (statNotExist host dir); [discriminate|].
    destruct ini as [found [e|]]; [|discriminate].
    unfold scanForProfiles. destruct (os_ReadDir host dir) as [e'|entries]; simpl.
    + intros H. injection H as ->. auto.
    + discriminate.
Qed.

Lemma find_name (name : string) (l : list Browser) (b : Browser) :
  List.find (fun b => String.eqb (Browser_Name b) name) l = Some b ->
  In b l /\ Browser_Name b = name.
Proof.
  intros H. apply List.find_some in H. destruct H as [Hin E].
  apply String.eqb_eq in E. auto.
Qed.

(** X15.  The seven browsers of [All] have distinct names, none with a
    slash.  [ByName] returns a browser of [All] bearing the name asked
    for, returns each browser of [All] when asked for its name, and returns
    nil exactly for a name that [SupportedBrowserNames] does not list. *)
Theorem ByName_lookup (fx : Files) (name : string) :
  List.NoDup (SupportedBrowserNames fx)
  /\ Forall (fun n => keys.slashFree n = true) (SupportedBrowserNames fx)
  /\ (forall b, ByName fx name = Some b -> In b (All fx) /\ Browser_Name b = name)
  /\ (forall b, In b (All fx) -> ByName fx (Browser_Name b) = Some b)
  /\ (ByName fx name = None <-> ~ In name (SupportedBrowserNames fx)).
Proof.
  split; [|split; [|split; [|split]]].
  - unfold SupportedBrowserNames, All. simpl.
    repeat (constructor; [simpl; intuition discriminate|]). constructor.
  - unfold SupportedBrowserNames, All. simpl. repeat constructor.
  - intros b. apply find_name.
  - intros b Hin. unfold ByName, All in *. simpl in Hin.
    repeat (destruct Hin as [<-|Hin]; [reflexivity|]). contradiction.
  - unfold ByName, SupportedBrowserNames. split.
    + intros Hnone Hin. apply in_map_iff in Hin. destruct Hin as (b & E & Hb).
      apply (List.find_none _ _ Hnone) in Hb. simpl in Hb.
      rewrite E, String.eqb_refl in Hb. discriminate.
    + intros Hnot.
      destruct (List.find (fun b => String.eqb (Browser_Name b) name) (All fx)) as [b|] eqn:E;
        [|reflexivity].
      exfalso. apply Hnot. apply find_name in E. destruct E as [Hin <-].
      apply in_map, Hin.
Qed.

End FirefoxProfilesResults.

(** ** What a scan changes *)

Section ScanFrame.
Import scanner.

Variable env : Env.
Variable s : Scanner.

(** A positive timestamp returned by [Send] is that of a record of the
    batch. *)
Lemma Send_maxTimestamp_of_batch (net : sender.Net) (c : sender.Client)
    (payload : dto.VisitedSitesDTO) (log : list sender.Request) :
  sender.Send_maxTimestamp net c payload log = 0
  \/ exists site, In site (dto.VisitedSites payload)
       /\ dto.Timestamp site = sender.Send_maxTimestamp net c payload log.
Proof.
  destruct (Send_history net c payload log) as (_ & _ & _ & Hmax & _).
  rewrite Hmax.
  destruct (trackMax_in (sender.confirmedSites (sender.Send_outcomes net c payload log)) 0)
    as [E|(site & Hin & E)]; [left; exact E|].
  right. exists site. split; [|exact E].
  apply confirmedSites_sub in Hin.
  destruct (Send_outcomes_shape net c payload log) as (Hm & _).
  rewrite Hm, buildChunks_runs, chunkFrom_concat in Hin. exact Hin.
Qed.

(** The world after [scanProfile], field by field. *)
Lemma scanProfile_world (user : platform.User) (b : browser.Browser)
    (profile : browser.Profile) (w : World) :
  let last := lastTimestampFor env user b profile w in
  let r := scanProfile env s user b profile w in
  let key := run.keyOf (user, b, profile) in
  (exists new, wire (snd r) = wire w ++ new
     /\ Forall (delivery.wellFormed (client s)) new
     /\ (dryRun s = true -> new = []))
  /\ (exists out, stdout (snd r) = stdout w ++ out
        /\ (length out <= 1)%nat
        /\ (dryRun s = false -> out = []))
  /\ (data (snd r) = data w
      \/ exists site,
           In site (fst (browser.GetHistory b (host env) profile last))
           /\ 0 < dto.Timestamp site
           /\ data (snd r) = <[key := dto.Timestamp site]> (data w)
           /\ dryRun s = false
           /\ snd (fst r) = None
           /\ 0 < fst (fst r)).
Proof.
  intros last r key. subst r. unfold scanProfile. fold last.
  assert (Hsame : forall (o : Z * option error),
    (exists new, wire w = wire w ++ new
       /\ Forall (delivery.wellFormed (client s)) new
       /\ (dryRun s = true -> new = []))
    /\ (exists out, stdout w = stdout w ++ out
          /\ (length out <= 1)%nat
          /\ (dryRun s = false -> out = []))).
  { intros _. split; exists []; rewrite app_nil_r; simpl; auto. }
  destruct (browser.GetHistory b (host env) profile last) as [entries [e|]] eqn:EH; simpl.
  { destruct (Hsame (0, None)) as [H1 H2]. auto. }
  destruct (negb (sender.nonEmpty entries)) eqn:Hne; simpl.
  { destruct (Hsame (0, None)) as [H1 H2]. auto. }
  destruct (dryRun s) eqn:Hdry.
  - destruct (json_MarshalIndent env (payloadFor env s user entries)) as [e|out]; simpl.
    + destruct (Hsame (0, None)) as [H1 H2]. auto.
    + split; [exists []; rewrite app_nil_r; auto|].
      split; [|left; reflexivity].
      exists [out]. simpl. repeat split; [lia|discriminate].
  - pose proof (Send_adds (net env) (client s) (payloadFor env s user entries) (wire w))
      as (new & Hw & Hwf).
    pose proof (Send_maxTimestamp_of_batch (net env) (client s)
                  (payloadFor env s user entries) (wire w)) as Hmax.
    pose proof (Send_err_iff (net env) (client s) (payloadFor env s user entries) (wire w))
      as Herr.
    pose proof (buildChunks_partition_total_aux (net env) (client s)
                  (payloadFor env s user entries) (wire w)) as Htot.
    pose proof (Send_history (net env) (client s) (payloadFor env s user entries) (wire w))
      as (Hts & _ & _ & Hm & Herr2).
    unfold sender.Send_maxTimestamp, sender.Send_err, sender.Send_result in *.
    destruct (sender.Send (net env) (client s) (payloadFor env s user entries) (wire w))
      as [[[result m] [err|]] wire1]; simpl in *; subst wire1.
    + split; [exists new; repeat split; [exact Hwf|discriminate]|].
      split; [exists []; rewrite app_nil_r; auto|]. left. reflexivity.
    + split; [exists new; repeat split; [exact Hwf|discriminate]|].
      split; [exists []; rewrite app_nil_r; auto|].
      destruct (m >? 0) eqn:Hpos; [|left; reflexivity].
      apply Z.gtb_lt in Hpos. right.
      destruct Hmax as [E|(site & Hin & E)]; [lia|].
      exists site. rewrite E. repeat split; auto; try lia.
      destruct (sender.lenSites
                  (sender.confirmedSites
                     (sender.Send_outcomes (net env) (client s)
                        (payloadFor env s user entries) (wire w)))) eqn:EL.
      * exfalso.
        destruct (sender.confirmedSites
                    (sender.Send_outcomes (net env) (client s)
                       (payloadFor env s user entries) (wire w))); simpl in *; [lia|].
        unfold sender.lenSites in EL. simpl in EL. lia.
      * lia.
      * unfold sender.lenSites in EL. lia.
Qed.

End ScanFrame.

Section RunLoops.
Import scanner run.

Variable env : Env.
Variable s : Scanner.

Lemma sumSent_snoc (outs : list (Z * option error)) (o : Z * option error) :
  sumSent (outs ++ [o])
  = sumSent outs + match snd o with None => fst o | Some _ => 0 end.
Proof.
  unfold sumSent. induction outs as [|o' outs IH]; simpl.
  - destruct (snd o); lia.
  - rewrite IH. destruct (snd o'); lia.
Qed.

Lemma combine_snoc {A B} (l : list A) (l' : list B) (x : A) (y : B) :
  length l = length l' -> combine (l ++ [x]) (l' ++ [y]) = combine l l' ++ [(x, y)].
Proof.
  revert l'. induction l as [|a l IH]; intros [|b l'] H; simpl in *; try discriminate.
  - reflexivity.
  - rewrite IH by congruence. reflexivity.
Qed.

Lemma errorsOf_snoc (cs : list Container) (outs : list (Z * option error))
    (c : Container) (o : Z * option error) :
  length outs = length cs ->
  errorsOf (cs ++ [c]) (outs ++ [o])
  = errorsOf cs outs ++ match snd o with Some err => [(keyOf c, err)] | None => [] end.
Proof.
  intros H. unfold errorsOf. rewrite combine_snoc by congruence.
  rewrite flat_map_app. simpl. rewrite app_nil_r. reflexivity.
Qed.

(** What [scanProfile] returns: no entry with an error, never a
    negative number of entries. *)
Lemma scanProfile_sent (user : platform.User) (b : browser.Browser)
    (profile : browser.Profile) (w : World) :
  let o := fst (scanProfile env s user b profile w) in
  0 <= fst o /\ (snd o <> None -> fst o = 0).
Proof.
  unfold scanProfile.
  destruct (browser.GetHistory b (host env) profile (lastTimestampFor env user b profile w))
    as [entries [e|]]; simpl; [split; [lia|reflexivity]|].
  destruct (negb (sender.nonEmpty entries)); simpl; [split; [lia|reflexivity]|].
  destruct (dryRun s).
  - destruct (json_MarshalIndent env (payloadFor env s user entries)); simpl.
    + split; [lia|reflexivity].
    + split; [unfold sender.lenSites; lia|congruence].
  - pose proof (Send_history (net env) (client s) (payloadFor env s user entries) (wire w))
      as (Hts & _).
    unfold sender.Send_result in Hts.
    destruct (sender.Send (net env) (client s) (payloadFor env s user entries) (wire w))
      as [[[result m] [err|]] wire1]; simpl in *.
    + split; [lia|reflexivity].
    + split; [rewrite Hts; unfold sender.lenSites; lia|congruence].
Qed.

Lemma Run_profile_step (user : platform.User) (b : browser.Browser)
    (acc : runAcc) (profile : browser.Profile) :
  let r := scanProfile env s user b profile (world acc) in
  let acc1 := Run_profile env s user b acc profile in
  world acc1 = snd r
  /\ outcomes acc1 = outcomes acc ++ [fst r]
  /\ usersScanned acc1 = usersScanned acc
  /\ profilesScanned acc1 = profilesScanned acc + 1
  /\ entriesSent acc1
     = entriesSent acc + match snd (fst r) with None => fst (fst r) | Some _ => 0 end
  /\ errors acc1
     = errors acc ++ match snd (fst r) with
                     | Some err => [(keyOf (user, b, profile), err)]
                     | None => []
                     end.
Proof.
  unfold Run_profile.
  destruct (scanProfile env s user b profile (world acc)) as [[sent [err|]] w1]; simpl;
    rewrite ?app_nil_r; repeat split; lia.
Qed.

Lemma Run_profile_tallied (user : platform.User) (b : browser.Browser)
    (acc : runAcc) (profile : browser.Profile) (cs : list Container) :
  tallied acc cs ->
  tallied (Run_profile env s user b acc profile) (cs ++ [(user, b, profile)]).
Proof.
  intros (Hlen & Hps & Hsent & Herrs & Hall).
  destruct (Run_profile_step user b acc profile) as (_ & Ho & _ & Hp & He & Hr).
  unfold tallied. rewrite Ho, Hp, He, Hr, !length_app, sumSent_snoc, errorsOf_snoc by exact Hlen.
  simpl. repeat split; try lia; try congruence.
  apply Forall_app. split; [exact Hall|]. constructor; [|constructor].
  apply scanProfile_sent.
Qed.

Lemma Run_profile_framed (user : platform.User) (b : browser.Browser)
    (acc : runAcc) (profile : browser.Profile) (w0 : World) (cs : list Container) :
  framed s w0 (world acc) cs ->
  framed s w0 (world (Run_profile env s user b acc profile)) (cs ++ [(user, b, profile)]).
Proof.
  intros ((new & Hw & Hwf & Hnew) & (out & Hout & Hlen & Hdry) & Hdata & Hkeys & Hpos).
  destruct (Run_profile_step user b acc profile) as (-> & _).
  destruct (scanProfile_world env s user b profile (world acc))
    as ((new1 & Hw1 & Hwf1 & Hnew1) & (out1 & Hout1 & Hlen1 & Hdry1) & Hd).
  unfold framed. split; [|split; [|split; [|split]]].
  - exists (new ++ new1). rewrite Hw1, Hw, <- app_assoc.
    split; [reflexivity|]. split; [apply Forall_app; auto|].
    intros Hd'. rewrite (Hnew Hd'), (Hnew1 Hd'). reflexivity.
  - exists (out ++ out1). rewrite Hout1, Hout, <- app_assoc, !length_app.
    split; [reflexivity|]. split; [simpl; lia|].
    intros Hd'. rewrite (Hdry Hd'), (Hdry1 Hd'). reflexivity.
  - intros Hd'. destruct Hd as [E|(site & _ & _ & _ & Hfalse & _)]; [|congruence].
    rewrite E. auto.
  - intros k Hk. destruct Hd as [E|(site & _ & _ & E & _)]; rewrite E.
    + apply Hkeys. intros c Hc. apply Hk, in_or_app. auto.
    + rewrite lookup_insert_ne.
      * apply Hkeys. intros c Hc. apply Hk, in_or_app. auto.
      * apply Hk, in_or_app. right. left. reflexivity.
  - intros k. destruct Hd as [E|(site & _ & Hts & E & _)]; rewrite E; [apply Hpos|].
    destruct (decide (keyOf (user, b, profile) = k)) as [<-|Hne].
    + right. exists (dto.Timestamp site). rewrite lookup_insert_eq. auto.
    + rewrite lookup_insert_ne by exact Hne. apply Hpos.
Qed.

Lemma Run_profiles_after (user : platform.User) (b : browser.Browser) (w0 : World) (n : Z)
    (profiles : list browser.Profile) : forall acc cs,
  after s w0 n acc cs ->
  after s w0 n (fold_left (Run_profile env s user b) profiles acc)
    (cs ++ map (fun profile => (user, b, profile)) profiles).
Proof.
  induction profiles as [|profile profiles IH]; intros acc cs H; simpl.
  - rewrite app_nil_r. exact H.
  - change (cs ++ (user, b, profile) :: map (fun profile => (user, b, profile)) profiles)
      with (cs ++ [(user, b, profile)] ++ map (fun profile => (user, b, profile)) profiles).
    rewrite app_assoc. apply IH. destruct H as (Ht & Hf & Hu).
    split; [apply Run_profile_tallied, Ht|].
    split; [apply Run_profile_framed, Hf|].
    destruct (Run_profile_step user b acc profile) as (_ & _ & -> & _). exact Hu.
Qed.

Lemma Run_browser_after (user : platform.User) (w0 : World) (n : Z)
    (acc : runAcc) (b : browser.Browser) (cs : list Container) :
  after s w0 n acc cs ->
  after s w0 n (Run_browser env s user acc b)
    (cs ++ map (fun profile => (user, b, profile)) (found env user b)).
Proof.
  intros H. unfold Run_browser, found.
  destruct (browser.FindProfiles b (host env) user) as [profiles [e|]].
  - simpl. rewrite app_nil_r. exact H.
  - apply Run_profiles_after, H.
Qed.

Lemma Run_browsers_after (user : platform.User) (w0 : World) (n : Z)
    (browsers : list browser.Browser) : forall acc cs,
  after s w0 n acc cs ->
  after s w0 n (fold_left (Run_browser env s user) browsers acc)
    (cs ++ List.flat_map
             (fun b => map (fun profile => (user, b, profile)) (found env user b)) browsers).
Proof.
  induction browsers as [|b browsers IH]; intros acc cs H; simpl.
  - rewrite app_nil_r. exact H.
  - rewrite app_assoc. apply IH, Run_browser_after, H.
Qed.

Lemma Run_users_after (w0 : World) (users : list platform.User) : forall n acc cs,
  after s w0 n acc cs ->
  after s w0 (n + Z.of_nat (length users)) (fold_left (Run_user env s) users acc)
    (cs ++ containers env users).
Proof.
  induction users as [|user users IH]; intros n acc cs H.
  - simpl. rewrite app_nil_r, Z.add_0_r. exact H.
  - cbn [fold_left containers List.flat_map length].
    fold (containers env users).
    rewrite app_assoc, Nat2Z.inj_succ.
    replace (n + Z.succ (Z.of_nat (length users)))
      with ((n + 1) + Z.of_nat (length users)) by lia.
    apply IH. unfold Run_user. apply Run_browsers_after.
    destruct H as (Ht & Hf & Hu). repeat split; try apply Ht; try apply Hf.
    simpl. lia.
Qed.

Lemma scans_app (cs1 cs2 : list Container) : forall w,
  scans env s (cs1 ++ cs2) w
  = (fst (scans env s cs1 w) ++ fst (scans env s cs2 (snd (scans env s cs1 w))),
     snd (scans env s cs2 (snd (scans env s cs1 w)))).
Proof.
  induction cs1 as [|[[user b] profile] cs1 IH]; intros w; simpl.
  - destruct (scans env s cs2 w); reflexivity.
  - destruct (scanProfile env s user b profile w) as [r w1]. rewrite IH.
    destruct (scans env s cs1 w1) as [rs w2]. reflexivity.
Qed.

Lemma Run_profiles_followed (user : platform.User) (b : browser.Browser) (acc0 : runAcc)
    (profiles : list browser.Profile) : forall acc cs,
  followed env s acc0 acc cs ->
  followed env s acc0 (fold_left (Run_profile env s user b) profiles acc)
    (cs ++ map (fun profile => (user, b, profile)) profiles).
Proof.
  induction profiles as [|profile profiles IH]; intros acc cs H; simpl.
  - rewrite app_nil_r. exact H.
  - change (cs ++ (user, b, profile) :: map (fun profile => (user, b, profile)) profiles)
      with (cs ++ [(user, b, profile)] ++ map (fun profile => (user, b, profile)) profiles).
    rewrite app_assoc. apply IH. destruct H as (Ho & Hw).
    destruct (Run_profile_step user b acc profile) as (Hw1 & Ho1 & _).
    unfold followed. rewrite Hw1, Ho1, Ho, Hw, scans_app. simpl.
    destruct (scanProfile env s user b profile (snd (scans env s cs (world acc0))))
      as [r w1]. simpl. rewrite <- app_assoc. auto.
Qed.

Lemma Run_browsers_followed (user : platform.User) (acc0 : runAcc)
    (browsers : list browser.Browser) : forall acc cs,
  followed env s acc0 acc cs ->
  followed env s acc0 (fold_left (Run_browser env s user) browsers acc)
    (cs ++ List.flat_map
             (fun b => map (fun profile => (user, b, profile)) (found env user b)) browsers).
Proof.
  induction browsers as [|b browsers IH]; intros acc cs H; simpl.
  - rewrite app_nil_r. exact H.
  - rewrite app_assoc. apply IH. unfold Run_browser, found.
    destruct (browser.FindProfiles b (host env) user) as [profiles [e|]].
    + simpl. rewrite app_nil_r. exact H.
    + apply Run_profiles_followed, H.
Qed.

Lemma Run_users_followed (acc0 : runAcc) (users : list platform.User) : forall acc cs,
  followed env s acc0 acc cs ->
  followed env s acc0 (fold_left (Run_user env s) users acc) (cs ++ containers env users).
Proof.
  induction users as [|user users IH]; intros acc cs H.
  - simpl. rewrite app_nil_r. exact H.
  - cbn [fold_left containers List.flat_map]. fold (containers env users).
    rewrite app_assoc. apply IH. unfold Run_user. apply Run_browsers_followed.
    exact H.
Qed.

(** The loops of [Run] make the calls of [scans] on the containers of
    the run. *)
Lemma Run_loops_scans (w : World) (users : list platform.User) :
  let acc := fold_left (Run_user env s) users (startAcc w) in
  outcomes acc = fst (scans env s (containers env users) w)
  /\ world acc = snd (scans env s (containers env users) w).
Proof.
  apply (Run_users_followed (startAcc w) users (startAcc w) []).
  split; reflexivity.
Qed.

Lemma startAcc_after (w : World) : after s w 0 (startAcc w) [].
Proof.
  unfold after, tallied, framed. simpl.
  repeat split; auto; try (exists []; rewrite app_nil_r; simpl; auto).
Qed.

(** The loops of [Run] over the users [users], started in [w]. *)
Lemma Run_loops (w : World) (users : list platform.User) :
  let acc := fold_left (Run_user env s) users (startAcc w) in
  tallied acc (containers env users)
  /\ framed s w (world acc) (containers env users)
  /\ usersScanned acc = Z.of_nat (length users).
Proof.
  exact (Run_users_after w users 0 (startAcc w) [] (startAcc_after w)).
Qed.

End RunLoops.

Section RunResults.
Import scanner run.

(** X16.  [scanProfile] only appends to the wire, and only requests
    with the headers of the client.  In a dry run it leaves the wire and
    the watermarks as they were; otherwise it leaves standard output as it
    was.  It changes no watermark but that of its own container, and that
    one only when it returns no error and a positive number of entries: the
    new watermark is then the positive timestamp of an entry it read. *)
Theorem scanProfile_frame (env : Env) (s : Scanner) (user : platform.User)
    (b : browser.Browser) (profile : browser.Profile) (w : World) :
  let last := lastTimestampFor env user b profile w in
  let r := scanProfile env s user b profile w in
  let key := keyOf (user, b, profile) in
  (exists new, wire (snd r) = wire w ++ new
     /\ Forall (delivery.wellFormed (client s)) new)
  /\ (dryRun s = true -> wire (snd r) = wire w /\ data (snd r) = data w)
  /\ (dryRun s = false -> stdout (snd r) = stdout w)
  /\ (forall k, k <> key -> data (snd r) !! k = data w !! k)
  /\ (snd (fst r) <> None \/ fst (fst r) <= 0 -> data (snd r) = data w)
  /\ (data (snd r) !! key = data w !! key
      \/ exists site,
           In site (fst (browser.GetHistory b (host env) profile last))
           /\ 0 < dto.Timestamp site
           /\ data (snd r) !! key = Some (dto.Timestamp site)).
Proof.
  intros last r key.
  destruct (scanProfile_world env s user b profile w)
    as ((new & Hw & Hwf & Hnew) & (out & Hout & Hlen & Hdry) & Hd).
  fold r in Hw, Hout, Hd. fold last in Hd. fold key in Hd.
  split; [exists new; auto|].
  split.
  { intros Hd'. rewrite Hw, (Hnew Hd'), app_nil_r. split; [reflexivity|].
    destruct Hd as [E|(site & _ & _ & _ & Hfalse & _)]; [exact E|congruence]. }
  split.
  { intros Hd'. rewrite Hout, (Hdry Hd'), app_nil_r. reflexivity. }
  split.
  { intros k Hk. destruct Hd as [E|(site & _ & _ & E & _)]; rewrite E; [reflexivity|].
    rewrite lookup_insert_ne by congruence. reflexivity. }
  split.
  { intros Hbad. destruct Hd as [E|(site & _ & _ & _ & _ & Hnone & Hsent)]; [exact E|].
    destruct Hbad; [congruence|lia]. }
  destruct Hd as [E|(site & Hin & Hts & E & _)]; [left; rewrite E; reflexivity|].
  right. exists site. rewrite E, lookup_insert_eq. auto.
Qed.

(** X17.  A scan whose adapter returns no entry older than the
    watermark it was given never lowers the stored watermark of its
    container: the watermark stays, or becomes the timestamp of an entry
    read. *)
Theorem scanProfile_watermark_monotone (env : Env) (s : Scanner) (user : platform.User)
    (b : browser.Browser) (profile : browser.Profile) (w : World) :
  let last := lastTimestampFor env user b profile w in
  let stored (d : gmap string Z) :=
    state.GetLastTimestamp d (platform.Username user) (browser.Browser_Name b)
      (browser.Name profile) in
  Forall (fun site => last <= dto.Timestamp site)
    (fst (browser.GetHistory b (host env) profile last)) ->
  stored (data w) <= stored (data (snd (scanProfile env s user b profile w)))
  /\ (stored (data (snd (scanProfile env s user b profile w))) = stored (data w)
      \/ exists site,
           In site (fst (browser.GetHistory b (host env) profile last))
           /\ stored (data (snd (scanProfile env s user b profile w))) = dto.Timestamp site).
Proof.
  intros last stored Hall.
  destruct (scanProfile_world env s user b profile w) as (_ & _ & Hd).
  fold last in Hd.
  destruct Hd as [E|(site & Hin & Hts & E & _)].
  - rewrite E. split; [lia|left; reflexivity].
  - assert (Hnew : stored (data (snd (scanProfile env s user b profile w)))
                   = dto.Timestamp site).
    { unfold stored, state.GetLastTimestamp. rewrite E. unfold keyOf.
      rewrite lookup_insert_eq. reflexivity. }
    rewrite Hnew. split; [|right; exists site; auto].
    rewrite List.Forall_forall in Hall. specialize (Hall site Hin).
    unfold last, lastTimestampFor in Hall. fold (stored (data w)) in Hall.
    destruct (stored (data w) =? 0) eqn:E0; [apply Z.eqb_eq in E0; lia|lia].
Qed.

(** X18.  [Run] calls [scanProfile] once for every profile that
    [FindProfiles] returned without error, for every user and every
    browser in the order of its loops, each call in the world the call
    before it left and whatever the earlier calls returned: the world
    after [Run] is the world after those calls.  Its result counts the
    users, counts the calls as [ProfilesScanned], adds up as [EntriesSent]
    the entries of the calls that returned no error, and lists as [Errors]
    the errors of the others under the keys of their containers, in the
    order of the calls. *)
Theorem Run_tally (env : Env) (s : Scanner) (w : World)
    (u : platform.User) (users : list platform.User) :
  GetAllUsers env = inr (u :: users) ->
  let res := fst (Run env s w) in
  let cs := containers env (u :: users) in
  let results := fst (scans env s cs w) in
  snd (Run env s w) = snd (scans env s cs w)
  /\ snd (Run_traced env s w) = results
  /\ UsersScanned res = Z.of_nat (length (u :: users))
  /\ length results = length cs
  /\ ProfilesScanned res = Z.of_nat (length cs)
  /\ EntriesSent res = sumSent results
  /\ Errors res = errorsOf cs results
  /\ 0 <= EntriesSent res
  /\ Z.of_nat (length (Errors res)) = countIf isFailure results.
Proof.
  intros HU res cs results. subst res. unfold Run, Run_traced. rewrite HU.
  cbn [sender.nonEmpty negb fst snd UsersScanned ProfilesScanned EntriesSent Errors].
  destruct (Run_loops env s w (u :: users)) as ((Hlen & Hps & Hsent & Herrs & Hall) & _ & Hu).
  destruct (Run_loops_scans env s w (u :: users)) as (Hout & Hworld).
  fold cs in Hlen, Hps, Herrs, Hout, Hworld. fold results in Hout.
  set (acc := fold_left (Run_user env s) (u :: users) (startAcc w)) in *.
  rewrite Hout in Hlen, Hsent, Herrs, Hall.
  split; [exact Hworld|]. split; [exact Hout|].
  repeat split; auto.
  - rewrite Hsent. clear -Hall. induction Hall as [|o outs [Ho _] _ IH]; simpl; [lia|].
    unfold sumSent in *. simpl. destruct (snd o); lia.
  - rewrite Herrs. clear -Hlen. revert Hlen. generalize results. generalize cs.
    clear. induction cs as [|c cs IH]; intros [|o outs] H; simpl in *; try discriminate.
    + reflexivity.
    + unfold errorsOf, countIf in *. simpl. rewrite length_app.
      specialize (IH outs ltac:(congruence)).
      unfold isFailure at 1. destruct (snd o); simpl in *; lia.
Qed.

(** X19.  [Run] only appends to the wire, and only requests with the
    headers of the client.  A dry run leaves wire and watermarks as they
    were; any other run leaves standard output as it was.  A run never
    removes a watermark and never stores one that is not positive; it
    leaves alone every key that is not the key of a container it scanned;
    and it changes nothing when the users cannot be listed or there are
    none. *)
Theorem Run_frame (env : Env) (s : Scanner) (w : World) :
  let w1 := snd (Run env s w) in
  (exists new, wire w1 = wire w ++ new
     /\ Forall (delivery.wellFormed (client s)) new)
  /\ (dryRun s = true -> wire w1 = wire w /\ data w1 = data w)
  /\ (dryRun s = false -> stdout w1 = stdout w)
  /\ (forall k, data w1 !! k = data w !! k
                \/ exists ts, 0 < ts /\ data w1 !! k = Some ts)
  /\ (forall users k, GetAllUsers env = inr users ->
        (forall c, In c (containers env users) -> keyOf c <> k) ->
        data w1 !! k = data w !! k)
  /\ ((exists err, GetAllUsers env = inl err) \/ GetAllUsers env = inr [] -> w1 = w).
Proof.
  intros w1. subst w1. unfold Run, Run_traced.
  assert (Hsame : (exists new, wire w = wire w ++ new
                     /\ Forall (delivery.wellFormed (client s)) new)
                  /\ (dryRun s = true -> wire w = wire w /\ data w = data w)
                  /\ (dryRun s = false -> stdout w = stdout w)
                  /\ (forall k, data w !! k = data w !! k
                                \/ exists ts, 0 < ts /\ data w !! k = Some ts)).
  { split; [exists []; rewrite app_nil_r; auto|]. auto. }
  destruct (GetAllUsers env) as [err|[|u users]] eqn:HU; simpl.
  - destruct Hsame as (H1 & H2 & H3 & H4). repeat split; auto.
  - destruct Hsame as (H1 & H2 & H3 & H4). repeat split; auto.
  - destruct (Run_loops env s w (u :: users))
      as (_ & ((new & Hw & Hwf & Hnew) & (out & Hout & _ & Hdry) & Hdata & Hkeys & Hpos) & _).
    cbn [fold_left] in Hw, Hout, Hdata, Hkeys, Hpos.
    split; [exists new; auto|].
    split; [intros Hd; rewrite Hw, (Hnew Hd), app_nil_r; auto|].
    split; [intros Hd; rewrite Hout, (Hdry Hd), app_nil_r; reflexivity|].
    split; [exact Hpos|].
    split.
    + intros users' k E. injection E as <-. apply Hkeys.
    + intros [[err E]|E]; discriminate.
Qed.

End RunResults.

(** ** The configuration *)

Section ConfigResults.
Import config.

Lemma isEmpty_spec (str : string) : browser.isEmpty str = true <-> str = ""%string.
Proof. unfold browser.isEmpty. destruct str; simpl; split; congruence. Qed.

(** X20.  Command-line flags never invalidate a configuration: what
    passes [Validate] still passes it after [ApplyFlags], whatever the
    flags.  Applying the same flags twice changes nothing more.  The
    default configuration with flags passes [Validate] exactly when the
    flags give a server URL and an API key.  A configuration that passes
    [Validate] gives a client whose ceiling is at least 1024 bytes, as long
    as the kilobytes times 1024 fit an int64. *)
Theorem ApplyFlags_keeps_valid (c : Config) (f : Flags) :
  (Validate c = None -> Validate (ApplyFlags c f) = None)
  /\ ApplyFlags (ApplyFlags c f) f = ApplyFlags c f
  /\ (Validate (ApplyFlags DefaultConfig f) = None
      <-> serverURL f <> ""%string /\ apiKey f <> ""%string)
  /\ (Validate c = None -> ChunkSizeKB c * 1024 < 2 ^ 63 ->
      1024 <= sender.maxChunkSize (clientOf c)).
Proof.
  split; [|split; [|split]].
  - unfold Validate, ApplyFlags. simpl.
    destruct (browser.isEmpty (ServerURL c)) eqn:E1; [discriminate|].
    destruct (browser.isEmpty (APIKey c)) eqn:E2; [discriminate|].
    destruct (InitialDays c <? 0) eqn:E3; [discriminate|].
    destruct (ChunkSizeKB c <=? 0) eqn:E4; [discriminate|].
    destruct (Timeout c <=? 0) eqn:E5; [discriminate|]. intros _.
    destruct (browser.isEmpty (serverURL f)) eqn:F1; simpl; rewrite ?E1, ?F1;
    destruct (browser.isEmpty (apiKey f)) eqn:F2; simpl; rewrite ?E2, ?F2;
    destruct (initialDays f >? 0) eqn:F3;
    destruct (chunkSizeKB f >? 0) eqn:F4;
    destruct (timeout f >? 0) eqn:F5;
    rewrite ?E3, ?E4, ?E5;
    repeat match goal with
           | |- context [?a <? 0] => destruct (Z.ltb_spec a 0); [lia|]
           | |- context [?a <=? 0] => destruct (Z.leb_spec a 0); [lia|]
           end; reflexivity.
  - unfold ApplyFlags. simpl.
    destruct (browser.isEmpty (serverURL f)), (browser.isEmpty (apiKey f)),
      (browser.isEmpty (stateFile f)), (browser.isEmpty (logFile f)),
      (initialDays f >? 0), (chunkSizeKB f >? 0), (compressSet f), (timeout f >? 0);
      reflexivity.
  - unfold Validate, ApplyFlags, DefaultConfig, Second. simpl.
    destruct (browser.isEmpty (serverURL f)) eqn:F1; simpl.
    + apply isEmpty_spec in F1. split; [discriminate|]. intros [H _]. congruence.
    + rewrite F1.
      destruct (browser.isEmpty (apiKey f)) eqn:F2; simpl.
      * apply isEmpty_spec in F2. split; [discriminate|]. intros [_ H]. congruence.
      * rewrite F2.
        assert (N1 : serverURL f <> ""%string)
          by (intros E; apply isEmpty_spec in E; congruence).
        assert (N2 : apiKey f <> ""%string)
          by (intros E; apply isEmpty_spec in E; congruence).
        destruct (initialDays f >? 0) eqn:F3;
        destruct (chunkSizeKB f >? 0) eqn:F4;
        destruct (timeout f >? 0) eqn:F5;
        repeat match goal with
               | |- context [?a <? 0] => destruct (Z.ltb_spec a 0); [lia|]
               | |- context [?a <=? 0] => destruct (Z.leb_spec a 0); [lia|]
               end; split; auto.
  - unfold Validate, clientOf, sender.NewClient. simpl.
    destruct (browser.isEmpty (ServerURL c)); [discriminate|].
    destruct (browser.isEmpty (APIKey c)); [discriminate|].
    destruct (InitialDays c <? 0); [discriminate|].
    destruct (Z.leb_spec (ChunkSizeKB c) 0); [discriminate|]. intros _ _. lia.
Qed.

End ConfigResults.

(** ** The state file *)

Section StateFile.
Import statefile.

Variable disk : Disk.

Lemma writes_app (c1 c2 : list Call) : writes (c1 ++ c2) = writes c1 ++ writes c2.
Proof. unfold writes. apply flat_map_app. Qed.

Lemma canWrite_writes (dir : string) : writes (snd (canWrite disk dir)) = [].
Proof.
  unfold canWrite. destruct (os_MkdirAll disk dir); [reflexivity|].
  destruct (os_Create_ok disk (filepath_Join disk dir ".write_test")); reflexivity.
Qed.

Lemma findWritablePath_writes (m : Manager) : writes (snd (findWritablePath disk m)) = [].
Proof.
  unfold findWritablePath. destruct (negb (browser.isEmpty (stateFile m))); [reflexivity|].
  destruct (negb (browser.isEmpty (getCentralStatePath disk))); [|reflexivity].
  pose proof (canWrite_writes (filepath_Dir disk (getCentralStatePath disk))) as H.
  destruct (canWrite disk (filepath_Dir disk (getCentralStatePath disk))) as [[|] calls];
    exact H.
Qed.

(** What [Save] does once the path is known. *)
Lemma writeState_spec (m : Manager) (path : string) (calls : list Call) :
  writes calls = [] ->
  let r := writeState disk m path calls in
  snd (fst r) = m
  /\ (writes (snd r) = []
      \/ exists content,
           writes (snd r) = [(path, content)]
           /\ json_MarshalIndent disk (data m) = inr content
           /\ In (MkdirAll (filepath_Dir disk path)) (snd r))
  /\ (fst (fst r) = None -> writes (snd r) <> []).
Proof.
  intros Hc. unfold writeState.
  destruct (json_MarshalIndent disk (data m)) as [e|content]; simpl.
  { repeat split; auto; discriminate. }
  destruct (os_MkdirAll disk (filepath_Dir disk path)) as [e|]; simpl.
  { split; [reflexivity|]. split; [|discriminate].
    left. rewrite writes_app, Hc. reflexivity. }
  assert (Hw : writes (calls ++ [MkdirAll (filepath_Dir disk path); WriteFile path content])
               = [(path, content)]) by (rewrite writes_app, Hc; reflexivity).
  assert (Hin : In (MkdirAll (filepath_Dir disk path))
                  (calls ++ [MkdirAll (filepath_Dir disk path); WriteFile path content]))
    by (apply in_or_app; right; left; reflexivity).
  destruct (os_WriteFile disk path content) as [e|]; simpl;
    (split; [reflexivity|]); (split; [right; exists content; auto|]);
    rewrite Hw; discriminate.
Qed.

Lemma Save_spec (m : Manager) :
  let r := Save disk m in
  data (snd (fst r)) = data m
  /\ (stateFile m <> ""%string -> stateFile (snd (fst r)) = stateFile m)
  /\ (writes (snd r) = []
      \/ exists content,
           writes (snd r) = [(stateFile (snd (fst r)), content)]
           /\ json_MarshalIndent disk (data m) = inr content
           /\ In (MkdirAll (filepath_Dir disk (stateFile (snd (fst r))))) (snd r))
  /\ (fst (fst r) = None -> stateFile (snd (fst r)) <> ""%string -> writes (snd r) <> []).
Proof.
  unfold Save. destruct (browser.isEmpty (stateFile m)) eqn:E.
  - pose proof (findWritablePath_writes m) as Hf.
    destruct (findWritablePath disk m) as [path calls]. simpl in Hf.
    destruct (browser.isEmpty path) eqn:Ep.
    + simpl. apply isEmpty_spec in E. repeat split; auto; congruence.
    + destruct (writeState_spec {| stateFile := path; data := data m |} path calls Hf)
        as (Hm & Hw & Hn).
      cbv zeta in *. rewrite Hm. simpl in *.
      apply isEmpty_spec in E. repeat split; auto; congruence.
  - destruct (writeState_spec m (stateFile m) [] eq_refl) as (Hm & Hw & Hn).
    cbv zeta in *. rewrite Hm. repeat split; auto.
Qed.

Lemma resolveStatePath_spec (m : Manager) :
  resolveStatePath disk m = ""%string
  \/ (os_Stat_ok disk (resolveStatePath disk m) = true
      /\ (resolveStatePath disk m = stateFile m
          \/ ((stateFile m = ""%string \/ os_Stat_ok disk (stateFile m) = false)
              /\ (resolveStatePath disk m = getCentralStatePath disk
                  \/ resolveStatePath disk m = getTempStatePath disk)))).
Proof.
  unfold resolveStatePath.
  destruct (browser.isEmpty (stateFile m)) eqn:E; simpl.
  - apply isEmpty_spec in E.
    destruct (negb (browser.isEmpty (getCentralStatePath disk))
              && os_Stat_ok disk (getCentralStatePath disk)) eqn:Ec.
    + apply andb_prop in Ec. right. intuition.
    + destruct (os_Stat_ok disk (getTempStatePath disk)) eqn:Et; [right|left]; intuition.
  - destruct (os_Stat_ok disk (stateFile m)) eqn:Es; [right; auto|].
    destruct (negb (browser.isEmpty (getCentralStatePath disk))
              && os_Stat_ok disk (getCentralStatePath disk)) eqn:Ec.
    + apply andb_prop in Ec. right. intuition.
    + destruct (os_Stat_ok disk (getTempStatePath disk)) eqn:Et; [right|left]; intuition.
Qed.

End StateFile.

Section StateFileResults.
Import statefile.

(** X21.  [Load] returns no error and leaves the manager as it was
    when no state file is found; it changes the path of the manager only
    when it has read and decoded a file, and then to that file: the
    configured one, or, when the configured one is not there, the central
    or the temporary one.  [Save] after [Load] never changes the
    watermarks, keeps a path that is set, and writes at most once: the
    encoded watermarks, to the path of the manager, after creating its
    directory.  So a configured state file that does not exist yet is not
    created when another state file is found: the watermarks are saved to
    the file found. *)
Theorem Load_then_Save (disk : Disk) (m : Manager) :
  let found := resolveStatePath disk m in
  let m1 := snd (Load disk m) in
  let sv := Save disk m1 in
  let m2 := snd (fst sv) in
  (found = ""%string \/ os_ReadFile disk found = ReadNotExist -> Load disk m = (None, m))
  /\ (fst (Load disk m) <> None -> stateFile m1 = stateFile m)
  /\ (stateFile m1 = stateFile m
      \/ (fst (Load disk m) = None
          /\ stateFile m1 = found
          /\ os_Stat_ok disk found = true
          /\ (stateFile m = ""%string \/ os_Stat_ok disk (stateFile m) = false)
          /\ (found = getCentralStatePath disk \/ found = getTempStatePath disk)))
  /\ (stateFile m1 <> ""%string -> stateFile m2 = stateFile m1)
  /\ data m2 = data m1
  /\ (writes (snd sv) = []
      \/ exists content,
           writes (snd sv) = [(stateFile m2, content)]
           /\ json_MarshalIndent disk (data m1) = inr content
           /\ In (MkdirAll (filepath_Dir disk (stateFile m2))) (snd sv))
  /\ (fst (fst sv) = None -> stateFile m2 <> ""%string -> writes (snd sv) <> [])
  /\ (forall content,
        found <> ""%string ->
        os_ReadFile disk found = ReadOk content ->
        fst (json_Unmarshal disk content (data m)) = None ->
        stateFile m2 = found
        /\ forall p d, In (p, d) (writes (snd sv)) -> p = found).
Proof.
  intros found m1 sv m2.
  destruct (Save_spec disk m1) as (Hdata & Hkeep & Hw & Hn).
  fold sv in Hdata, Hkeep, Hw, Hn. fold m2 in Hdata, Hkeep, Hw, Hn.
  assert (HL : Load disk m
               = if browser.isEmpty found then (None, m)
                 else match os_ReadFile disk found with
                      | ReadNotExist => (None, m)
                      | ReadErr err => (Some (wrapError "failed to read state file" err), m)
                      | ReadOk content =>
                          match json_Unmarshal disk content (data m) with
                          | (Some err, data1) =>
                              (Some (wrapError "failed to parse state file" err),
                               {| stateFile := stateFile m; data := data1 |})
                          | (None, data1) => (None, {| stateFile := found; data := data1 |})
                          end
                      end) by reflexivity.
  split; [|split; [|split; [|split; [|split; [|split; [|split]]]]]]; auto.
  - rewrite HL. intros [E|E].
    + rewrite E. reflexivity.
    + rewrite E. destruct (browser.isEmpty found); reflexivity.
  - subst m1. rewrite HL. destruct (browser.isEmpty found); [reflexivity|].
    destruct (os_ReadFile disk found) as [|e|content]; try reflexivity.
    destruct (json_Unmarshal disk content (data m)) as [[e|] data1]; simpl; congruence.
  - subst m1. rewrite HL.
    destruct (browser.isEmpty found) eqn:Ef; [left; reflexivity|].
    destruct (os_ReadFile disk found) as [|e|content]; try (left; reflexivity).
    destruct (json_Unmarshal disk content (data m)) as [[e|] data1]; simpl;
      [left; reflexivity|].
    destruct (resolveStatePath_spec disk m) as [E|(Hs & [E|(Hno & Hwhere)])];
      fold found in E || fold found in Hs, Hno, Hwhere.
    + rewrite E in Ef. discriminate.
    + left. exact E.
    + fold found in Hs. right. auto.
  - intros content Hne Hread Hdec.
    assert (H1 : stateFile m1 = found).
    { subst m1. rewrite HL.
      destruct (browser.isEmpty found) eqn:Ef; [apply isEmpty_spec in Ef; congruence|].
      rewrite Hread. destruct (json_Unmarshal disk content (data m)) as [[e|] data1];
        simpl in *; [discriminate|reflexivity]. }
    assert (H2 : stateFile m2 = found) by (rewrite Hkeep; congruence).
    split; [exact H2|].
    intros p d Hin. destruct Hw as [E|(c & E & _)]; rewrite E in Hin.
    + destruct Hin.
    + destruct Hin as [Hin|[]]. congruence.
Qed.

End StateFileResults.

(** ** Temporary copies of a database *)

#[local] Set Warnings "-clear-no-such-hyp".

Section TempFiles.
Import db.

Variable sys : Sys.

Lemma copyIfExists_spec (src dst : string) (fs : Files) :
  copyIfExists sys src dst fs = fs
  \/ (os_Open sys src = None /\ os_Create sys dst = None
      /\ copyIfExists sys src dst fs = {[ dst ]} ∪ fs).
Proof.
  unfold copyIfExists. destruct (os_Open sys src); [left; reflexivity|].
  destruct (os_Create sys dst); [left; reflexivity|]. right. auto.
Qed.

Lemma append_suffix_ne (t : string) (c : ascii) (rest : string) :
  String.append t (String c rest) <> t.
Proof.
  induction t as [|a t IH]; [discriminate|].
  rewrite append_cons. intros E. injection E as E. exact (IH E).
Qed.

(** [copyToTemp] on a fresh name: nothing new on failure; the copy and
    at most its two side files on success. *)
Lemma copyToTemp_spec (dbPath : string) (fs : Files) :
  (forall t, os_CreateTemp sys (pattern sys dbPath) = inr t -> fresh t fs) ->
  match copyToTemp sys dbPath fs with
  | (inl _, fs1) => fs1 = fs
  | (inr t, fs1) =>
      os_CreateTemp sys (pattern sys dbPath) = inr t
      /\ fresh t fs
      /\ t ∈ fs1
      /\ fs1 ∖ {[ t ]} ∖ {[ String.append t "-wal" ]} ∖ {[ String.append t "-shm" ]} = fs
      /\ (os_Open sys (String.append dbPath "-wal") = None ->
          os_Create sys (String.append t "-wal") = None ->
          String.append t "-wal" ∈ fs1)
      /\ (os_Open sys (String.append dbPath "-shm") = None ->
          os_Create sys (String.append t "-shm") = None ->
          String.append t "-shm" ∈ fs1)
  end.
Proof.
  intros Hfresh. unfold copyToTemp. fold (pattern sys dbPath).
  destruct (os_CreateTemp sys (pattern sys dbPath)) as [e|t]; [reflexivity|].
  destruct (Hfresh t eq_refl) as (Hne & H0 & H1 & H2).
  destruct (os_Open sys dbPath); [set_solver|].
  destruct (io_Copy sys dbPath t); [set_solver|].
  split; [reflexivity|]. split; [repeat split; assumption|].
  pose proof (append_suffix_ne t "-" "wal") as N1.
  pose proof (append_suffix_ne t "-" "shm") as N2.
  unfold copyIfExists.
  destruct (os_Open sys (String.append dbPath "-wal"));
    [|destruct (os_Create sys (String.append t "-wal"))];
    (destruct (os_Open sys (String.append dbPath "-shm"));
      [|destruct (os_Create sys (String.append t "-shm"))]);
    repeat split; try discriminate; set_solver.
Qed.

End TempFiles.

Section TempFilesResults.
Import db.

(** X22.  As long as [os.CreateTemp] returns a new name, [Open]
    followed by [Close] leaves the temporary directory as it was, and
    [Open] uses a copy exactly when the database cannot be opened in place.
    A failed [Open] leaves the directory as it was, or, when it is the copy
    that could not be opened, leaves at most the two side files of the
    copy; it does leave the -wal copy whenever the database has a -wal file
    that could be copied. *)
Theorem Open_Close_temp_files (sys : Sys) (dbPath : string) (fs : Files) :
  (forall t, os_CreateTemp sys (pattern sys dbPath) = inr t -> fresh t fs) ->
  (forall d, fst (Open sys dbPath fs) = inr d ->
     Close d (snd (Open sys dbPath fs)) = fs
     /\ path d = dbPath
     /\ (IsTempCopy d = true <-> openWithWAL sys dbPath <> None))
  /\ (forall err, fst (Open sys dbPath fs) = inl err ->
        openWithWAL sys dbPath <> None
        /\ (snd (Open sys dbPath fs) = fs
            \/ exists t,
                 os_CreateTemp sys (pattern sys dbPath) = inr t
                 /\ openWithWAL sys t <> None
                 /\ fs ⊆ snd (Open sys dbPath fs)
                 /\ snd (Open sys dbPath fs)
                      ⊆ fs ∪ {[ String.append t "-wal"; String.append t "-shm" ]}))
  /\ (forall t,
        openWithWAL sys dbPath <> None ->
        os_CreateTemp sys (pattern sys dbPath) = inr t ->
        os_Open sys dbPath = None ->
        io_Copy sys dbPath t = None ->
        os_Open sys (String.append dbPath "-wal") = None ->
        os_Create sys (String.append t "-wal") = None ->
        openWithWAL sys t <> None ->
        (exists err, fst (Open sys dbPath fs) = inl err)
        /\ String.append t "-wal" ∈ snd (Open sys dbPath fs)
        /\ String.append t "-wal" ∉ fs).
Proof.
  intros Hfresh.
  pose proof (copyToTemp_spec sys dbPath fs Hfresh) as Hc.
  unfold Open, Close, IsTempCopy.
  split; [|split].
  - intros d. destruct (openWithWAL sys dbPath) as [e0|] eqn:E0.
    + destruct (copyToTemp sys dbPath fs) as [[e|t] fs1]; [discriminate|].
      destruct Hc as (_ & (Hne & _) & _ & Hrest & _).
      destruct (openWithWAL sys t); [discriminate|].
      simpl. intros H. injection H as <-. simpl.
      assert (Et : browser.isEmpty t = false).
      { destruct (browser.isEmpty t) eqn:E; [apply isEmpty_spec in E; congruence|reflexivity]. }
      rewrite Et. simpl. repeat split; auto; discriminate.
    + simpl. intros H. injection H as <-. simpl.
      repeat split; auto; try discriminate; congruence.
  - intros err. destruct (openWithWAL sys dbPath) as [e0|] eqn:E0; [|discriminate].
    intros H. split; [discriminate|].
    destruct (copyToTemp sys dbPath fs) as [[e|t] fs1]; [left; exact Hc|].
    destruct Hc as (Hct & (Hne & H0 & H1 & H2) & Hin & Hrest & _).
    destruct (openWithWAL sys t) as [e1|] eqn:E1; [|discriminate].
    right. exists t. simpl.
    pose proof (append_suffix_ne t "-" "wal") as N1.
    pose proof (append_suffix_ne t "-" "shm") as N2.
    split; [exact Hct|]. split; [rewrite E1; discriminate|]. split.
    + intros x Hx. apply elem_of_difference. split.
      * assert (Hx' : x ∈ fs1 ∖ {[t]} ∖ {[String.append t "-wal"]}
                           ∖ {[String.append t "-shm"]}) by (rewrite Hrest; exact Hx).
        set_solver.
      * set_solver.
    + intros x Hx. apply elem_of_difference in Hx. destruct Hx as [Hx Hxt].
      destruct (decide (x = String.append t "-wal")) as [->|Nw]; [set_solver|].
      destruct (decide (x = String.append t "-shm")) as [->|Ns]; [set_solver|].
      apply elem_of_union. left. rewrite <- Hrest. set_solver.
  - intros t N0 Hct Hop Hcp Hwal Hcr Nt.
    destruct (openWithWAL sys dbPath) as [e0|]; [|congruence].
    destruct (Hfresh t Hct) as (Hne & H0 & H1 & H2).
    unfold copyToTemp in *. fold (pattern sys dbPath) in *.
    rewrite Hct, Hop, Hcp in *.
    destruct Hc as (_ & _ & _ & _ & Hw & _).
    destruct (openWithWAL sys t) as [e1|]; [|congruence]. simpl.
    split; [eauto|]. split; [|exact H1].
    pose proof (append_suffix_ne t "-" "wal") as N1.
    apply elem_of_difference. split; [apply Hw; assumption|set_solver].
Qed.

End TempFilesResults.

(** ** Sample runs of the further properties *)

Section MoreRuns.
Import dto sender examples samples.

Lemma buildChunks_single_chunk_witness :
  buildChunks client1K batch1 = [batch1].
Proof.
  apply (proj2 (buildChunks_single_chunk client1K batch1)).
  - reflexivity.
  - discriminate.
  - vm_compute. discriminate.
Defined.

Lemma buildChunks_stable_witness :
  buildChunks client1K (sealChunk batch2 [early]) = [sealChunk batch2 [early]].
Proof.
  apply (buildChunks_stable client1K batch2).
  vm_compute. left. reflexivity.
Defined.

Lemma Send_attempts_every_chunk_witness :
  snd (Send firstFails client1K batch2 [])
  = map (fun ch => rawRequest client1K (enc ch)) (buildChunks client1K batch2).
Proof.
  apply (proj1 (Send_attempts_every_chunk firstFails client1K enc (fun d => d) batch2 []
                  (fun _ => eq_refl) (fun _ => eq_refl) eq_refl)).
  reflexivity.
Defined.

Lemma Send_all_confirmed_witness :
  Send_err accepting client1Kgz batch2 [] = None
  /\ TotalSent (Send_result accepting client1Kgz batch2 []) = 2
  /\ Send_maxTimestamp accepting client1Kgz batch2 [] = Timestamp late.
Proof.
  destruct (Send_all_confirmed accepting client1Kgz enc (fun d => d ++ d) batch2 []
              (fun _ => eq_refl) (fun _ => eq_refl) eq_refl
              (fun _ _ => ex_intro _ 200 (conj eq_refl eq_refl)))
    as (H1 & _ & _ & H4 & _ & H6 & _).
  split; [exact H1|]. split; [exact H4|]. rewrite H6. reflexivity.
Defined.

Lemma makeKey_injective_witness :
  state.makeKey "alice" "opera" "Default" <> state.makeKey "alice" "chrome" "Default".
Proof.
  intros E.
  destruct (proj1 (makeKey_injective "alice" "opera" "Default" "alice" "chrome" "Default")
              eq_refl eq_refl eq_refl eq_refl E) as (_ & Hb & _).
  discriminate Hb.
Defined.

Lemma store_get_set_witness :
  state.GetLastTimestamp
    (state.SetLastTimestamp (scanner.data syncedWorld) "alice" "chrome" "Default"
       1700000000000)
    "alice" "opera" "Default"
  = 1700000060000.
Proof.
  destruct (store_get_set (scanner.data syncedWorld) "alice" "chrome" "Default"
              "alice" "opera" "Default" 1700000000000) as (_ & _ & H).
  rewrite H; [reflexivity|reflexivity|reflexivity|reflexivity|reflexivity|discriminate].
Defined.

Lemma Chromium_FindProfiles_listing_witness :
  List.NoDup (map browser.Name (fst (browser.Chromium_FindProfiles deskHost chrome alice)))
  /\ length (fst (browser.Chromium_FindProfiles deskHost chrome alice)) = 2%nat.
Proof.
  destruct (Chromium_FindProfiles_listing deskHost chrome alice) as (_ & H & _).
  destruct (H [ {| entryName := "Crashpad"; entryIsDir := true |};
                {| entryName := "Default"; entryIsDir := true |};
                {| entryName := "Local State"; entryIsDir := false |};
                {| entryName := "Profile 1"; entryIsDir := true |};
                {| entryName := "Profile 2"; entryIsDir := true |} ])
    as (Hfound & Hnodup).
  - reflexivity.
  - reflexivity.
  - vm_compute. discriminate.
  - reflexivity.
  - split.
    + apply Hnodup. repeat constructor; simpl; intuition discriminate.
    + rewrite Hfound. reflexivity.
Defined.


Lemma Firefox_GetHistory_newer_in_order_witness :
  In {| URL := "https://example.org/a"; Timestamp := 1700000000000 |}
     (fst (firefox.Firefox_GetHistory (fxFiles (inr (iniLines, None))) deskHost fxProfile
             1699999999999))
  /\ Sorted (fun a b => Timestamp a <= Timestamp b)
       (fst (firefox.Firefox_GetHistory (fxFiles (inr (iniLines, None))) deskHost fxProfile
               1699999999999)).
Proof.
  destruct (Firefox_GetHistory_newer_in_order (fxFiles (inr (iniLines, None))) deskHost
              fxProfile 1699999999999 placesRows None) as (_ & Hsorted & Hall & _).
  - reflexivity.
  - lia.
  - split; [|exact Hsorted].
    apply (Hall eq_refl
             {| firefox.place_url := Some "https://example.org/a"%string;
                firefox.last_visit_date := Some 1700000000000001 |}
             "https://example.org/a"%string 1700000000000001).
    + right. right. left. reflexivity.
    + reflexivity.
    + reflexivity.
    + lia.
Defined.

Lemma Firefox_FindProfiles_verified_witness :
  firefox.Firefox_FindProfiles (fxFiles (inl (errorString "permission denied"))) deskHost alice
  = firefox.scanForProfiles deskHost "/home/alice/.mozilla/firefox".
Proof.
  destruct (Firefox_FindProfiles_verified (fxFiles (inl (errorString "permission denied")))
              deskHost alice) as (_ & _ & H & _).
  destruct H as (_ & Hfallback).
  - reflexivity.
  - vm_compute. discriminate.
  - apply Hfallback. vm_compute. discriminate.
Defined.

Lemma scanProfile_watermark_monotone_witness :
  state.GetLastTimestamp (scanner.data freshWorld) "alice" "opera" "Default"
  <= state.GetLastTimestamp
       (scanner.data
          (snd (scanner.scanProfile (envWith firstOnly) theScanner alice browser.NewOpera
                  operaProfile freshWorld)))
       "alice" "opera" "Default".
Proof.
  apply (scanProfile_watermark_monotone (envWith firstOnly) theScanner alice
           browser.NewOpera operaProfile freshWorld).
  vm_compute. repeat constructor; intros; discriminate.
Defined.

Lemma Run_tally_witness :
  scanner.ProfilesScanned (fst (scanner.Run (envWith unreachable) theScanner freshWorld)) = 1
  /\ scanner.EntriesSent (fst (scanner.Run (envWith unreachable) theScanner freshWorld)) = 0
  /\ length (scanner.Errors (fst (scanner.Run (envWith unreachable) theScanner freshWorld)))
     = 1%nat
  /\ snd (scanner.Run (envWith firstFails) theScanner freshWorld)
     = snd (scanner.scanProfile (envWith firstFails) theScanner alice browser.NewOpera
              operaProfile freshWorld).
Proof.
  destruct (Run_tally (envWith unreachable) theScanner freshWorld alice [] eq_refl)
    as (_ & _ & _ & _ & Hps & Hsent & Herrs & _).
  destruct (Run_tally (envWith firstFails) theScanner freshWorld alice [] eq_refl)
    as (Hworld & _).
  rewrite Hps, Hsent, Herrs, Hworld. vm_compute. auto.
Defined.

Lemma ApplyFlags_keeps_valid_witness :
  config.Validate (config.ApplyFlags config.DefaultConfig flags) = None.
Proof.
  apply (proj1 (proj2 (proj2 (ApplyFlags_keeps_valid config.DefaultConfig flags)))).
  split; discriminate.
Defined.

Lemma Load_then_Save_witness :
  statefile.stateFile
    (snd (fst (statefile.Save disk
                 (snd (statefile.Load disk (statefile.NewManager configuredState))))))
  = tempState
  /\ forall p d,
       In (p, d) (statefile.writes
                    (snd (statefile.Save disk
                            (snd (statefile.Load disk
                                    (statefile.NewManager configuredState)))))) ->
       p = tempState.
Proof.
  destruct (Load_then_Save disk (statefile.NewManager configuredState))
    as (_ & _ & _ & _ & _ & _ & _ & H).
  apply (H []).
  - vm_compute. discriminate.
  - reflexivity.
  - reflexivity.
Defined.

Lemma Open_Close_temp_files_witness :
  (exists err, fst (db.Open (lockedSys false) lockedHistory ∅) = inl err)
  /\ String.append tempName "-wal" ∈ snd (db.Open (lockedSys false) lockedHistory ∅).
Proof.
  assert (Hfresh : forall t,
            db.os_CreateTemp (lockedSys false) (db.pattern (lockedSys false) lockedHistory)
            = inr t -> db.fresh t ∅).
  { intros t H. injection H as <-. unfold db.fresh.
    split; [discriminate|]. repeat split; apply not_elem_of_empty. }
  destruct (Open_Close_temp_files (lockedSys false) lockedHistory ∅ Hfresh) as (_ & _ & H).
  destruct (H tempName) as (Herr & Hin & _).
  - vm_compute. discriminate.
  - reflexivity.
  - reflexivity.
  - reflexivity.
  - reflexivity.
  - reflexivity.
  - vm_compute. discriminate.
  - split; [exact Herr|exact Hin].
Defined.

End MoreRuns.
